(** * HR metrics automator: the report builder and the mock data generator

    A shallow embedding of [src/build_dashboard_report.py] and
    [src/generate_mock_data.py].

    - int64 columns are [Z] with the two's-complement wrap-around of their
      sums written out;
    - float64 columns of the report builder are binary64 values
      ([PrimFloat.float]), so that [pct_change], [diff] and division by zero
      evaluate as they do in the program;
    - the mock data generator is modelled twice: on exact rationals, with
      Python's [max], [min] and [round], for the structure of its output,
      and in binary64, as the script computes, for the values of its rows;
    - pandas' [groupby] is written out as a one-pass grouping into key
      order, its group mean as the compensated sum pandas uses, and
      [sort_values] as [nargsort] over numpy's [argsort], of which only the
      contract is assumed: the script's default sort is not stable;
    - exceptions are a result type; the file system and numpy's global random
      state are threaded explicitly, and the library calls whose results are
      opaque here (parsers, renderers, samplers) are section variables. *)

From Stdlib Require Import String Ascii.
From Stdlib Require Import ZArith List Bool Lia Sorted Permutation.
From Stdlib Require Import Floats QArith Qround Lqa.
Import ListNotations.

Set Implicit Arguments.

(** ** Exceptions *)

Inductive exn : Type :=
| KeyError            (* a dict has no such key *)
| FileNotFoundError   (* load_data: the metrics file is missing *)
| FileExistsError     (* mkdir over a regular file *)
| IsADirectoryError   (* reading or writing a directory as a file *)
| ParserError         (* read_csv on malformed text *)
| ValueError          (* to_datetime on a malformed month *)
| IndexError          (* iloc: single positional indexer is out-of-bounds *)
| BrokenPipeError     (* print: the standard output is closed *)
| UnicodeEncodeError  (* print: a character the stream cannot encode *)
| OverflowError.      (* round on an infinite float, float() of a huge int *)

Inductive result (A : Type) : Type :=
| Ok (a : A)
| Raise (e : exn).

Arguments Ok {A} a.
Arguments Raise {A} e.

Definition bind {A B : Type} (m : result A) (k : A -> result B) : result B :=
  match m with
  | Ok a => k a
  | Raise e => Raise e
  end.

Declare Scope result_scope.
Delimit Scope result_scope with result.
Notation "x <- m ;; k" := (bind m (fun x => k))
  (at level 61, m at next level, right associativity) : result_scope.

(** ** Commands

    A command runs on a state, changes it, and returns a value or raises.
    When a command raises, the rest of the sequence is skipped and the state
    stays as the failing command left it. *)

Definition st (S A : Type) : Type := S -> S * result A.

Definition st_ret {S A} (a : A) : st S A := fun s => (s, Ok a).

Definition st_bind {S A B} (m : st S A) (k : A -> st S B) : st S B :=
  fun s =>
    let r := m s in
    match snd r with
    | Ok a => k a (fst r)
    | Raise e => (fst r, Raise e)
    end.

Definition lift {S A} (r : result A) : st S A := fun s => (s, r).

Declare Scope st_scope.
Delimit Scope st_scope with st.
Notation "x <-- m ;; k" := (st_bind m (fun x => k))
  (at level 61, m at next level, right associativity) : st_scope.

(** [for x in xs: body], with the loop's accumulated value passed along. *)
Fixpoint for_each {S X A} (xs : list X) (body : X -> A -> st S A) (acc : A) : st S A :=
  match xs with
  | [] => st_ret acc
  | x :: xs' => st_bind (body x acc) (for_each xs' body)
  end.

(** The loop rule: an invariant [I], indexed by the items already visited,
    that every iteration re-establishes without raising holds at the end,
    and the loop does not raise. *)
Lemma for_each_invariant {S X A} (I : list X -> A -> Prop)
    (body : X -> A -> st S A) (xs : list X) :
  (forall visited x acc s, In x xs -> I visited acc ->
     exists acc', snd (body x acc s) = Ok acc' /\ I (visited ++ [x]) acc') ->
  forall acc s, I [] acc ->
    exists acc', snd (for_each xs body acc s) = Ok acc' /\ I xs acc'.
Proof.
  intros Step.
  assert (G : forall rest visited acc s,
             (forall x, In x rest -> In x xs) -> I visited acc ->
             exists acc', snd (for_each rest body acc s) = Ok acc'
                          /\ I (visited ++ rest) acc').
  { induction rest as [|x rest IH]; intros visited acc s Hsub Hi.
    - exists acc. rewrite app_nil_r. now split.
    - destruct (Step visited x acc s (Hsub x (or_introl eq_refl)) Hi)
        as (acc1 & E1 & Hi1).
      simpl. unfold st_bind at 1. rewrite E1.
      destruct (IH (visited ++ [x]) acc1 (fst (body x acc s))) as (acc2 & E2 & Hi2).
      + intros y Hy. apply Hsub. now right.
      + exact Hi1.
      + exists acc2. split; [exact E2|]. now rewrite <- app_assoc in Hi2. }
  intros acc s Hi. apply (G xs [] acc s); auto.
Qed.

(** ** The file system

    Paths are taken relative to the repository root (the parent of the
    directory that holds the two scripts), which exists. *)

Module FS.
Inductive node : Type :=
| File (bytes : string)
| Dir.

Definition t : Type := string -> option node.

Definition empty : t := fun _ => None.

Definition update (fs : t) (p : string) (n : node) : t :=
  fun q => if String.eqb q p then Some n else fs q.

(** [Path.exists()] *)
Definition exists_ (fs : t) (p : string) : bool :=
  match fs p with
  | Some _ => true
  | None => false
  end.

(** [Path.mkdir(parents=True, exist_ok=True)] *)
Definition mkdir (fs : t) (p : string) : result t :=
  match fs p with
  | Some Dir => Ok fs
  | Some (File _) => Raise FileExistsError
  | None => Ok (update fs p Dir)
  end.

Definition read (fs : t) (p : string) : result string :=
  match fs p with
  | Some (File bytes) => Ok bytes
  | Some Dir => Raise IsADirectoryError
  | None => Raise FileNotFoundError
  end.

(** Writing a file creates it or replaces its contents. *)
Definition write (fs : t) (p : string) (bytes : string) : result t :=
  match fs p with
  | Some Dir => Raise IsADirectoryError
  | _ => Ok (update fs p (File bytes))
  end.

Definition joinpath (dir name : string) : string := (dir ++ "/" ++ name)%string.
End FS.

(** ** Group-by

    [DataFrame.groupby(key)] with its default [sort=True]: the groups come
    out in ascending key order, and each group holds its rows in the order
    they have in the frame.  The frame is scanned once; every row is appended
    to the group of its key, a new key opening a group at its sorted
    position. *)

Section GroupBy.
Variables (K R : Type).
Variable cmp : K -> K -> comparison.
Variable key : R -> K.

Hypothesis cmp_eq : forall a b, cmp a b = Eq <-> a = b.
Hypothesis cmp_antisym : forall a b, cmp b a = CompOpp (cmp a b).
Hypothesis cmp_trans : forall a b c, cmp a b = Lt -> cmp b c = Lt -> cmp a c = Lt.

Fixpoint add_to_group (k : K) (r : R) (gs : list (K * list R)) : list (K * list R) :=
  match gs with
  | [] => [(k, [r])]
  | (k', rs) :: gs' =>
      match cmp k k' with
      | Lt => (k, [r]) :: gs
      | Eq => (k', rs ++ [r]) :: gs'
      | Gt => (k', rs) :: add_to_group k r gs'
      end
  end.

Definition groupby (df : list R) : list (K * list R) :=
  fold_left (fun gs r => add_to_group (key r) r gs) df [].

Definition has_key (k : K) (r : R) : bool :=
  match cmp (key r) k with Eq => true | _ => false end.

Definition klt (a b : K) : Prop := cmp a b = Lt.

(** What the scan has built after the rows [seen]. *)
Record grouped (seen : list R) (gs : list (K * list R)) : Prop := {
  grouped_sorted : StronglySorted klt (map fst gs);
  grouped_rows : forall k rs, In (k, rs) gs -> rs = filter (has_key k) seen /\ rs <> [];
  grouped_keys : forall r, In r seen -> In (key r) (map fst gs)
}.

Lemma has_key_true k r : has_key k r = true <-> key r = k.
Proof.
  unfold has_key. destruct (cmp (key r) k) eqn:E.
  - split; auto. intros _. now apply cmp_eq.
  - split; [discriminate|]. intros H. apply cmp_eq in H. congruence.
  - split; [discriminate|]. intros H. apply cmp_eq in H. congruence.
Qed.

Lemma has_key_false k r : has_key k r = false <-> key r <> k.
Proof.
  rewrite <- has_key_true. destruct (has_key k r); split; congruence.
Qed.

Lemma cmp_refl a : cmp a a = Eq.
Proof. now apply cmp_eq. Qed.

Lemma cmp_gt_lt a b : cmp a b = Gt -> cmp b a = Lt.
Proof. intros H. rewrite cmp_antisym, H. reflexivity. Qed.

Lemma klt_irrefl a : ~ klt a a.
Proof. unfold klt. rewrite cmp_refl. discriminate. Qed.

Lemma add_to_group_keys k r gs x :
  In x (map fst (add_to_group k r gs)) <-> x = k \/ In x (map fst gs).
Proof.
  induction gs as [|[k' rs] gs IH]; simpl.
  - intuition.
  - destruct (cmp k k') eqn:E; simpl.
    + apply cmp_eq in E. subst. intuition.
    + intuition.
    + rewrite IH. intuition.
Qed.

Lemma add_to_group_sorted k r gs :
  StronglySorted klt (map fst gs) ->
  StronglySorted klt (map fst (add_to_group k r gs)).
Proof.
  induction gs as [|[k' rs] gs IH]; simpl; intros S.
  - repeat constructor.
  - inversion S as [|? ? S' F]; subst.
    destruct (cmp k k') eqn:E; simpl.
    + constructor; assumption.
    + constructor; [assumption|]. constructor; [exact E|].
      rewrite Forall_forall in *. intros y Hy.
      eapply cmp_trans; [exact E|]. now apply F.
    + constructor; [now apply IH|].
      rewrite Forall_forall in *. intros y Hy.
      apply add_to_group_keys in Hy. destruct Hy as [->|Hy].
      * now apply cmp_gt_lt.
      * now apply F.
Qed.

Lemma filter_snoc (f : R -> bool) l x :
  filter f (l ++ [x]) = if f x then filter f l ++ [x] else filter f l.
Proof.
  rewrite filter_app. simpl. destruct (f x); [reflexivity|apply app_nil_r].
Qed.

Lemma add_to_group_In k r gs k0 rs0 :
  StronglySorted klt (map fst gs) ->
  In (k0, rs0) (add_to_group k r gs) ->
  (k0 = k /\ ((exists rs, In (k, rs) gs /\ rs0 = rs ++ [r])
              \/ (~ In k (map fst gs) /\ rs0 = [r])))
  \/ (k0 <> k /\ In (k0, rs0) gs).
Proof.
  induction gs as [|[k' rs] gs IH]; simpl; intros S H.
  - destruct H as [H|[]]. injection H as <- <-. left. split; auto.
  - inversion S as [|? ? S' F]; subst. rewrite Forall_forall in F.
    destruct (cmp k k') eqn:E.
    + apply cmp_eq in E. subst k'. destruct H as [H|H].
      * injection H as <- <-. left. split; auto. left. exists rs. auto.
      * right. split; [|auto]. intros E0. subst k0.
        apply (@klt_irrefl k). apply F.
        change k with (fst (k, rs0)). now apply in_map.
    + destruct H as [H|H].
      * injection H as <- <-. left. split; auto. right. split; auto.
        intros [H1|H1].
        -- subst k'. rewrite cmp_refl in E. discriminate.
        -- apply (@klt_irrefl k). eapply cmp_trans; [exact E|]. now apply F.
      * right. split; [|exact H]. intros E0. subst k0. destruct H as [H|H].
        -- injection H as E1 _. subst k'. rewrite cmp_refl in E. discriminate.
        -- apply (@klt_irrefl k). eapply cmp_trans; [exact E|].
           apply F. change k with (fst (k, rs0)). now apply in_map.
    + destruct H as [H|H].
      * injection H as <- <-. right. split; auto.
        intros E0. subst k'. rewrite cmp_refl in E. discriminate.
      * destruct (IH S' H) as [[E0 [[rs1 [H1 H2]]|[H1 H2]]]|[H1 H2]].
        -- left. split; auto. left. exists rs1. auto.
        -- left. split; auto. right. split; auto.
           intros [H3|H3]; [|auto]. subst k'. rewrite cmp_refl in E. discriminate.
        -- right. auto.
Qed.

Lemma grouped_step seen gs r :
  grouped seen gs -> grouped (seen ++ [r]) (add_to_group (key r) r gs).
Proof.
  intros [S Rws Ks]. split.
  - now apply add_to_group_sorted.
  - intros k rs H. rewrite filter_snoc.
    apply add_to_group_In in H; [|exact S].
    destruct H as [[E0 [[rs1 [H1 H2]]|[H1 H2]]]|[H1 H2]]; try subst k.
    + destruct (Rws _ _ H1) as [E _]. subst.
      replace (has_key (key r) r) with true
        by (symmetry; now apply has_key_true).
      split; [reflexivity|]. intros C. now apply app_eq_nil in C as [_ C].
    + replace (has_key (key r) r) with true
        by (symmetry; now apply has_key_true).
      assert (E : filter (has_key (key r)) seen = []).
      { destruct (filter (has_key (key r)) seen) as [|x l] eqn:Ef; [reflexivity|].
        assert (Hx : In x (filter (has_key (key r)) seen))
          by (rewrite Ef; now left).
        apply filter_In in Hx as [Hx1 Hx2]. apply has_key_true in Hx2.
        exfalso. apply H1. rewrite <- Hx2. now apply Ks. }
      rewrite E. subst. split; [reflexivity|discriminate].
    + replace (has_key k r) with false.
      * now apply Rws.
      * symmetry. apply has_key_false. congruence.
  - intros x Hx. apply add_to_group_keys.
    apply in_app_or in Hx as [Hx|[->|[]]]; auto.
Qed.

Lemma fold_grouped df : forall seen gs,
  grouped seen gs ->
  grouped (seen ++ df) (fold_left (fun gs r => add_to_group (key r) r gs) df gs).
Proof.
  induction df as [|r df IH]; simpl; intros seen gs G.
  - now rewrite app_nil_r.
  - replace (seen ++ r :: df) with ((seen ++ [r]) ++ df)
      by (rewrite <- app_assoc; reflexivity).
    apply IH. now apply grouped_step.
Qed.

Theorem groupby_grouped df : grouped df (groupby df).
Proof.
  apply (fold_grouped df (seen:=[]) (gs:=[])).
  split; simpl; [constructor|intros ? ? []|intros ? []].
Qed.

Lemma groupby_key_iff df k :
  In k (map fst (groupby df)) <-> In k (map key df).
Proof.
  destruct (groupby_grouped df) as [_ Rws Ks]. split.
  - intros H. apply in_map_iff in H as [[k' rs] [E H]]. simpl in E. subst k'.
    destruct (Rws _ _ H) as [E Hne]. destruct rs as [|x rs]; [congruence|].
    assert (Hx : In x (filter (has_key k) df)) by (rewrite <- E; now left).
    apply filter_In in Hx as [Hx1 Hx2]. apply has_key_true in Hx2.
    subst k. now apply in_map.
  - intros H. apply in_map_iff in H as [r [E H]]. subst. now apply Ks.
Qed.

Lemma klt_sorted_NoDup l : StronglySorted klt l -> NoDup l.
Proof.
  induction 1 as [|a l S IH F]; constructor; auto.
  intros H. rewrite Forall_forall in F. apply (klt_irrefl (F _ H)).
Qed.

End GroupBy.


(** ** Sorting a frame by one column

    [DataFrame.sort_values(by, ascending)] goes through pandas' [nargsort]:
    the rows whose key is NaN are set aside and appended last; the keys of
    the others are arg-sorted ascending by numpy, and for [ascending=False]
    they are reversed before and after that sort.

    The program leaves [kind] at its default, ['quicksort'], which is not a
    stable sort: in which order numpy returns equal keys depends on its
    version and on the machine.  numpy's [argsort] is therefore a parameter
    of which only the contract is used: it returns a permutation of the
    positions, and that permutation puts the keys in ascending order.  On
    the same keys it returns the same positions. *)

Record Argsort (K : Type) (leb : K -> K -> bool) (isna : K -> bool) : Type := {
  positions :> list K -> list nat;
  positions_perm : forall ks,
    Permutation (positions ks) (seq 0 (List.length ks));
  positions_sorted : forall ks,
    Forall (fun k => isna k = false) ks ->
    StronglySorted
      (fun i j => exists a b, nth_error ks i = Some a /\ nth_error ks j = Some b
                              /\ leb a b = true)
      (positions ks)
}.

Section Take.
Variable A : Type.

(** [frame.take(indexer)]: the rows at the given positions, in the order of
    the indexer.  (A position outside the frame does not occur: an indexer
    is a permutation of the frame's positions.) *)
Definition take (l : list A) (indexer : list nat) : list A :=
  flat_map (fun i => match nth_error l i with
                     | Some x => [x]
                     | None => []
                     end) indexer.

Lemma take_seq_from (l : list A) : forall pre,
  take (pre ++ l) (seq (List.length pre) (List.length l)) = l.
Proof.
  induction l as [|x l IH]; intros pre; [reflexivity|].
  simpl. rewrite nth_error_app2 by lia. rewrite Nat.sub_diag. simpl.
  f_equal. specialize (IH (pre ++ [x])).
  rewrite <- app_assoc, length_app in IH. simpl in IH.
  rewrite Nat.add_1_r in IH. exact IH.
Qed.

Lemma take_seq (l : list A) : take l (seq 0 (List.length l)) = l.
Proof. exact (take_seq_from l []). Qed.

Lemma take_perm (l : list A) idx :
  Permutation idx (seq 0 (List.length l)) -> Permutation (take l idx) l.
Proof.
  intros P. rewrite <- (take_seq l) at 2. unfold take.
  now apply Permutation_flat_map.
Qed.

Lemma in_take (l : list A) idx x :
  In x (take l idx) -> exists i, In i idx /\ nth_error l i = Some x.
Proof.
  unfold take. rewrite in_flat_map. intros (i & Hi & Hx). exists i.
  split; [exact Hi|].
  destruct (nth_error l i); [|destruct Hx].
  destruct Hx as [<-|[]]. reflexivity.
Qed.
End Take.

Lemma StronglySorted_snoc {A} (R : A -> A -> Prop) t x :
  StronglySorted R t -> Forall (fun y => R y x) t -> StronglySorted R (t ++ [x]).
Proof.
  induction 1 as [|y t S IH F]; simpl; intros H.
  - repeat constructor.
  - inversion H as [|? ? Hy H']; subst. constructor.
    + now apply IH.
    + apply Forall_app. split; [exact F|]. now repeat constructor.
Qed.

Lemma StronglySorted_rev {A} (R : A -> A -> Prop) l :
  StronglySorted R l -> StronglySorted (fun a b => R b a) (rev l).
Proof.
  induction 1 as [|x l S IH F]; simpl; [constructor|].
  apply StronglySorted_snoc; [exact IH|]. now apply Forall_rev.
Qed.

(** A frame in non-strict order that is a rearrangement of a frame in strict
    order is that frame. *)
Lemma sorted_perm_eq {A} (le lt : A -> A -> Prop) (l : list A) : forall s,
  (forall a b, lt a b -> ~ le b a) ->
  (forall a, In a l -> le a a) ->
  Permutation s l -> StronglySorted le s -> StronglySorted lt l -> s = l.
Proof.
  induction l as [|x l IH]; intros s Hlt Hrefl P Ss Sl.
  - now apply Permutation_nil.
  - destruct s as [|y s].
    { apply Permutation_nil in P. discriminate. }
    inversion Ss as [|? ? Ss' Fs]; subst.
    inversion Sl as [|? ? Sl' Fl]; subst.
    rewrite Forall_forall in Fs, Fl.
    assert (y = x) as ->.
    { assert (Hy : In y (x :: l)) by (apply (Permutation_in _ P); now left).
      destruct Hy as [<-|Hy]; [reflexivity|].
      assert (Hx : In x (y :: s))
        by (apply (Permutation_in _ (Permutation_sym P)); now left).
      exfalso. destruct Hx as [->|Hx].
      - apply (Hlt _ _ (Fl _ Hy)). apply Hrefl. now left.
      - apply (Hlt _ _ (Fl _ Hy)). now apply Fs. }
    f_equal. apply IH; auto.
    + intros a Ha. apply Hrefl. now right.
    + now apply Permutation_cons_inv in P.
Qed.

Section SortValues.
Variables (A K : Type).
Variable key : A -> K.
Variable isna : K -> bool.
Variable leb : K -> K -> bool.
Variable np_argsort : Argsort leb isna.

(** The rows in the order of [key.argsort()]. *)
Definition argsort (l : list A) : list A := take l (np_argsort (map key l)).

Definition notna (r : A) : bool := negb (isna (key r)).

Definition sort_values (ascending : bool) (l : list A) : list A :=
  let non_nans := filter notna l in
  let nans := filter (fun r => isna (key r)) l in
  (if ascending then argsort non_nans else rev (argsort (rev non_nans))) ++ nans.

Definition kle (a b : A) : Prop := leb (key a) (key b) = true.

Lemma argsort_perm l : Permutation (argsort l) l.
Proof.
  apply take_perm. rewrite <- (length_map key). apply positions_perm.
Qed.

Lemma filter_partition_perm (f : A -> bool) l :
  Permutation (filter f l ++ filter (fun r => negb (f r)) l) l.
Proof.
  induction l as [|x l IH]; simpl; [reflexivity|].
  destruct (f x); simpl.
  - now constructor.
  - rewrite <- Permutation_middle. now constructor.
Qed.

Lemma sort_values_perm asc l : Permutation (sort_values asc l) l.
Proof.
  unfold sort_values.
  eapply Permutation_trans; [|apply (filter_partition_perm notna l)].
  apply Permutation_app.
  - destruct asc.
    + apply argsort_perm.
    + eapply Permutation_trans; [symmetry; apply Permutation_rev|].
      eapply Permutation_trans; [apply argsort_perm|].
      symmetry. apply Permutation_rev.
  - erewrite filter_ext; [reflexivity|].
    intros r. unfold notna. now rewrite negb_involutive.
Qed.

(** A frame without NaN keys: the sort is the arg-sort itself. *)
Lemma filter_all (f : A -> bool) l :
  Forall (fun r => f r = true) l -> filter f l = l.
Proof.
  induction 1 as [|x l H F IH]; simpl; [reflexivity|].
  now rewrite H, IH.
Qed.

Lemma filter_none (f : A -> bool) l :
  Forall (fun r => f r = false) l -> filter f l = [].
Proof.
  induction 1 as [|x l H F IH]; simpl; [reflexivity|].
  now rewrite H.
Qed.

Lemma sort_values_notna asc l :
  Forall (fun r => isna (key r) = false) l ->
  sort_values asc l = if asc then argsort l else rev (argsort (rev l)).
Proof.
  intros H. unfold sort_values.
  rewrite (filter_none _ H), app_nil_r, filter_all; [reflexivity|].
  eapply Forall_impl; [|exact H]. intros r Hr. unfold notna. now rewrite Hr.
Qed.

Let ok (r : A) : Prop := isna (key r) = false.

(** What numpy's contract gives: the rows come out in ascending key order. *)
Lemma argsort_StronglySorted l : Forall ok l -> StronglySorted kle (argsort l).
Proof.
  intros Hok.
  assert (Hks : Forall (fun k => isna k = false) (map key l))
    by (rewrite Forall_map; exact Hok).
  pose proof (positions_sorted np_argsort Hks) as S.
  unfold argsort. induction S as [|i idx S IH F]; simpl; [constructor|].
  destruct (nth_error l i) as [x|] eqn:Ex; simpl; [|exact IH].
  constructor; [exact IH|].
  rewrite Forall_forall in *. intros y Hy.
  apply in_take in Hy as (j & Hj & Ey).
  destruct (F j Hj) as (a & b & Ea & Eb & Hab).
  rewrite nth_error_map, Ex in Ea. rewrite nth_error_map, Ey in Eb.
  simpl in Ea, Eb. injection Ea as <-. injection Eb as <-. exact Hab.
Qed.

Lemma argsort_desc_sorted l :
  Forall ok l -> StronglySorted (fun a b => kle b a) (rev (argsort (rev l))).
Proof.
  intros H. apply StronglySorted_rev, argsort_StronglySorted.
  now apply Forall_rev.
Qed.

Lemma sort_values_sorted (asc : bool) l :
  Forall ok l ->
  StronglySorted (fun a b => if asc then kle a b else kle b a) (sort_values asc l).
Proof.
  intros H. rewrite (sort_values_notna _ H). destruct asc.
  - now apply argsort_StronglySorted.
  - now apply argsort_desc_sorted.
Qed.

Section Ordered.
(** The comparison is reflexive on the keys that are not NaN. *)
Hypothesis leb_refl : forall a, isna a = false -> leb a a = true.

(** Whichever way numpy breaks ties, the first row of an ascending sort has
    the least key of the frame, the first row of a descending sort the
    greatest. *)
Lemma sort_values_head (asc : bool) l m rest :
  Forall ok l -> sort_values asc l = m :: rest ->
  In m l /\ forall r, In r l -> if asc then kle m r else kle r m.
Proof.
  intros Hok E. pose proof (sort_values_sorted asc Hok) as S.
  pose proof (sort_values_perm asc l) as P. rewrite E in S, P.
  split; [apply (Permutation_in _ P); now left|].
  intros r Hr. apply (Permutation_in _ (Permutation_sym P)) in Hr.
  inversion S as [|? ? _ F]; subst. rewrite Forall_forall in F.
  assert (Hm : kle m m).
  { apply leb_refl. rewrite Forall_forall in Hok. apply Hok.
    apply (Permutation_in _ P). now left. }
  destruct Hr as [<-|Hr].
  - now destruct asc.
  - now apply F.
Qed.

(** Sorting a frame whose keys are already in strictly ascending order
    returns it unchanged, whatever the sorting algorithm. *)
Lemma sort_values_ascending l :
  Forall ok l -> StronglySorted (fun a b => kle a b /\ ~ kle b a) l ->
  sort_values true l = l.
Proof.
  intros Hok S.
  apply (@sorted_perm_eq _ kle (fun a b => kle a b /\ ~ kle b a)).
  - intros a b [_ H]. exact H.
  - intros a Ha. apply leb_refl. rewrite Forall_forall in Hok. now apply Hok.
  - apply sort_values_perm.
  - exact (sort_values_sorted true Hok).
  - exact S.
Qed.

End Ordered.
End SortValues.

(** *** Two sorting algorithms

    Two functions that meet numpy's contract and differ only on equal keys:
    an insertion sort, which keeps equal keys in the order of the array (a
    stable sort), and the same sort run on the array read backwards, which
    returns equal keys in the opposite order. *)

Section InsertionSort.
Variable K : Type.
Variable leb : K -> K -> bool.
Variable isna : K -> bool.

Hypothesis leb_total : forall a b,
  isna a = false -> isna b = false -> leb a b = true \/ leb b a = true.
Hypothesis leb_trans : forall a b c,
  isna a = false -> isna b = false -> isna c = false ->
  leb a b = true -> leb b c = true -> leb a c = true.

Fixpoint insert (x : nat * K) (s : list (nat * K)) : list (nat * K) :=
  match s with
  | [] => [x]
  | y :: s' => if leb (snd x) (snd y) then x :: s else y :: insert x s'
  end.

Definition insertion_sort (l : list (nat * K)) : list (nat * K) :=
  fold_right insert [] l.

(** The array with its positions. *)
Definition enumerated (ks : list K) : list (nat * K) :=
  combine (seq 0 (List.length ks)) ks.

Definition stable_positions (ks : list K) : list nat :=
  map fst (insertion_sort (enumerated ks)).

Definition backward_positions (ks : list K) : list nat :=
  map fst (insertion_sort (rev (enumerated ks))).

Lemma insert_perm x s : Permutation (insert x s) (x :: s).
Proof.
  induction s as [|y s IH]; simpl; [reflexivity|].
  destruct (leb (snd x) (snd y)); [reflexivity|].
  rewrite IH. apply perm_swap.
Qed.

Lemma insertion_sort_perm l : Permutation (insertion_sort l) l.
Proof.
  induction l as [|x l IH]; simpl; [reflexivity|].
  rewrite insert_perm. now constructor.
Qed.

Let ok (p : nat * K) : Prop := isna (snd p) = false.
Let ple (p q : nat * K) : Prop := leb (snd p) (snd q) = true.

Lemma insert_sorted x s :
  ok x -> Forall ok s -> StronglySorted ple s -> StronglySorted ple (insert x s).
Proof.
  intros Hx Hs S. induction S as [|y s S IH F]; simpl.
  - repeat constructor.
  - inversion Hs as [|? ? Hy Hs']; subst.
    destruct (leb (snd x) (snd y)) eqn:E.
    + constructor; [now constructor|]. constructor; [exact E|].
      rewrite Forall_forall in *. intros z Hz.
      unfold ple. eapply (leb_trans Hx Hy); [now apply Hs'|exact E|now apply F].
    + constructor; [now apply IH|].
      rewrite Forall_forall in *. intros z Hz.
      apply (Permutation_in _ (insert_perm x s)) in Hz. destruct Hz as [<-|Hz].
      * destruct (leb_total Hx Hy) as [C|C]; [congruence|exact C].
      * now apply F.
Qed.

Lemma insertion_sort_sorted l :
  Forall ok l -> StronglySorted ple (insertion_sort l).
Proof.
  induction 1 as [|x l Hx Hl IH]; simpl; [constructor|].
  apply insert_sorted; auto.
  rewrite Forall_forall in *. intros y Hy. apply Hl.
  now apply (Permutation_in _ (insertion_sort_perm l)).
Qed.

Lemma enumerated_positions ks : map fst (enumerated ks) = seq 0 (List.length ks).
Proof.
  unfold enumerated. generalize 0%nat.
  induction ks as [|k ks IH]; intros n; simpl; [reflexivity|].
  now rewrite IH.
Qed.

Lemma enumerated_In ks i k : In (i, k) (enumerated ks) -> nth_error ks i = Some k.
Proof.
  unfold enumerated.
  assert (G : forall n, In (i, k) (combine (seq n (List.length ks)) ks) ->
                        (n <= i)%nat /\ nth_error ks (i - n) = Some k).
  { induction ks as [|k0 ks IH]; intros n H; simpl in H; [destruct H|].
    destruct H as [H|H].
    - injection H as <- <-. rewrite Nat.sub_diag. split; [lia|reflexivity].
    - destruct (IH _ H) as [Hle E]. split; [lia|].
      replace (i - n)%nat with (S (i - S n)) by lia. exact E. }
  intros H. destruct (G 0%nat H) as [_ E]. now rewrite Nat.sub_0_r in E.
Qed.

Lemma enumerated_ok ks :
  Forall (fun k => isna k = false) ks -> Forall ok (enumerated ks).
Proof.
  intros H. rewrite Forall_forall in *. intros [i k] Hp.
  apply enumerated_In in Hp. apply nth_error_In in Hp. now apply H.
Qed.

(** Sorting any rearrangement of the enumerated array yields positions that
    meet numpy's contract. *)
Lemma sorted_positions_perm ks l :
  Permutation l (enumerated ks) ->
  Permutation (map fst (insertion_sort l)) (seq 0 (List.length ks)).
Proof.
  intros P. rewrite <- enumerated_positions. apply Permutation_map.
  eapply Permutation_trans; [apply insertion_sort_perm|exact P].
Qed.

Lemma sorted_positions_sorted ks l :
  Permutation l (enumerated ks) ->
  Forall (fun k => isna k = false) ks ->
  StronglySorted
    (fun i j => exists a b, nth_error ks i = Some a /\ nth_error ks j = Some b
                            /\ leb a b = true)
    (map fst (insertion_sort l)).
Proof.
  intros P Hok.
  assert (Hl : Forall ok l).
  { rewrite Forall_forall. intros p Hp.
    pose proof (enumerated_ok Hok) as H. rewrite Forall_forall in H.
    apply H. now apply (Permutation_in _ P). }
  pose proof (insertion_sort_sorted Hl) as S.
  assert (Hin : forall p, In p (insertion_sort l) -> nth_error ks (fst p) = Some (snd p)).
  { intros [i k] Hp. apply enumerated_In. apply (Permutation_in _ P).
    now apply (Permutation_in _ (insertion_sort_perm l)). }
  induction S as [|p s S IH F]; simpl; [constructor|].
  constructor.
  - apply IH. intros q Hq. apply Hin. now right.
  - rewrite Forall_forall in *. intros j Hj.
    apply in_map_iff in Hj as (q & <- & Hq).
    exists (snd p), (snd q). split; [apply Hin; now left|].
    split; [apply Hin; now right|]. now apply F.
Qed.

Definition stable : Argsort leb isna :=
  {| positions := stable_positions;
     positions_perm := fun ks =>
       @sorted_positions_perm ks _ (Permutation_refl (enumerated ks));
     positions_sorted := fun ks =>
       @sorted_positions_sorted ks _ (Permutation_refl (enumerated ks)) |}.

Definition backward : Argsort leb isna :=
  {| positions := backward_positions;
     positions_perm := fun ks =>
       @sorted_positions_perm ks _
         (Permutation_sym (Permutation_rev (enumerated ks)));
     positions_sorted := fun ks =>
       @sorted_positions_sorted ks _
         (Permutation_sym (Permutation_rev (enumerated ks))) |}.

End InsertionSort.
(** ** int64 columns

    pandas reads the count columns as int64; a group's sum is accumulated in
    int64 and wraps around silently. *)

Module Int64.
Open Scope Z_scope.

Definition min_int : Z := - 2 ^ 63.
Definition max_int : Z := 2 ^ 63 - 1.

Definition in_range (z : Z) : Prop := min_int <= z <= max_int.

Definition wrap (z : Z) : Z := (z + 2 ^ 63) mod 2 ^ 64 - 2 ^ 63.

(** [Series.sum] on an int64 column. *)
Definition sum (l : list Z) : Z := fold_left (fun acc x => wrap (acc + x)) l 0.

(** The mathematical sum, for stating what [sum] computes. *)
Definition total (l : list Z) : Z := fold_right Z.add 0 l.

Example sum_wraps : sum [max_int; 1] = min_int.
Proof. reflexivity. Qed.

Lemma wrap_in_range z : in_range z -> wrap z = z.
Proof.
  unfold in_range, min_int, max_int, wrap. intros H.
  rewrite Z.mod_small; lia.
Qed.

Lemma wrap_add_l a x : wrap (wrap a + x) = wrap (a + x).
Proof.
  unfold wrap.
  replace ((a + 2 ^ 63) mod 2 ^ 64 - 2 ^ 63 + x + 2 ^ 63)
    with ((a + 2 ^ 63) mod 2 ^ 64 + x) by lia.
  rewrite Zplus_mod_idemp_l. f_equal. f_equal. lia.
Qed.

Lemma fold_wrap l : forall a,
  fold_left (fun acc x => wrap (acc + x)) l (wrap a) = wrap (a + total l).
Proof.
  induction l as [|x l IH]; simpl; intros a.
  - f_equal. lia.
  - rewrite wrap_add_l, IH. f_equal. lia.
Qed.

Lemma sum_wrap l : sum l = wrap (total l).
Proof.
  unfold sum. change 0 with (wrap 0) at 1. now rewrite fold_wrap.
Qed.

Lemma sum_exact l : in_range (total l) -> sum l = total l.
Proof. intros H. rewrite sum_wrap. now apply wrap_in_range. Qed.

Lemma total_app l1 l2 : total (l1 ++ l2) = total l1 + total l2.
Proof. induction l1; simpl; lia. Qed.

Lemma total_nonneg l : Forall (fun x => 0 <= x) l -> 0 <= total l.
Proof. induction 1; simpl; lia. Qed.

(** A selection of rows of a non-negative column sums to at most the
    column's total. *)
Lemma total_filter_le {A} (f : A -> Z) (p : A -> bool) l :
  Forall (fun r => 0 <= f r) l ->
  0 <= total (map f (filter p l)) <= total (map f l).
Proof.
  induction 1 as [|x l H F IH]; simpl; [lia|].
  destruct (p x); simpl; lia.
Qed.
End Int64.

(** ** float64 columns *)

Module F64.
Open Scope float_scope.

(** int64 to float64, rounding to nearest even as numpy's cast does. *)
Definition of_int64 (z : Z) : float :=
  if (z =? - 2 ^ 63)%Z then -9223372036854775808
  else if (z <? 0)%Z then - of_uint63 (Uint63.of_Z (- z))
  else of_uint63 (Uint63.of_Z z).

(** [SeriesGroupBy.mean] on a float64 column, as pandas' [group_mean]
    computes it: the values that are not NaN are added in row order with
    Kahan's compensated summation (a compensation that comes out NaN, as it
    does after an infinite value, is reset to zero), and the sum is divided
    by the number of those values; a group without any has mean NaN. *)
Record kahan : Type := {
  sumx : float;
  compensation : float;
  nobs : Z
}.

Definition kahan_add (acc : kahan) (val : float) : kahan :=
  if is_nan val then acc
  else
    let y := val - compensation acc in
    let t := sumx acc + y in
    let c := t - sumx acc - y in
    {| sumx := t;
       compensation := if is_nan c then 0 else c;
       nobs := (nobs acc + 1)%Z |}.

Definition mean (l : list float) : float :=
  let acc := fold_left kahan_add l {| sumx := 0; compensation := 0; nobs := 0 |} in
  if (nobs acc =? 0)%Z then nan else sumx acc / of_int64 (nobs acc).

Fixpoint zip_with {A B C} (f : A -> B -> C) (l1 : list A) (l2 : list B) : list C :=
  match l1, l2 with
  | x :: l1', y :: l2' => f x y :: zip_with f l1' l2'
  | _, _ => []
  end.

(** [Series.shift(1)]: every value moves one row down, NaN enters first. *)
Definition shift (xs : list float) : list float :=
  firstn (length xs) (nan :: xs).

(** [Series.pct_change()]: pandas evaluates [data / data.shift(1) - 1]. *)
Definition pct_change (xs : list float) : list float :=
  zip_with (fun x p => x / p - 1) xs (shift xs).

(** [Series.diff()]: [data - data.shift(1)]. *)
Definition diff (xs : list float) : list float :=
  zip_with (fun x p => x - p) xs (shift xs).

Example of_int64_rounds :
  of_int64 (-5) = (-5)%float /\ of_int64 (2 ^ 53 + 1) = 9007199254740992%float
  /\ of_int64 (- 2 ^ 63) = (-9223372036854775808)%float.
Proof. repeat split. Qed.

(** The compensation shows in the last bit: adding 0.1, 0.2 and 0.3 from
    left to right gives 0.6000000000000001 and a mean of 0.20000000000000004;
    pandas' mean is 0.19999999999999998.  NaN values are skipped. *)
Example mean_examples :
  mean [0x1.999999999999ap-4; 0x1.999999999999ap-3; 0x1.3333333333333p-2]
  = 0x1.9999999999999p-3
  /\ (0x1.999999999999ap-4 + 0x1.999999999999ap-3 + 0x1.3333333333333p-2) / 3
     = 0x1.999999999999bp-3
  /\ mean [2; 3] = 2.5 /\ mean [nan; 4] = 4 /\ mean [infinity; 1] = infinity
  /\ mean [] = nan /\ mean [nan] = nan.
Proof. repeat split. Qed.

Example pct_change_example :
  pct_change [100; 110; 0; 0]%float = [nan; 0x1.99999999999a0p-4; -1; nan]%float.
Proof. reflexivity. Qed.

Definition is_inf_or_nan (x : float) : Prop :=
  x = infinity \/ x = neg_infinity \/ x = nan.

Ltac cmp_cases :=
  repeat match goal with
  | |- context [Z.compare ?a ?b] => destruct (Z.compare_spec a b)
  | |- context [Pos.compare_cont Eq ?a ?b] =>
      change (Pos.compare_cont Eq a b) with (Pos.compare a b);
      destruct (Pos.compare_spec a b)
  end.

Lemma SFleb_trans f1 f2 f3 :
  SFleb f1 f2 = true -> SFleb f2 f3 = true -> SFleb f1 f3 = true.
Proof.
  unfold SFleb, SFcompare.
  destruct f1 as [s1|s1| |s1 m1 e1], f2 as [s2|s2| |s2 m2 e2],
    f3 as [s3|s3| |s3 m3 e3];
    try destruct s1; try destruct s2; try destruct s3;
    simpl; try reflexivity; try discriminate;
    cmp_cases; simpl; try reflexivity; try discriminate; try lia.
Qed.

Lemma SFleb_total f1 f2 :
  f1 <> S754_nan -> f2 <> S754_nan -> SFleb f1 f2 = true \/ SFleb f2 f1 = true.
Proof.
  unfold SFleb, SFcompare.
  destruct f1 as [s1|s1| |s1 m1 e1], f2 as [s2|s2| |s2 m2 e2];
    try destruct s1; try destruct s2; simpl; intros H1 H2;
    try congruence; auto;
    cmp_cases; simpl; auto; try lia.
Qed.

Lemma is_nan_spec x : is_nan x = true <-> Prim2SF x = S754_nan.
Proof.
  unfold is_nan. rewrite FloatAxioms.eqb_spec. unfold SFeqb, SFcompare.
  destruct (Prim2SF x) as [s|s| |s m e]; try destruct s; simpl;
    rewrite ?Z.compare_refl;
    try change (Pos.compare_cont Eq m m) with (Pos.compare m m);
    rewrite ?Pos.compare_refl; simpl; split; congruence.
Qed.

Lemma is_nan_eq x : is_nan x = true <-> x = nan.
Proof.
  rewrite is_nan_spec. split.
  - intros H. apply Prim2SF_inj. rewrite H. reflexivity.
  - intros ->. reflexivity.
Qed.

Lemma notnan_spec x : is_nan x = false -> Prim2SF x <> S754_nan.
Proof. intros H C. apply is_nan_spec in C. congruence. Qed.

Lemma leb_trans a b c :
  (a <=? b) = true -> (b <=? c) = true -> (a <=? c) = true.
Proof. rewrite !FloatAxioms.leb_spec. apply SFleb_trans. Qed.

Lemma leb_total a b :
  is_nan a = false -> is_nan b = false -> (a <=? b) = true \/ (b <=? a) = true.
Proof.
  intros Ha Hb. rewrite !FloatAxioms.leb_spec.
  apply SFleb_total; now apply notnan_spec.
Qed.

Lemma ltb_negb_leb a b :
  is_nan a = false -> is_nan b = false -> (a <? b) = negb (b <=? a).
Proof.
  intros Ha Hb. apply notnan_spec in Ha, Hb. rewrite FloatAxioms.ltb_spec, FloatAxioms.leb_spec.
  unfold SFltb, SFleb, SFcompare.
  destruct (Prim2SF a) as [s1|s1| |s1 m1 e1], (Prim2SF b) as [s2|s2| |s2 m2 e2];
    try destruct s1; try destruct s2; simpl; try congruence;
    cmp_cases; simpl; try reflexivity; try lia.
Qed.

Lemma div_nan x : x / nan = nan.
Proof.
  apply Prim2SF_inj. rewrite FloatAxioms.div_spec.
  change (Prim2SF nan) with S754_nan.
  unfold SF64div, SFdiv. now destruct (Prim2SF x).
Qed.

Lemma sub_nan x : x - nan = nan.
Proof.
  apply Prim2SF_inj. rewrite FloatAxioms.sub_spec.
  change (Prim2SF nan) with S754_nan.
  unfold SF64sub, SFsub. destruct (Prim2SF x); reflexivity.
Qed.

Lemma pct_nan x : (x / nan - 1) * 100 = nan.
Proof. rewrite div_nan. reflexivity. Qed.

(** A zero prior period: the quotient is an infinity or NaN, and so is the
    percentage derived from it. *)
Lemma pct_zero x : is_inf_or_nan ((x / 0 - 1) * 100).
Proof.
  assert (H : Prim2SF (x / 0) = S754_infinity false \/
              Prim2SF (x / 0) = S754_infinity true \/
              Prim2SF (x / 0) = S754_nan).
  { rewrite FloatAxioms.div_spec. change (Prim2SF 0) with (S754_zero false).
    unfold SF64div, SFdiv. destruct (Prim2SF x) as [s|s| |s m e];
      try destruct s; simpl; auto. }
  unfold is_inf_or_nan.
  destruct H as [H|[H|H]].
  - left. replace (x / 0) with infinity by (apply Prim2SF_inj; now rewrite H).
    reflexivity.
  - right. left.
    replace (x / 0) with neg_infinity by (apply Prim2SF_inj; now rewrite H).
    reflexivity.
  - right. right. replace (x / 0) with nan by (apply Prim2SF_inj; now rewrite H).
    reflexivity.
Qed.

(** The shifted column, row by row. *)
Fixpoint with_prev {C} (f : float -> float -> C) (prev : float) (xs : list float) : list C :=
  match xs with
  | [] => []
  | x :: xs' => f x prev :: with_prev f x xs'
  end.

Lemma zip_shift_from {C} (f : float -> float -> C) xs : forall p,
  zip_with f xs (firstn (length xs) (p :: xs)) = with_prev f p xs.
Proof.
  induction xs as [|x xs IH]; intros p; [reflexivity|].
  simpl. f_equal. apply IH.
Qed.

Lemma pct_change_with_prev xs :
  pct_change xs = with_prev (fun x p => x / p - 1) nan xs.
Proof. apply zip_shift_from. Qed.

Lemma diff_with_prev xs : diff xs = with_prev (fun x p => x - p) nan xs.
Proof. apply zip_shift_from. Qed.

(** *** The mean of a single value *)

Lemma leb_not_nan a b : (a <=? b) = true -> is_nan a = false /\ is_nan b = false.
Proof.
  rewrite FloatAxioms.leb_spec. intros H.
  split; destruct (is_nan _) eqn:E; try reflexivity;
    apply is_nan_spec in E; rewrite E in H; unfold SFleb, SFcompare in H;
    destruct (Prim2SF _); discriminate.
Qed.

(** Dividing by one returns the dividend: the quotient of the mantissas is
    exact, and rounding it gives the mantissa back. *)
Lemma round_exact s m e :
  Z.max (Z.pos (digits2_pos m) + e - 53) (-1074) = e -> (e <= 971)%Z ->
  binary_round_aux prec emax s (Z.pos m) e loc_Exact = S754_finite s m e.
Proof.
  intros Hc He.
  unfold binary_round_aux, shr_fexp, fexp, FloatOps.prec, FloatOps.emax.
  change (SpecFloat.emin 53 1024) with (-1074)%Z.
  cbn [Zdigits2]. rewrite Hc, Z.sub_diag.
  cbn [shr shr_record_of_loc loc_of_shr_record round_nearest_even shr_m].
  cbn [Zdigits2]. rewrite Hc, Z.sub_diag. cbn [shr shr_m].
  replace (e <=? 1024 - 53)%Z with true by (symmetry; apply Z.leb_le; lia).
  reflexivity.
Qed.

Lemma round_even s m e :
  Z.max (Z.pos (digits2_pos m) + e - 53) (-1074) = e -> (e <= 971)%Z ->
  binary_round_aux prec emax s (Z.pos m~0) (e - 1) loc_Exact = S754_finite s m e.
Proof.
  intros Hc He.
  unfold binary_round_aux, shr_fexp, fexp, FloatOps.prec, FloatOps.emax.
  change (SpecFloat.emin 53 1024) with (-1074)%Z.
  cbn [Zdigits2 digits2_pos]. rewrite Pos2Z.inj_succ.
  replace (Z.max (Z.succ (Z.pos (digits2_pos m)) + (e - 1) - 53) (-1074) - (e - 1))%Z
    with 1%Z by lia.
  cbn [shr SpecFloat.iter_pos shr_1 orb shr_record_of_loc loc_of_shr_record round_nearest_even shr_m].
  cbn [Zdigits2].
  replace (Z.max (Z.pos (digits2_pos m) + (e - 1 + 1) - 53) (-1074) - (e - 1 + 1))%Z
    with 0%Z by lia.
  cbn [shr shr_m].
  replace (e - 1 + 1 <=? 1024 - 53)%Z with true by (symmetry; apply Z.leb_le; lia).
  f_equal. lia.
Qed.

Lemma SFdiv_one s m e :
  bounded prec emax m e = true ->
  SF64div (S754_finite s m e) (S754_finite false 4503599627370496 (-52))
  = S754_finite s m e.
Proof.
  unfold bounded, canonical_mantissa, fexp, FloatOps.prec, FloatOps.emax.
  intros H. apply andb_prop in H as [Hc He].
  apply Z.eqb_eq in Hc. apply Z.leb_le in He.
  change (SpecFloat.emin 53 1024) with (-1074)%Z in Hc.
  assert (Hd : (0 < Z.pos (digits2_pos m))%Z) by lia.
  unfold SF64div, SFdiv, SFdiv_core_binary, fexp, FloatOps.prec, FloatOps.emax.
  change (SpecFloat.emin 53 1024) with (-1074)%Z.
  change (Zdigits2 (Z.pos 4503599627370496)) with 53%Z.
  cbn [Zdigits2]. rewrite xorb_false_r.
  destruct (Z.eq_dec e (-1074)) as [->|Hne].
  - replace (Z.min (Z.max (Z.pos (digits2_pos m) + -1074 - (53 + -52) - 53) (-1074))
               (-1074 - -52)) with (-1074)%Z by lia.
    replace (-1074 - -52 - -1074)%Z with 52%Z by lia.
    rewrite Z.shiftl_mul_pow2 by lia.
    pose proof (Z_div_mod (Z.pos m * 2 ^ 52) (Z.pos 4503599627370496) eq_refl) as Hdm.
    destruct (Z.div_eucl (Z.pos m * 2 ^ 52) (Z.pos 4503599627370496)) as [q r].
    change (2 ^ 52)%Z with 4503599627370496%Z in Hdm.
    assert (q = Z.pos m /\ r = 0%Z) as [-> ->] by lia.
    change (new_location 4503599627370496 0) with loc_Exact.
    apply round_exact; [exact Hc|lia].
  - replace (Z.min (Z.max (Z.pos (digits2_pos m) + e - (53 + -52) - 53) (-1074))
               (e - -52)) with (e - 1)%Z by lia.
    replace (e - -52 - (e - 1))%Z with 53%Z by lia.
    rewrite Z.shiftl_mul_pow2 by lia.
    pose proof (Z_div_mod (Z.pos m * 2 ^ 53) (Z.pos 4503599627370496) eq_refl) as Hdm.
    destruct (Z.div_eucl (Z.pos m * 2 ^ 53) (Z.pos 4503599627370496)) as [q r].
    change (2 ^ 53)%Z with 9007199254740992%Z in Hdm.
    assert (q = Z.pos m~0 /\ r = 0%Z) as [-> ->] by lia.
    change (new_location 4503599627370496 0) with loc_Exact.
    apply round_even; [exact Hc|lia].
Qed.

Lemma div_one x : x / 1 = x.
Proof.
  apply Prim2SF_inj. rewrite FloatAxioms.div_spec.
  change (Prim2SF 1) with (S754_finite false 4503599627370496 (-52)).
  pose proof (Prim2SF_valid x) as V.
  destruct (Prim2SF x) as [s|s| |s m e]; try reflexivity;
    try (destruct s; reflexivity).
  now apply SFdiv_one.
Qed.

(** The first step of the compensated sum: [0 + (x - 0)] is [x], except
    that a negative zero becomes a positive one. *)
Lemma first_term x : is_nan x = false -> (0 + (x - 0) =? x) = true.
Proof.
  intros H. apply notnan_spec in H.
  rewrite FloatAxioms.eqb_spec, FloatAxioms.add_spec, FloatAxioms.sub_spec.
  change (Prim2SF 0) with (S754_zero false).
  destruct (Prim2SF x) as [s|s| |s m e]; try congruence;
    try destruct s; unfold SF64add, SF64sub, SFadd, SFsub, SFeqb, SFcompare;
    simpl; rewrite ?Z.compare_refl, ?Pos.compare_cont_refl; reflexivity.
Qed.

Lemma mean_singleton x : is_nan x = false -> (mean [x] =? x) = true.
Proof.
  intros H. unfold mean, kahan_add. simpl. rewrite H. simpl.
  change (of_int64 1) with 1. rewrite div_one. now apply first_term.
Qed.

(** A converted integer is a number. *)
Lemma iter_pos_inv {A} (P : A -> Prop) (f : A -> A) :
  (forall x, P x -> P (f x)) -> forall p x, P x -> P (SpecFloat.iter_pos f p x).
Proof.
  intros Hf. induction p as [p IH|p IH|]; intros x Hx; simpl; auto.
Qed.

Lemma shr_1_nonneg mrs : (0 <= shr_m mrs)%Z -> (0 <= shr_m (shr_1 mrs))%Z.
Proof.
  destruct mrs as [m r s]. simpl. intros H.
  destruct m as [|[p|p|]|p]; simpl; lia.
Qed.

Lemma shr_fexp_nonneg m e l :
  (0 <= m)%Z -> (0 <= shr_m (fst (shr_fexp prec emax m e l)))%Z.
Proof.
  intros H. unfold shr_fexp, shr.
  assert (H0 : (0 <= shr_m (shr_record_of_loc m l))%Z)
    by (destruct l as [|[]]; exact H).
  destruct (_ - e)%Z; simpl; try exact H0.
  apply (iter_pos_inv (fun mrs => 0 <= shr_m mrs)%Z); [apply shr_1_nonneg|exact H0].
Qed.

Lemma binary_round_aux_not_nan s m e l :
  (0 <= m)%Z -> binary_round_aux prec emax s m e l <> S754_nan.
Proof.
  intros H. unfold binary_round_aux.
  pose proof (shr_fexp_nonneg e l H) as H1.
  destruct (shr_fexp prec emax m e l) as [mrs' e']. simpl in H1.
  assert (H2 : (0 <= round_nearest_even (shr_m mrs') (loc_of_shr_record mrs'))%Z).
  { unfold round_nearest_even.
    destruct (loc_of_shr_record mrs') as [|[]]; try destruct (Z.even _); lia. }
  pose proof (shr_fexp_nonneg e' loc_Exact H2) as H3.
  destruct (shr_fexp prec emax _ e' loc_Exact) as [mrs'' e'']. simpl in H3.
  destruct (shr_m mrs'') as [|p|p]; try discriminate; [|lia].
  destruct (e'' <=? _)%Z; discriminate.
Qed.

Lemma of_uint63_not_nan n : is_nan (of_uint63 n) = false.
Proof.
  destruct (is_nan (of_uint63 n)) eqn:E; [|reflexivity].
  apply is_nan_spec in E. rewrite of_uint63_spec in E.
  unfold binary_normalize in E.
  destruct (Uint63.to_Z n) as [|p|p]; try discriminate;
    unfold binary_round in E;
    destruct (shl_align _ _ _) as [mz ez];
    now apply binary_round_aux_not_nan in E.
Qed.

Lemma opp_not_nan x : is_nan x = false -> is_nan (- x) = false.
Proof.
  intros H. apply notnan_spec in H.
  destruct (is_nan (- x)) eqn:E; [|reflexivity].
  apply is_nan_spec in E. rewrite opp_spec in E.
  destruct (Prim2SF x); discriminate || congruence.
Qed.

Lemma of_int64_not_nan z : is_nan (of_int64 z) = false.
Proof.
  unfold of_int64. destruct (z =? - 2 ^ 63)%Z; [reflexivity|].
  destruct (z <? 0)%Z; [apply opp_not_nan|]; apply of_uint63_not_nan.
Qed.
End F64.

(** ** Orders on the two group-by keys *)

Module Keys.
Lemma Z_compare_eq a b : Z.compare a b = Eq <-> a = b.
Proof. apply Z.compare_eq_iff. Qed.

Lemma Z_compare_antisym a b : Z.compare b a = CompOpp (Z.compare a b).
Proof. apply Z.compare_antisym. Qed.

Lemma Z_compare_trans a b c :
  Z.compare a b = Lt -> Z.compare b c = Lt -> Z.compare a c = Lt.
Proof. rewrite !Z.compare_lt_iff. lia. Qed.

(** Department names compare as Python strings do, character by character. *)
Lemma ascii_compare_refl a : Ascii.compare a a = Eq.
Proof. unfold Ascii.compare. apply N.compare_refl. Qed.

Lemma string_compare_refl s : String.compare s s = Eq.
Proof.
  induction s as [|a s IH]; simpl; [reflexivity|].
  now rewrite ascii_compare_refl.
Qed.

Lemma string_compare_eq a b : String.compare a b = Eq <-> a = b.
Proof.
  split; [apply String.compare_eq_iff|].
  intros ->. apply string_compare_refl.
Qed.

Lemma string_compare_antisym a b :
  String.compare b a = CompOpp (String.compare a b).
Proof. apply String.compare_antisym. Qed.

Lemma string_compare_trans a : forall b c,
  String.compare a b = Lt -> String.compare b c = Lt -> String.compare a c = Lt.
Proof.
  induction a as [|x a IH]; intros [|y b] [|z c]; simpl;
    try discriminate; try reflexivity.
  unfold Ascii.compare.
  destruct (N.compare_spec (N_of_ascii x) (N_of_ascii y)) as [E1|L1|G1];
    try discriminate;
    destruct (N.compare_spec (N_of_ascii y) (N_of_ascii z)) as [E2|L2|G2];
    try discriminate; intros H1 H2.
  - rewrite E1, E2, N.compare_refl. now apply (IH b c).
  - rewrite E1. now apply N.compare_lt_iff in L2 as ->.
  - rewrite <- E2. now apply N.compare_lt_iff in L1 as ->.
  - assert (L : (N_of_ascii x < N_of_ascii z)%N) by lia.
    now apply N.compare_lt_iff in L as ->.
Qed.
End Keys.

(** ** The report builder ([build_dashboard_report.py]) *)

Module ReportBuilder.
Open Scope Z_scope.
Open Scope result_scope.

(** One row of the loaded frame: the nine input columns and the
    [month_date] column that [load_data] adds.  A [month_date] is the
    timestamp of the first day of the month. *)
Record MonthlyRecord : Type := {
  month : string;
  department : string;
  headcount : Z;
  new_hires : Z;
  terminations : Z;
  open_positions : Z;
  time_to_fill_days : Z;
  offer_acceptance_rate : float;
  turnover_rate : float;
  month_date : Z
}.

Definition DataFrame : Type := list MonthlyRecord.

(** The monthly aggregate frame. *)
Module Monthly.
Record agg : Type := {
  month_date : Z;
  headcount : Z;
  new_hires : Z;
  terminations : Z;
  open_positions : Z;
  avg_time_to_fill : float;
  avg_offer_acceptance : float;
  avg_turnover_rate : float
}.

(** The frame after the three month-over-month columns are added. *)
Record row : Type := {
  totals : agg;
  headcount_mom_pct : float;
  new_hires_mom_pct : float;
  turnover_mom_delta : float
}.
End Monthly.

(** The department snapshot frame. *)
Module Dept.
Record row : Type := {
  department : string;
  headcount : Z;
  turnover_rate : float;
  time_to_fill_days : float
}.
End Dept.

(** The values the executive summary interpolates, in the order of the
    f-string.  Rendering them to text ([strftime], fixed-point formatting)
    cannot fail and is left to [format_summary] below. *)
Record Summary : Type := {
  as_of : Z;
  total_headcount : Z;
  headcount_mom : float;
  hires : Z;
  terms : Z;
  average_turnover : float;
  turnover_mom : float;
  offer_acceptance : float;
  time_to_fill : float;
  top_turnover : Dept.row;
  best_ttf : Dept.row
}.

Record Insights : Type := {
  exec_summary : Summary;
  monthly : list Monthly.row;
  dept_latest : list Dept.row;
  latest : Monthly.row;
  prior : Monthly.row
}.

(** [frame.iloc[i]] with one integer: negative positions count from the
    end, and a position outside the frame raises [IndexError]. *)
Definition iloc {A} (frame : list A) (i : Z) : result A :=
  let n := Z.of_nat (List.length frame) in
  let j := if i <? 0 then n + i else i in
  if (j <? 0) || (n <=? j) then Raise IndexError
  else match nth_error frame (Z.to_nat j) with
       | Some r => Ok r
       | None => Raise IndexError
       end.

Definition agg_month (g : Z * list MonthlyRecord) : Monthly.agg :=
  let rs := snd g in
  {| Monthly.month_date := fst g;
     Monthly.headcount := Int64.sum (map headcount rs);
     Monthly.new_hires := Int64.sum (map new_hires rs);
     Monthly.terminations := Int64.sum (map terminations rs);
     Monthly.open_positions := Int64.sum (map open_positions rs);
     Monthly.avg_time_to_fill :=
       F64.mean (map (fun r => F64.of_int64 (time_to_fill_days r)) rs);
     Monthly.avg_offer_acceptance := F64.mean (map offer_acceptance_rate rs);
     Monthly.avg_turnover_rate := F64.mean (map turnover_rate rs) |}.

Definition agg_dept (g : string * list MonthlyRecord) : Dept.row :=
  let rs := snd g in
  {| Dept.department := fst g;
     Dept.headcount := Int64.sum (map headcount rs);
     Dept.turnover_rate := F64.mean (map turnover_rate rs);
     Dept.time_to_fill_days :=
       F64.mean (map (fun r => F64.of_int64 (time_to_fill_days r)) rs) |}.

Definition never_na {K} (_ : K) : bool := false.

(** numpy's [argsort] for the three dtypes the script sorts by: the months
    ([datetime64]), the headcounts ([int64]) and the rates and averages
    ([float64]).  pandas hands it the keys that are not NaN. *)
Class Sorts : Type := {
  argsort_datetime64 : Argsort Z.leb (@never_na Z);
  argsort_int64 : Argsort Z.leb (@never_na Z);
  argsort_float64 : Argsort PrimFloat.leb PrimFloat.is_nan
}.

Section Frames.
Context {np : Sorts}.

(** Lines 28-40: group by month, aggregate, sort by month. *)
Definition monthly_totals (df : DataFrame) : list Monthly.agg :=
  sort_values Monthly.month_date argsort_datetime64 true
    (map agg_month (groupby Z.compare month_date df)).

Fixpoint add_columns (ts : list Monthly.agg) (hc nh td : list float)
  : list Monthly.row :=
  match ts, hc, nh, td with
  | t :: ts', h :: hc', n :: nh', d :: td' =>
      {| Monthly.totals := t;
         Monthly.headcount_mom_pct := h;
         Monthly.new_hires_mom_pct := n;
         Monthly.turnover_mom_delta := d |} :: add_columns ts' hc' nh' td'
  | _, _, _, _ => []
  end.

Definition times100 (x : float) : float := (x * 100)%float.

(** Lines 42-44: the three month-over-month columns. *)
Definition with_mom (ts : list Monthly.agg) : list Monthly.row :=
  add_columns ts
    (map times100
       (F64.pct_change (map (fun t => F64.of_int64 (Monthly.headcount t)) ts)))
    (map times100
       (F64.pct_change (map (fun t => F64.of_int64 (Monthly.new_hires t)) ts)))
    (F64.diff (map Monthly.avg_turnover_rate ts)).

(** Lines 49-58: the latest month's rows, grouped by department, sorted by
    descending headcount. *)
Definition dept_snapshot (df : DataFrame) (latest_month : Z) : list Dept.row :=
  sort_values Dept.headcount argsort_int64 false
    (map agg_dept
       (groupby String.compare department
          (filter (fun r => month_date r =? latest_month) df))).

Definition build_insights (df : DataFrame) : result Insights :=
  let monthly := with_mom (monthly_totals df) in
  latest <- iloc monthly (-1) ;;
  prior <- iloc monthly (-2) ;;
  let dept_latest := dept_snapshot df (Monthly.month_date (Monthly.totals latest)) in
  top_turnover <-
    iloc (sort_values Dept.turnover_rate argsort_float64 false
            dept_latest) 0 ;;
  best_ttf <-
    iloc (sort_values Dept.time_to_fill_days argsort_float64 true
            dept_latest) 0 ;;
  Ok {| exec_summary :=
          {| as_of := Monthly.month_date (Monthly.totals latest);
             total_headcount := Monthly.headcount (Monthly.totals latest);
             headcount_mom := Monthly.headcount_mom_pct latest;
             hires := Monthly.new_hires (Monthly.totals latest);
             terms := Monthly.terminations (Monthly.totals latest);
             average_turnover := Monthly.avg_turnover_rate (Monthly.totals latest);
             turnover_mom := Monthly.turnover_mom_delta latest;
             offer_acceptance := Monthly.avg_offer_acceptance (Monthly.totals latest);
             time_to_fill := Monthly.avg_time_to_fill (Monthly.totals latest);
             top_turnover := top_turnover;
             best_ttf := best_ttf |};
        monthly := monthly;
        dept_latest := dept_latest;
        latest := latest;
        prior := prior |}.

(** *** Facts about [iloc] *)

Example iloc_examples :
  iloc [10; 20; 30] (-1) = Ok 30 /\ iloc [10; 20; 30] (-2) = Ok 20
  /\ iloc [10; 20; 30] 0 = Ok 10 /\ iloc [10; 20; 30] 3 = Raise IndexError
  /\ iloc [10; 20; 30] (-4) = Raise IndexError.
Proof. repeat split. Qed.

Lemma iloc_nil {A} i : iloc (@nil A) i = Raise IndexError.
Proof.
  unfold iloc. destruct (_ || _); [reflexivity|].
  now destruct (Z.to_nat _).
Qed.

Lemma iloc_head {A} (x : A) l : iloc (x :: l) 0 = Ok x.
Proof.
  unfold iloc. simpl Z.ltb. cbv iota.
  replace (Z.of_nat (List.length (x :: l)) <=? 0) with false; [reflexivity|].
  symmetry. apply Z.leb_gt. simpl List.length. lia.
Qed.

Lemma iloc_last {A} (x : A) l : iloc (l ++ [x]) (-1) = Ok x.
Proof.
  unfold iloc. rewrite length_app. simpl List.length.
  change (-1 <? 0) with true. cbv iota.
  replace (Z.of_nat (List.length l + 1) + -1) with (Z.of_nat (List.length l)) by lia.
  replace (Z.of_nat (List.length l) <? 0) with false
    by (symmetry; apply Z.ltb_ge; lia).
  replace (Z.of_nat (List.length l + 1) <=? Z.of_nat (List.length l)) with false
    by (symmetry; apply Z.leb_gt; lia).
  simpl. rewrite Nat2Z.id, nth_error_app2, Nat.sub_diag; [reflexivity|lia].
Qed.

Lemma iloc_prior {A} (p x : A) l : iloc (l ++ [p; x]) (-2) = Ok p.
Proof.
  unfold iloc. rewrite length_app. simpl List.length.
  change (-2 <? 0) with true. cbv iota.
  replace (Z.of_nat (List.length l + 2) + -2) with (Z.of_nat (List.length l)) by lia.
  replace (Z.of_nat (List.length l) <? 0) with false
    by (symmetry; apply Z.ltb_ge; lia).
  replace (Z.of_nat (List.length l + 2) <=? Z.of_nat (List.length l)) with false
    by (symmetry; apply Z.leb_gt; lia).
  simpl. rewrite Nat2Z.id, nth_error_app2, Nat.sub_diag; [reflexivity|lia].
Qed.

Lemma iloc_prior_single {A} (x : A) : iloc [x] (-2) = Raise IndexError.
Proof. reflexivity. Qed.

Lemma iloc_head_inv {A} (l : list A) x : iloc l 0 = Ok x -> exists l', l = x :: l'.
Proof.
  destruct l as [|y l]; [now rewrite iloc_nil|].
  rewrite iloc_head. intros H. injection H as ->. now exists l.
Qed.

(** A frame of at least two rows, seen from its end. *)
Lemma two_from_end {A} (l : list A) :
  (2 <= List.length l)%nat -> exists pre p x, l = pre ++ [p; x].
Proof.
  intros H. destruct (@exists_last _ l) as (l1 & x & ->).
  { intros ->. simpl in H. lia. }
  rewrite length_app in H. simpl in H.
  destruct (@exists_last _ l1) as (l2 & p & ->).
  { intros ->. simpl in H. lia. }
  exists l2, p, x. now rewrite <- app_assoc.
Qed.

(** *** The monthly frame *)

Lemma StronglySorted_map {A B} (R : B -> B -> Prop) (f : A -> B) l :
  StronglySorted R (map f l) <-> StronglySorted (fun a b => R (f a) (f b)) l.
Proof.
  induction l as [|x l IH]; simpl.
  - split; constructor.
  - split; intros H; inversion H as [|? ? S F]; subst; constructor.
    + now apply IH.
    + rewrite Forall_forall in *. intros y Hy. apply F. now apply in_map.
    + now apply IH.
    + rewrite Forall_forall in *. intros y Hy.
      apply in_map_iff in Hy as (z & <- & Hz). now apply F.
Qed.

Lemma StronglySorted_impl {A} (R S : A -> A -> Prop) l :
  (forall a b, R a b -> S a b) -> StronglySorted R l -> StronglySorted S l.
Proof.
  intros H. induction 1 as [|x l Hs IH F]; constructor; auto.
  eapply Forall_impl; [|exact F]. auto.
Qed.

Definition month_groups (df : DataFrame) : list (Z * list MonthlyRecord) :=
  groupby Z.compare month_date df.

Lemma month_groups_grouped df :
  grouped Z.compare month_date df (month_groups df).
Proof.
  apply groupby_grouped.
  - apply Keys.Z_compare_eq.
  - apply Keys.Z_compare_antisym.
  - apply Keys.Z_compare_trans.
Qed.

Lemma agg_month_date g : Monthly.month_date (agg_month g) = fst g.
Proof. reflexivity. Qed.

(** The group-by already yields the months in ascending order, so the
    [sort_values("month_date")] that follows leaves the frame as it is. *)
Lemma monthly_totals_groups df :
  monthly_totals df = map agg_month (month_groups df).
Proof.
  unfold monthly_totals. fold (month_groups df).
  apply sort_values_ascending.
  - intros a _. apply Z.leb_refl.
  - apply Forall_forall. reflexivity.
  - destruct (month_groups_grouped df) as [S _ _].
    apply (proj1 (StronglySorted_map (klt Z.compare) fst _)) in S.
    apply (proj2 (StronglySorted_map
                    (fun a b => kle Monthly.month_date Z.leb a b
                                /\ ~ kle Monthly.month_date Z.leb b a)
                    agg_month _)).
    eapply StronglySorted_impl; [|exact S].
    intros a b H. unfold klt in H. unfold kle. rewrite !agg_month_date.
    change (fst a < fst b) in H. rewrite !Z.leb_le. lia.
Qed.

Lemma monthly_totals_months df :
  map Monthly.month_date (monthly_totals df) = map fst (month_groups df).
Proof.
  rewrite monthly_totals_groups, map_map. apply map_ext. reflexivity.
Qed.

Lemma monthly_totals_sorted df :
  StronglySorted Z.lt (map Monthly.month_date (monthly_totals df)).
Proof.
  rewrite monthly_totals_months.
  destruct (month_groups_grouped df) as [S _ _].
  eapply StronglySorted_impl; [|exact S].
  intros a b H. exact H.
Qed.

Lemma monthly_totals_month_iff df m :
  In m (map Monthly.month_date (monthly_totals df)) <-> In m (map month_date df).
Proof.
  rewrite monthly_totals_months. apply groupby_key_iff.
  - apply Keys.Z_compare_eq.
  - apply Keys.Z_compare_antisym.
  - apply Keys.Z_compare_trans.
Qed.

Definition distinct_months (df : DataFrame) : list Z :=
  nodup Z.eq_dec (map month_date df).

Definition n_months (df : DataFrame) : nat := List.length (distinct_months df).

Lemma Zlt_sorted_NoDup l : StronglySorted Z.lt l -> NoDup l.
Proof.
  induction 1 as [|a l S IH F]; constructor; auto.
  intros H. rewrite Forall_forall in F. specialize (F _ H). lia.
Qed.

Lemma monthly_totals_length df : List.length (monthly_totals df) = n_months df.
Proof.
  unfold n_months, distinct_months.
  rewrite <- (length_map Monthly.month_date).
  apply Permutation_length, NoDup_Permutation.
  - apply Zlt_sorted_NoDup, monthly_totals_sorted.
  - apply NoDup_nodup.
  - intros m. rewrite monthly_totals_month_iff, nodup_In. reflexivity.
Qed.

Lemma filter_has_key_month df m :
  filter (has_key Z.compare month_date m) df
  = filter (fun r => month_date r =? m) df.
Proof.
  apply filter_ext. intros r. unfold has_key.
  rewrite Z.eqb_compare. reflexivity.
Qed.

(** Every monthly row aggregates exactly the records of its month. *)
Lemma monthly_totals_row df t :
  In t (monthly_totals df) ->
  t = agg_month (Monthly.month_date t,
                 filter (fun r => month_date r =? Monthly.month_date t) df)
  /\ In (Monthly.month_date t) (map month_date df).
Proof.
  intros H. split.
  - rewrite monthly_totals_groups in H.
    apply in_map_iff in H as ([m rs] & <- & H).
    destruct (month_groups_grouped df) as [_ Rws _].
    destruct (Rws _ _ H) as [E _]. simpl.
    rewrite <- filter_has_key_month, <- E. reflexivity.
  - apply monthly_totals_month_iff. now apply in_map.
Qed.

(** *** The month-over-month columns, row by row *)

Fixpoint mom_from (ph pn pt : float) (ts : list Monthly.agg) : list Monthly.row :=
  match ts with
  | [] => []
  | t :: ts' =>
      let h := F64.of_int64 (Monthly.headcount t) in
      let n := F64.of_int64 (Monthly.new_hires t) in
      {| Monthly.totals := t;
         Monthly.headcount_mom_pct := ((h / ph - 1) * 100)%float;
         Monthly.new_hires_mom_pct := ((n / pn - 1) * 100)%float;
         Monthly.turnover_mom_delta := (Monthly.avg_turnover_rate t - pt)%float |}
      :: mom_from h n (Monthly.avg_turnover_rate t) ts'
  end.

Lemma add_columns_from ts : forall ph pn pt,
  add_columns ts
    (map times100 (F64.with_prev (fun x p => x / p - 1)%float ph
       (map (fun t => F64.of_int64 (Monthly.headcount t)) ts)))
    (map times100 (F64.with_prev (fun x p => x / p - 1)%float pn
       (map (fun t => F64.of_int64 (Monthly.new_hires t)) ts)))
    (F64.with_prev (fun x p => x - p)%float pt (map Monthly.avg_turnover_rate ts))
  = mom_from ph pn pt ts.
Proof.
  induction ts as [|t ts IH]; intros ph pn pt; [reflexivity|].
  simpl. f_equal. apply IH.
Qed.

Lemma with_mom_from ts : with_mom ts = mom_from nan nan nan ts.
Proof.
  unfold with_mom.
  rewrite !F64.pct_change_with_prev, F64.diff_with_prev.
  apply add_columns_from.
Qed.

Lemma mom_from_totals ts : forall ph pn pt,
  map Monthly.totals (mom_from ph pn pt ts) = ts.
Proof.
  induction ts as [|t ts IH]; intros; simpl; [reflexivity|].
  now rewrite IH.
Qed.

Lemma with_mom_totals ts : map Monthly.totals (with_mom ts) = ts.
Proof. rewrite with_mom_from. apply mom_from_totals. Qed.

Lemma with_mom_length ts : List.length (with_mom ts) = List.length ts.
Proof. rewrite <- (with_mom_totals ts) at 2. now rewrite length_map. Qed.

(** What the three columns hold in a row [c] that follows a row [p]. *)
Definition mom_of (p c : Monthly.row) : Prop :=
  let tp := Monthly.totals p in
  let tc := Monthly.totals c in
  Monthly.headcount_mom_pct c
    = ((F64.of_int64 (Monthly.headcount tc) / F64.of_int64 (Monthly.headcount tp) - 1)
       * 100)%float
  /\ Monthly.new_hires_mom_pct c
    = ((F64.of_int64 (Monthly.new_hires tc) / F64.of_int64 (Monthly.new_hires tp) - 1)
       * 100)%float
  /\ Monthly.turnover_mom_delta c
    = (Monthly.avg_turnover_rate tc - Monthly.avg_turnover_rate tp)%float.

Lemma mom_from_consecutive pre : forall ts ph pn pt p c post,
  mom_from ph pn pt ts = pre ++ p :: c :: post -> mom_of p c.
Proof.
  induction pre as [|x pre IH]; intros ts ph pn pt p c post E.
  - destruct ts as [|t1 [|t2 ts]]; simpl in E; try discriminate.
    injection E as <- <- _. unfold mom_of. simpl. auto.
  - destruct ts as [|t ts]; simpl in E; [discriminate|].
    injection E as _ E. now apply IH in E.
Qed.

Lemma with_mom_consecutive ts pre p c post :
  with_mom ts = pre ++ p :: c :: post -> mom_of p c.
Proof. rewrite with_mom_from. apply mom_from_consecutive. Qed.

Lemma with_mom_first ts r rest :
  with_mom ts = r :: rest ->
  Monthly.headcount_mom_pct r = nan
  /\ Monthly.new_hires_mom_pct r = nan
  /\ Monthly.turnover_mom_delta r = nan.
Proof.
  rewrite with_mom_from. destruct ts as [|t ts]; simpl; [discriminate|].
  intros E. injection E as <- _. simpl.
  rewrite !F64.pct_nan, F64.sub_nan. auto.
Qed.

Lemma with_mom_In ts r : In r (with_mom ts) -> In (Monthly.totals r) ts.
Proof.
  intros H. rewrite <- (with_mom_totals ts). now apply in_map.
Qed.

(** *** The department snapshot *)

Definition dept_groups (rs : list MonthlyRecord) : list (string * list MonthlyRecord) :=
  groupby String.compare department rs.

Lemma dept_groups_grouped rs :
  grouped String.compare department rs (dept_groups rs).
Proof.
  apply groupby_grouped.
  - apply Keys.string_compare_eq.
  - apply Keys.string_compare_antisym.
  - apply Keys.string_compare_trans.
Qed.

Definition in_month (m : Z) (r : MonthlyRecord) : bool := month_date r =? m.

Definition in_dept (d : string) (r : MonthlyRecord) : bool :=
  String.eqb (department r) d.

Lemma filter_has_key_dept rs d :
  filter (has_key String.compare department d) rs = filter (in_dept d) rs.
Proof.
  apply filter_ext. intros r. unfold in_dept.
  destruct (String.eqb (department r) d) eqn:E.
  - apply (has_key_true _ _ Keys.string_compare_eq). now apply String.eqb_eq.
  - apply (has_key_false _ _ Keys.string_compare_eq). now apply String.eqb_neq.
Qed.

Lemma Zleb_total (a b : Z) :
  never_na a = false -> never_na b = false -> (a <=? b) = true \/ (b <=? a) = true.
Proof. intros _ _. rewrite !Z.leb_le. lia. Qed.

Lemma Zleb_trans (a b c : Z) :
  never_na a = false -> never_na b = false -> never_na c = false ->
  (a <=? b) = true -> (b <=? c) = true -> (a <=? c) = true.
Proof. intros _ _ _. rewrite !Z.leb_le. lia. Qed.

Lemma dept_snapshot_perm df m :
  Permutation (dept_snapshot df m)
    (map agg_dept (dept_groups (filter (in_month m) df))).
Proof. apply sort_values_perm. Qed.

Lemma dept_snapshot_sorted df m :
  StronglySorted (fun a b => Dept.headcount b <= Dept.headcount a)
    (dept_snapshot df m).
Proof.
  unfold dept_snapshot.
  eapply StronglySorted_impl;
    [|apply (sort_values_sorted Dept.headcount argsort_int64 false)].
  - intros a b H. unfold kle in H. now apply Z.leb_le.
  - apply Forall_forall. reflexivity.
Qed.

Lemma dept_snapshot_departments df m d :
  In d (map Dept.department (dept_snapshot df m))
  <-> In d (map department (filter (in_month m) df)).
Proof.
  assert (P := Permutation_map Dept.department (dept_snapshot_perm df m)).
  rewrite map_map in P. simpl in P.
  rewrite <- (groupby_key_iff String.compare department Keys.string_compare_eq
                Keys.string_compare_antisym Keys.string_compare_trans
                (filter (in_month m) df) d).
  split; intros H.
  - eapply Permutation_in; [exact P|exact H].
  - eapply Permutation_in; [symmetry; exact P|exact H].
Qed.

Lemma dept_snapshot_NoDup df m : NoDup (map Dept.department (dept_snapshot df m)).
Proof.
  assert (P := Permutation_map Dept.department (dept_snapshot_perm df m)).
  rewrite map_map in P. simpl in P.
  eapply Permutation_NoDup; [symmetry; exact P|].
  destruct (dept_groups_grouped (filter (in_month m) df)) as [S _ _].
  eapply klt_sorted_NoDup; [apply Keys.string_compare_eq|exact S].
Qed.

Lemma dept_snapshot_row df m row :
  In row (dept_snapshot df m) ->
  row = agg_dept (Dept.department row,
                  filter (in_dept (Dept.department row)) (filter (in_month m) df)).
Proof.
  intros H. apply (Permutation_in _ (dept_snapshot_perm df m)) in H.
  apply in_map_iff in H as ([d rs] & <- & H).
  destruct (dept_groups_grouped (filter (in_month m) df)) as [_ Rws _].
  destruct (Rws _ _ H) as [E _]. simpl.
  rewrite <- filter_has_key_dept, <- E. reflexivity.
Qed.

Lemma dept_snapshot_nonempty df m :
  In m (map month_date df) -> dept_snapshot df m <> [].
Proof.
  intros H C. apply in_map_iff in H as (r & E & H).
  assert (Hd : In (department r) (map Dept.department (dept_snapshot df m))).
  { apply dept_snapshot_departments. apply in_map. apply filter_In.
    split; [exact H|]. unfold in_month. now apply Z.eqb_eq. }
  rewrite C in Hd. exact Hd.
Qed.

(** *** Valid input (the data model's constraints) *)

Record valid_record (r : MonthlyRecord) : Prop := {
  headcount_nonneg : 0 <= headcount r;
  new_hires_nonneg : 0 <= new_hires r;
  terminations_nonneg : 0 <= terminations r;
  open_positions_nonneg : 0 <= open_positions r;
  time_to_fill_pos : 0 < time_to_fill_days r;
  offer_acceptance_pct :
    (0 <=? offer_acceptance_rate r)%float = true
    /\ (offer_acceptance_rate r <=? 100)%float = true;
  turnover_pct :
    (0 <=? turnover_rate r)%float = true /\ (turnover_rate r <=? 100)%float = true
}.

(** A count column whose total is representable: no group sum can wrap. *)
Definition fits (f : MonthlyRecord -> Z) (rs : list MonthlyRecord) : Prop :=
  Forall (fun r => 0 <= f r) rs /\ Int64.total (map f rs) <= Int64.max_int.

Record valid_input (df : DataFrame) : Prop := {
  valid_rows : Forall valid_record df;
  valid_key : NoDup (map (fun r => (month_date r, department r)) df);
  headcount_fits : Int64.total (map headcount df) <= Int64.max_int;
  new_hires_fits : Int64.total (map new_hires df) <= Int64.max_int;
  terminations_fits : Int64.total (map terminations df) <= Int64.max_int;
  open_positions_fits : Int64.total (map open_positions df) <= Int64.max_int
}.

Lemma fits_filter f p rs : fits f rs -> fits f (filter p rs).
Proof.
  intros [H1 H2]. split.
  - rewrite Forall_forall in *. intros r Hr. apply filter_In in Hr as [Hr _]. auto.
  - pose proof (Int64.total_filter_le f p H1). lia.
Qed.

Lemma fits_sum f rs : fits f rs -> Int64.sum (map f rs) = Int64.total (map f rs).
Proof.
  intros [H1 H2]. apply Int64.sum_exact.
  assert (0 <= Int64.total (map f rs)).
  { apply Int64.total_nonneg. rewrite Forall_map. exact H1. }
  unfold Int64.in_range, Int64.min_int. lia.
Qed.

Lemma valid_fits df :
  valid_input df ->
  fits headcount df /\ fits new_hires df /\ fits terminations df
  /\ fits open_positions df.
Proof.
  intros [V _ H1 H2 H3 H4]. unfold fits.
  repeat split; try assumption;
    (eapply Forall_impl; [|exact V]; intros r [? ? ? ? ? ? ?]; assumption).
Qed.

(** *** What [build_insights] returns *)

Definition turnover_desc (frame : list Dept.row) : list Dept.row :=
  sort_values Dept.turnover_rate argsort_float64 false frame.

Definition ttf_asc (frame : list Dept.row) : list Dept.row :=
  sort_values Dept.time_to_fill_days argsort_float64 true frame.

Definition month_of (r : Monthly.row) : Z := Monthly.month_date (Monthly.totals r).

Record built (df : DataFrame) (out : Insights) : Prop := {
  built_monthly : monthly out = with_mom (monthly_totals df);
  built_latest : exists pre, monthly out = pre ++ [prior out; latest out];
  built_dept : dept_latest out = dept_snapshot df (month_of (latest out));
  built_top : exists rest,
    turnover_desc (dept_latest out) = top_turnover (exec_summary out) :: rest;
  built_best : exists rest,
    ttf_asc (dept_latest out) = best_ttf (exec_summary out) :: rest
}.

Lemma perm_nonempty {A} (l l' : list A) : Permutation l l' -> l' <> [] -> l <> [].
Proof.
  intros P H ->. apply H. now apply Permutation_nil.
Qed.

Lemma build_insights_built df :
  (2 <= n_months df)%nat -> exists out, build_insights df = Ok out /\ built df out.
Proof.
  intros H. rewrite <- monthly_totals_length, <- with_mom_length in H.
  destruct (two_from_end _ H) as (pre & p & x & E).
  assert (Hm : In (month_of x) (map month_date df)).
  { apply monthly_totals_month_iff. unfold month_of. apply in_map. apply with_mom_In.
    rewrite E. apply in_or_app. right. right. now left. }
  pose proof (dept_snapshot_nonempty df _ Hm) as Hne.
  destruct (turnover_desc (dept_snapshot df (month_of x))) as [|t rest1] eqn:Et.
  { exfalso. eapply perm_nonempty; [|exact Hne|exact Et]. apply sort_values_perm. }
  destruct (ttf_asc (dept_snapshot df (month_of x))) as [|b rest2] eqn:Eb.
  { exfalso. eapply perm_nonempty; [|exact Hne|exact Eb]. apply sort_values_perm. }
  unfold build_insights. rewrite E.
  replace (iloc (pre ++ [p; x]) (-1)) with (Ok x).
  2:{ change (pre ++ [p; x]) with (pre ++ [p] ++ [x]). rewrite app_assoc.
      symmetry. apply iloc_last. }
  rewrite iloc_prior. cbn [bind].
  fold (month_of x). fold (turnover_desc (dept_snapshot df (month_of x))).
  fold (ttf_asc (dept_snapshot df (month_of x))).
  rewrite Et, Eb, !iloc_head. cbn [bind].
  eexists. split; [reflexivity|].
  split; simpl; eauto.
Qed.

Lemma build_insights_short df :
  (n_months df < 2)%nat -> build_insights df = Raise IndexError.
Proof.
  intros H. rewrite <- monthly_totals_length, <- with_mom_length in H.
  unfold build_insights.
  destruct (with_mom (monthly_totals df)) as [|x [|y l]]; simpl in H; try lia.
  - now rewrite iloc_nil.
  - reflexivity.
Qed.

Lemma sorted_last_max l x :
  StronglySorted Z.lt (l ++ [x]) -> forall y, In y (l ++ [x]) -> y <= x.
Proof.
  induction l as [|a l IH]; simpl; intros S y Hy.
  - destruct Hy as [<-|[]]. lia.
  - inversion S as [|? ? S' F]; subst. destruct Hy as [<-|Hy].
    + rewrite Forall_forall in F. assert (a < x); [|lia].
      apply F. apply in_or_app. right. now left.
    + now apply IH.
Qed.

Lemma built_latest_max df out :
  built df out ->
  In (month_of (latest out)) (map month_date df)
  /\ forall r, In r df -> month_date r <= month_of (latest out).
Proof.
  intros [Em [pre El] _ _ _].
  assert (Emonths : map month_of (monthly out)
                    = map Monthly.month_date (monthly_totals df)).
  { rewrite Em. rewrite <- (with_mom_totals (monthly_totals df)) at 2.
    now rewrite map_map. }
  assert (Elast : map month_of (monthly out)
                  = (map month_of pre ++ [month_of (prior out)])
                    ++ [month_of (latest out)]).
  { rewrite El, map_app. simpl. now rewrite <- app_assoc. }
  split.
  - apply monthly_totals_month_iff. rewrite <- Emonths, Elast.
    apply in_or_app. right. now left.
  - intros r Hr. apply (sorted_last_max (map month_of pre ++ [month_of (prior out)])).
    + rewrite <- Elast, Emonths. apply monthly_totals_sorted.
    + rewrite <- Elast, Emonths. apply monthly_totals_month_iff. now apply in_map.
Qed.

(** *** The claims about [build_insights] *)

(** The rows of the monthly frame that belong to month [m]. *)
Definition of_month (df : DataFrame) (m : Z) : list MonthlyRecord :=
  filter (in_month m) df.

Definition ttf_column (rs : list MonthlyRecord) : list float :=
  map (fun r => F64.of_int64 (time_to_fill_days r)) rs.



Lemma valid_rates r :
  valid_record r ->
  PrimFloat.is_nan (offer_acceptance_rate r) = false
  /\ PrimFloat.is_nan (turnover_rate r) = false.
Proof.
  intros [_ _ _ _ _ [Ho _] [Ht _]].
  split; [exact (proj2 (F64.leb_not_nan Ho))|exact (proj2 (F64.leb_not_nan Ht))].
Qed.


(** C2, amended.  For every input with at least two distinct months the
    first row of the monthly table has NaN in [headcount_mom_pct],
    [new_hires_mom_pct] and [turnover_mom_delta]; in every later row the two
    percentages are (curr / prev - 1) * 100 in binary64 arithmetic against
    the row before it, and [turnover_mom_delta] is the difference of the two
    rows' [avg_turnover_rate]; for monthly headcounts 100 and 110 the second
    month's [headcount_mom_pct] is 10.000000000000009. *)
Theorem mom_columns_correct (df : DataFrame) :
  (2 <= n_months df)%nat ->
  exists out, build_insights df = Ok out
    /\ (exists first rest, monthly out = first :: rest
          /\ Monthly.headcount_mom_pct first = nan
          /\ Monthly.new_hires_mom_pct first = nan
          /\ Monthly.turnover_mom_delta first = nan)
    /\ (forall pre p c post, monthly out = pre ++ p :: c :: post ->
          mom_of p c
          /\ (Monthly.headcount (Monthly.totals p) = 100 ->
              Monthly.headcount (Monthly.totals c) = 110 ->
              Monthly.headcount_mom_pct c = 0x1.4000000000005p+3%float)).
Proof.
  intros H. destruct (build_insights_built df H) as (out & E & B).
  exists out. split; [exact E|].
  destruct B as [Em [pre0 El] _ _ _]. split.
  - destruct (monthly out) as [|first rest] eqn:Emo.
    + now destruct pre0.
    + exists first, rest. split; [reflexivity|].
      symmetry in Em. now apply with_mom_first in Em.
  - intros pre p c post Ec. rewrite Em in Ec.
    assert (M := Ec). apply with_mom_consecutive in M. split; [exact M|].
    intros Hp Hc. destruct M as (M & _). rewrite M, Hp, Hc.
    vm_compute. reflexivity.
Qed.


(** A department row holds the sum and means of its department's records in
    the month [m]. *)
Definition aggregates_dept (df : DataFrame) (m : Z) (row : Dept.row) : Prop :=
  let rs := filter (in_dept (Dept.department row)) (of_month df m) in
  Dept.headcount row = Int64.total (map headcount rs)
  /\ Dept.turnover_rate row = F64.mean (map turnover_rate rs)
  /\ Dept.time_to_fill_days row = F64.mean (ttf_column rs).

(** The row of a department whose single record in the month is [r]: the
    record's headcount, turnover rate and time-to-fill. *)
Definition row_of_record (r : MonthlyRecord) (row : Dept.row) : Prop :=
  Dept.department row = department r
  /\ Dept.headcount row = headcount r
  /\ (Dept.turnover_rate row =? turnover_rate r)%float = true
  /\ (Dept.time_to_fill_days row =? F64.of_int64 (time_to_fill_days r))%float = true.

(** The data model's key: a department has at most one record in a month. *)
Lemma key_unique df m d :
  NoDup (map (fun r => (month_date r, department r)) df) ->
  (List.length (filter (in_dept d) (filter (in_month m) df)) <= 1)%nat.
Proof.
  induction df as [|r df IH]; simpl; intros H; [lia|].
  inversion H as [|? ? Hn Hd]; subst.
  unfold in_month at 1. destruct (month_date r =? m) eqn:Em; [|now apply IH].
  simpl. unfold in_dept at 1.
  destruct (String.eqb (department r) d) eqn:Ed; [|now apply IH].
  simpl.
  destruct (filter (in_dept d) (filter (in_month m) df)) as [|r' l] eqn:Ef;
    [simpl; lia|].
  exfalso. apply Hn.
  assert (Hin : In r' (filter (in_dept d) (filter (in_month m) df)))
    by (rewrite Ef; now left).
  apply filter_In in Hin as [Hin Hd']. apply filter_In in Hin as [Hin Hm'].
  apply in_map_iff. exists r'. split; [|exact Hin].
  unfold in_month, in_dept in *.
  apply Z.eqb_eq in Em, Hm'. apply String.eqb_eq in Ed, Hd'. congruence.
Qed.

(** C3. For every valid input (with the two months [build_insights] needs to
    return at all) the department snapshot is computed from the records of
    the latest month only: that month is the greatest month of the input,
    the table has exactly one row for every department that occurs in the
    month's records, each row holding the department's summed headcount and
    its mean turnover rate and time-to-fill (a department has one record in
    the month, and its row holds that record's three values), and the rows
    are in descending order of headcount. *)
Theorem dept_latest_correct (df : DataFrame) :
  valid_input df -> (2 <= n_months df)%nat ->
  exists out, build_insights df = Ok out
    /\ In (month_of (latest out)) (map month_date df)
    /\ (forall r, In r df -> month_date r <= month_of (latest out))
    /\ NoDup (map Dept.department (dept_latest out))
    /\ (forall d, In d (map Dept.department (dept_latest out))
                  <-> In d (map department (of_month df (month_of (latest out)))))
    /\ (forall row, In row (dept_latest out) ->
          aggregates_dept df (month_of (latest out)) row)
    /\ (forall row, In row (dept_latest out) ->
          exists r,
            filter (in_dept (Dept.department row)) (of_month df (month_of (latest out)))
            = [r]
            /\ row_of_record r row)
    /\ StronglySorted (fun a b => Dept.headcount b <= Dept.headcount a)
         (dept_latest out).
Proof.
  intros V H. destruct (build_insights_built df H) as (out & E & B).
  exists out. split; [exact E|].
  destruct (built_latest_max B) as [Hin Hmax].
  destruct B as [_ _ Ed _ _]. rewrite Ed.
  split; [exact Hin|]. split; [exact Hmax|].
  split; [apply dept_snapshot_NoDup|].
  split; [apply dept_snapshot_departments|].
  destruct (valid_fits V) as (F1 & _).
  split; [|split; [|apply dept_snapshot_sorted]].
  - intros row Hrow. apply dept_snapshot_row in Hrow.
    unfold aggregates_dept, of_month, ttf_column.
    set (rs := filter (in_dept (Dept.department row))
                 (filter (in_month (month_of (latest out))) df)) in *.
    rewrite Hrow at 1 2 3. simpl.
    rewrite fits_sum by (unfold rs; now do 2 apply fits_filter).
    repeat split; reflexivity.
  - intros row Hrow.
    assert (Hd : In (Dept.department row)
                   (map department (filter (in_month (month_of (latest out))) df))).
    { apply dept_snapshot_departments. now apply in_map. }
    apply dept_snapshot_row in Hrow. unfold of_month.
    pose proof (@key_unique df (month_of (latest out)) (Dept.department row)
                  (valid_key V)) as Hu.
    pose proof (@fits_filter headcount (in_dept (Dept.department row)) _
                  (@fits_filter headcount (in_month (month_of (latest out))) _ F1))
      as Hf.
    apply fits_sum in Hf.
    destruct (filter (in_dept (Dept.department row))
                (filter (in_month (month_of (latest out))) df)) as [|r [|r' l]] eqn:Ef.
    + exfalso. apply in_map_iff in Hd as (r & Er & Hr).
      assert (Hr' : In r (filter (in_dept (Dept.department row))
                            (filter (in_month (month_of (latest out))) df))).
      { apply filter_In. split; [exact Hr|]. unfold in_dept. now apply String.eqb_eq. }
      rewrite Ef in Hr'. exact Hr'.
    + exists r. split; [reflexivity|].
      assert (Hr : In r (filter (in_dept (Dept.department row))
                           (filter (in_month (month_of (latest out))) df)))
        by (rewrite Ef; now left).
      apply filter_In in Hr as [Hr Hdep]. apply filter_In in Hr as [Hr _].
      assert (Hv : valid_record r).
      { destruct V as [V _ _ _ _ _]. rewrite Forall_forall in V. now apply V. }
      destruct (valid_rates Hv) as [_ Ht].
      unfold row_of_record. rewrite Hrow.
      cbn [agg_dept Dept.department Dept.headcount Dept.turnover_rate
           Dept.time_to_fill_days fst snd].
      split; [symmetry; now apply String.eqb_eq|].
      split; [rewrite Hf; simpl; lia|].
      split; [now apply F64.mean_singleton|].
      apply F64.mean_singleton, F64.of_int64_not_nan.
    + simpl in Hu. lia.
Qed.

(** [t] is a row of [frame] whose [key] is the greatest of the frame. *)
Definition attains_max (key : Dept.row -> float) (frame : list Dept.row) (t : Dept.row) : Prop :=
  In t frame /\ forall r, In r frame -> (key r <=? key t)%float = true.

(** [t] is a row of [frame] whose [key] is the least of the frame. *)
Definition attains_min (key : Dept.row -> float) (frame : list Dept.row) (t : Dept.row) : Prop :=
  In t frame /\ forall r, In r frame -> (key t <=? key r)%float = true.

Definition no_nan (key : Dept.row -> float) (frame : list Dept.row) : Prop :=
  Forall (fun r => PrimFloat.is_nan (key r) = false) frame.

Lemma float_leb_refl (a : float) :
  PrimFloat.is_nan a = false -> (a <=? a)%float = true.
Proof. intros H. now destruct (@F64.leb_total a a H H). Qed.

Lemma float_leb_trans (a b c : float) :
  PrimFloat.is_nan a = false -> PrimFloat.is_nan b = false ->
  PrimFloat.is_nan c = false ->
  (a <=? b)%float = true -> (b <=? c)%float = true -> (a <=? c)%float = true.
Proof. intros _ _ _. apply F64.leb_trans. Qed.

Lemma sort_desc_head_max key frame t rest :
  no_nan key frame ->
  sort_values key argsort_float64 false frame = t :: rest ->
  attains_max key frame t.
Proof.
  intros Hn E.
  exact (sort_values_head key argsort_float64 float_leb_refl false Hn E).
Qed.

Lemma sort_asc_head_min key frame t rest :
  no_nan key frame ->
  sort_values key argsort_float64 true frame = t :: rest ->
  attains_min key frame t.
Proof.
  intros Hn E.
  exact (sort_values_head key argsort_float64 float_leb_refl true Hn E).
Qed.

(** C4, amended.  The summary names a department with the greatest turnover
    rate and a department with the least time-to-fill of [dept_latest].
    Which of several departments that tie on the metric is named is decided
    by numpy's sort, which is not a stable one: it need not be the one that
    comes first in [dept_latest].  (Rates that are NaN are sorted last by
    pandas and are excluded here.) *)
Theorem superlatives_attain_extremes (df : DataFrame) :
  (2 <= n_months df)%nat ->
  exists out, build_insights df = Ok out
    /\ (no_nan Dept.turnover_rate (dept_latest out) ->
        attains_max Dept.turnover_rate (dept_latest out)
          (top_turnover (exec_summary out)))
    /\ (no_nan Dept.time_to_fill_days (dept_latest out) ->
        attains_min Dept.time_to_fill_days (dept_latest out)
          (best_ttf (exec_summary out))).
Proof.
  intros H. destruct (build_insights_built df H) as (out & E & B).
  exists out. split; [exact E|].
  destruct B as [_ _ _ [rest1 Et] [rest2 Eb]]. split; intros Hn.
  - eapply sort_desc_head_max; [exact Hn|exact Et].
  - eapply sort_asc_head_min; [exact Hn|exact Eb].
Qed.

(** C6. For every input with fewer than two distinct months [build_insights]
    raises [IndexError] and returns nothing.  With exactly one month the
    latest row is read and it is the access to the prior row, [iloc[-2]],
    that is out of range; with no row at all already [iloc[-1]] is. *)
Theorem fewer_than_two_months_raises (df : DataFrame) :
  (n_months df < 2)%nat ->
  build_insights df = Raise IndexError
  /\ (n_months df = 1%nat ->
      exists x, iloc (with_mom (monthly_totals df)) (-1) = Ok x
        /\ iloc (with_mom (monthly_totals df)) (-2) = Raise IndexError).
Proof.
  intros H. split; [now apply build_insights_short|].
  intros H1. rewrite <- monthly_totals_length, <- with_mom_length in H1.
  destruct (with_mom (monthly_totals df)) as [|x [|y l]]; try discriminate.
  exists x. split; reflexivity.
Qed.


(** C7. The percentage change is not guarded against a zero prior period:
    whenever a month whose total headcount (or total of new hires) is zero is
    followed by another month, [build_insights] still returns, and the
    following month's [headcount_mom_pct] (or [new_hires_mom_pct]) is an
    infinity or NaN. *)
Theorem zero_prior_period_unguarded (df : DataFrame) :
  (2 <= n_months df)%nat ->
  exists out, build_insights df = Ok out
    /\ forall pre p c post, monthly out = pre ++ p :: c :: post ->
         (Monthly.headcount (Monthly.totals p) = 0 ->
          F64.is_inf_or_nan (Monthly.headcount_mom_pct c))
         /\ (Monthly.new_hires (Monthly.totals p) = 0 ->
             F64.is_inf_or_nan (Monthly.new_hires_mom_pct c)).
Proof.
  intros H. destruct (build_insights_built df H) as (out & E & B).
  exists out. split; [exact E|].
  destruct B as [Em _ _ _ _].
  intros pre p c post Ec. rewrite Em in Ec.
  apply with_mom_consecutive in Ec. destruct Ec as (Eh & En & _).
  split; intros Hz.
  - rewrite Eh, Hz. change (F64.of_int64 0) with 0%float. apply F64.pct_zero.
  - rewrite En, Hz. change (F64.of_int64 0) with 0%float. apply F64.pct_zero.
Qed.


(** *** Loading the metrics file and writing the report *)

(** A row as [read_csv] returns it: the nine columns of the input file. *)
Record RawRecord : Type := {
  raw_month : string;
  raw_department : string;
  raw_headcount : Z;
  raw_new_hires : Z;
  raw_terminations : Z;
  raw_open_positions : Z;
  raw_time_to_fill_days : Z;
  raw_offer_acceptance_rate : float;
  raw_turnover_rate : float
}.

(** The header of the input file: the columns that [load_data] and
    [build_insights] read by name, in the order of the file. *)
Definition input_columns : list string :=
  ["month"; "department"; "headcount"; "new_hires"; "terminations";
   "open_positions"; "time_to_fill_days"; "offer_acceptance_rate";
   "turnover_rate"]%string.

(** What [build_presentation] puts on the five slides. *)
Record Deck : Type := {
  generated_on : string;
  summary_text : string;
  pictures : list string;
  deck_latest : Monthly.row;
  risk_dept : Dept.row;
  low_hc_dept : Dept.row
}.

(** The process's view of the outside: the files and what has been printed. *)
Record World : Type := {
  files : FS.t;
  stdout : list string
}.

Definition io (A : Type) : Type := st World A.

Definition with_files (w : World) (fs : FS.t) : World :=
  {| files := fs; stdout := stdout w |}.

Definition mkdir (p : string) : io unit :=
  fun w =>
    match FS.mkdir (files w) p with
    | Ok fs => (with_files w fs, Ok tt)
    | Raise e => (w, Raise e)
    end.

Definition write_file (p bytes : string) : io unit :=
  fun w =>
    match FS.write (files w) p bytes with
    | Ok fs => (with_files w fs, Ok tt)
    | Raise e => (w, Raise e)
    end.

Definition read_file (p : string) : io string :=
  fun w => (w, FS.read (files w) p).

Definition DATA_PATH : string := "data/hr_metrics_monthly.csv".
Definition OUTPUT_DIR : string := "output".

Fixpoint mapM {A B} (f : A -> result B) (l : list A) : result (list B) :=
  match l with
  | [] => Ok []
  | x :: l' => y <- f x ;; ys <- mapM f l' ;; Ok (y :: ys)
  end.

Section Pipeline.
(** The libraries the script calls: pandas' parsers, matplotlib's and
    python-pptx's renderers, the formatting of the summary, and the clock. *)
Variable read_csv : string -> option (list RawRecord).
Variable to_datetime : string -> option Z.
Variable chart_headcount : list Monthly.row -> string.
Variable chart_hiring : list Monthly.row -> string.
Variable chart_department : list Dept.row -> string.
Variable format_summary : Summary -> string.
Variable pptx_bytes : Deck -> string.
Variable now : string.
(** What writing a line to the standard output raises, if anything, given
    what has been printed so far: [BrokenPipeError] on a closed pipe,
    [UnicodeEncodeError] for a department name the stream's encoding does
    not have. *)
Variable stdout_error : list string -> string -> option exn.

(** [print(line)].  When the stream refuses the line nothing of it is
    written and the error is raised. *)
Definition print (line : string) : io unit :=
  fun w =>
    match stdout_error (stdout w) line with
    | Some e => (w, Raise e)
    | None => ({| files := files w; stdout := stdout w ++ [line] |}, Ok tt)
    end.

(** Line 23: the first day of the row's month.  (The rows of the model
    carry a text in every month cell: a file with an empty month cell, which
    pandas reads as a missing value, is outside it.) *)
Definition add_month_date (r : RawRecord) : result MonthlyRecord :=
  match to_datetime (raw_month r ++ "-01")%string with
  | Some d =>
      Ok {| month := raw_month r; department := raw_department r;
            headcount := raw_headcount r; new_hires := raw_new_hires r;
            terminations := raw_terminations r;
            open_positions := raw_open_positions r;
            time_to_fill_days := raw_time_to_fill_days r;
            offer_acceptance_rate := raw_offer_acceptance_rate r;
            turnover_rate := raw_turnover_rate r;
            month_date := d |}
  | None => Raise ValueError
  end.

(** Lines 19-24.  Whatever [read_csv] raises on a file it cannot parse is
    rendered as [ParserError]. *)
Definition load_data (fs : FS.t) (path : string) : result DataFrame :=
  if negb (FS.exists_ fs path) then Raise FileNotFoundError
  else
    bytes <- FS.read fs path ;;
    raw <- match read_csv bytes with
           | Some rows => Ok rows
           | None => Raise ParserError
           end ;;
    mapM add_month_date raw.

Definition save_chart_headcount (monthly : list Monthly.row) (out_path : string) : io unit :=
  write_file out_path (chart_headcount monthly).

Definition save_chart_hiring (monthly : list Monthly.row) (out_path : string) : io unit :=
  write_file out_path (chart_hiring monthly).

Definition save_chart_department (dept_latest : list Dept.row) (out_path : string) : io unit :=
  write_file out_path (chart_department dept_latest).

Open Scope st_scope.

Definition build_presentation (exec_summary : string) (frames : Insights)
    (headcount_chart hiring_chart dept_chart : string) : io string :=
  _ <-- mkdir OUTPUT_DIR ;;
  pic2 <-- read_file headcount_chart ;;
  pic3 <-- read_file hiring_chart ;;
  pic4 <-- read_file dept_chart ;;
  latest <-- lift (iloc [latest frames] 0) ;;
  risk <-- lift (iloc (turnover_desc (dept_latest frames)) 0) ;;
  low <-- lift (iloc (sort_values Dept.headcount argsort_int64 true
                        (dept_latest frames)) 0) ;;
  let out_pptx := FS.joinpath OUTPUT_DIR "hr_metrics_executive_dashboard.pptx" in
  _ <-- write_file out_pptx
          (pptx_bytes {| generated_on := now; summary_text := exec_summary;
                         pictures := [pic2; pic3; pic4]; deck_latest := latest;
                         risk_dept := risk; low_hc_dept := low |}) ;;
  st_ret out_pptx.

Definition main : io unit :=
  _ <-- mkdir OUTPUT_DIR ;;
  df <-- (fun w => (w, load_data (files w) DATA_PATH)) ;;
  frames <-- lift (build_insights df) ;;
  let exec_summary := format_summary (exec_summary frames) in
  let headcount_chart := FS.joinpath OUTPUT_DIR "headcount_trend.png" in
  let hiring_chart := FS.joinpath OUTPUT_DIR "hiring_turnover_trend.png" in
  let dept_chart := FS.joinpath OUTPUT_DIR "department_breakdown.png" in
  _ <-- save_chart_headcount (monthly frames) headcount_chart ;;
  _ <-- save_chart_hiring (monthly frames) hiring_chart ;;
  _ <-- save_chart_department (dept_latest frames) dept_chart ;;
  pptx_path <-- build_presentation exec_summary frames
                  headcount_chart hiring_chart dept_chart ;;
  let summary_path := FS.joinpath OUTPUT_DIR "executive_summary.txt" in
  _ <-- write_file summary_path (exec_summary ++ String "010" EmptyString)%string ;;
  _ <-- print "Executive Summary:" ;;
  _ <-- print exec_summary ;;
  print (String "010" "Generated:" ++ String "010" "- " ++ pptx_path
         ++ String "010" "- " ++ summary_path
         ++ String "010" "- " ++ headcount_chart
         ++ String "010" "- " ++ hiring_chart
         ++ String "010" "- " ++ dept_chart)%string.

Close Scope st_scope.

Lemma load_data_missing fs path :
  FS.exists_ fs path = false -> load_data fs path = Raise FileNotFoundError.
Proof. intros H. unfold load_data. now rewrite H. Qed.

Lemma mapM_not_missing raw : mapM add_month_date raw <> Raise FileNotFoundError.
Proof.
  induction raw as [|r raw IH]; simpl; [discriminate|].
  unfold add_month_date at 1. destruct (to_datetime _); simpl; [|discriminate].
  destruct (mapM add_month_date raw) as [ys|e]; simpl; [discriminate|].
  intros C. apply IH. exact C.
Qed.

Lemma load_data_present fs path :
  FS.exists_ fs path = true -> load_data fs path <> Raise FileNotFoundError.
Proof.
  intros H. unfold load_data, FS.exists_, FS.read in *. 
  destruct (fs path) as [[bytes|]|]; simpl; try discriminate.
  destruct (read_csv bytes); simpl; [apply mapM_not_missing|discriminate].
Qed.

Definition month_parses (r : RawRecord) : Prop :=
  to_datetime (raw_month r ++ "-01")%string <> None.

Lemma mapM_parses raw :
  Forall month_parses raw ->
  exists df, mapM add_month_date raw = Ok df /\ map month df = map raw_month raw.
Proof.
  induction 1 as [|r raw Hr Hraw (df & E & Em)]; simpl.
  - now exists [].
  - unfold add_month_date at 1. unfold month_parses in Hr.
    destruct (to_datetime _) as [d|]; [|congruence]. simpl. rewrite E. simpl.
    eexists. split; [reflexivity|]. simpl. now rewrite Em.
Qed.

(** A file that exists and parses is loaded. *)
Lemma load_data_parses fs path bytes raw :
  fs path = Some (FS.File bytes) -> read_csv bytes = Some raw ->
  Forall month_parses raw ->
  exists df, load_data fs path = Ok df /\ map month df = map raw_month raw.
Proof.
  intros Hf Hc Hm. unfold load_data, FS.exists_, FS.read. rewrite Hf. simpl.
  rewrite Hc. simpl. now apply mapM_parses.
Qed.

(** [main] when the metrics file is missing: the directory is made, then
    [load_data] raises. *)
Lemma main_missing w :
  FS.exists_ (files w) DATA_PATH = false ->
  main w = match FS.mkdir (files w) OUTPUT_DIR with
           | Ok fs => (with_files w fs, Raise FileNotFoundError)
           | Raise e => (w, Raise e)
           end.
Proof.
  intros H. unfold main, st_bind, mkdir.
  destruct (FS.mkdir (files w) OUTPUT_DIR) as [fs|e] eqn:E; [|reflexivity].
  assert (Hfs : FS.exists_ fs DATA_PATH = false).
  { unfold FS.mkdir in E. destruct (files w OUTPUT_DIR) as [[b|]|] eqn:Eo;
      try discriminate; injection E as <-; [exact H|].
    unfold FS.exists_, FS.update in *. simpl. exact H. }
  simpl. now rewrite (load_data_missing _ _ Hfs).
Qed.

(** C5, amended.  If the metrics file does not exist, [load_data] raises
    [FileNotFoundError], and so does [main] (unless the output path is a
    regular file, on which [mkdir] has already raised); no output file is
    written and nothing is printed: every path holds what it held before,
    except that [main] has created the output directory if it was absent.
    Whenever the path exists, [load_data] does not raise
    [FileNotFoundError], and it returns the frame if the file parses. *)
Theorem missing_input_writes_no_file (w : World) :
  FS.exists_ (files w) DATA_PATH = false ->
  load_data (files w) DATA_PATH = Raise FileNotFoundError
  /\ snd (main w) = match files w OUTPUT_DIR with
                    | Some (FS.File _) => Raise FileExistsError
                    | _ => Raise FileNotFoundError
                    end
  /\ stdout (fst (main w)) = stdout w
  /\ (forall p, p <> OUTPUT_DIR -> files (fst (main w)) p = files w p)
  /\ (files (fst (main w)) OUTPUT_DIR = files w OUTPUT_DIR
      \/ files w OUTPUT_DIR = None /\ files (fst (main w)) OUTPUT_DIR = Some FS.Dir)
  /\ (forall fs path, FS.exists_ fs path = true ->
        load_data fs path <> Raise FileNotFoundError
        /\ forall bytes raw,
             fs path = Some (FS.File bytes) -> read_csv bytes = Some raw ->
             Forall month_parses raw ->
             exists df, load_data fs path = Ok df
                        /\ map month df = map raw_month raw).
Proof.
  assert (P : forall fs path, FS.exists_ fs path = true ->
        load_data fs path <> Raise FileNotFoundError
        /\ forall bytes raw,
             fs path = Some (FS.File bytes) -> read_csv bytes = Some raw ->
             Forall month_parses raw ->
             exists df, load_data fs path = Ok df
                        /\ map month df = map raw_month raw).
  { intros fs path He. split; [now apply load_data_present|].
    intros bytes raw. apply load_data_parses. }
  intros H. split; [now apply load_data_missing|].
  rewrite (main_missing _ H). unfold FS.mkdir.
  destruct (files w OUTPUT_DIR) as [[bytes|]|] eqn:Eo; simpl;
    (split; [reflexivity|]); (split; [reflexivity|]).
  - split; [reflexivity|]. split; [now left|]. exact P.
  - split; [reflexivity|]. split; [now left|]. exact P.
  - split.
    + intros p Hp. unfold FS.update. apply String.eqb_neq in Hp. now rewrite Hp.
    + split; [|exact P].
      right. split; [reflexivity|]. unfold FS.update. now rewrite String.eqb_refl.
Qed.

Lemma load_data_ext fs fs' path :
  fs path = fs' path -> load_data fs path = load_data fs' path.
Proof. intros H. unfold load_data, FS.exists_, FS.read. now rewrite H. Qed.


(** *** The files and the output of a run *)

(** The five files [main] writes into the output directory. *)
Definition headcount_chart : string := FS.joinpath OUTPUT_DIR "headcount_trend.png".
Definition hiring_chart : string := FS.joinpath OUTPUT_DIR "hiring_turnover_trend.png".
Definition dept_chart : string := FS.joinpath OUTPUT_DIR "department_breakdown.png".
Definition out_pptx : string :=
  FS.joinpath OUTPUT_DIR "hr_metrics_executive_dashboard.pptx".
Definition summary_path : string := FS.joinpath OUTPUT_DIR "executive_summary.txt".

Definition artifacts : list string :=
  [headcount_chart; hiring_chart; dept_chart; out_pptx; summary_path].

(** A command changes no path outside [ps]. *)
Definition touches_only {A} (ps : list string) (m : io A) : Prop :=
  forall w p, ~ In p ps -> files (fst (m w)) p = files w p.

(** A command prints nothing. *)
Definition silent {A} (m : io A) : Prop :=
  forall w, stdout (fst (m w)) = stdout w.

Lemma touches_bind {A B} ps (m : io A) (k : A -> io B) :
  touches_only ps m -> (forall a, touches_only ps (k a)) ->
  touches_only ps (st_bind m k).
Proof.
  intros Hm Hk w p Hp. unfold st_bind. cbv zeta.
  destruct (snd (m w)) as [a|e].
  - rewrite (Hk a _ _ Hp). now apply Hm.
  - now apply Hm.
Qed.

Lemma silent_bind {A B} (m : io A) (k : A -> io B) :
  silent m -> (forall a, silent (k a)) -> silent (st_bind m k).
Proof.
  intros Hm Hk w. unfold st_bind. cbv zeta.
  destruct (snd (m w)) as [a|e].
  - rewrite (Hk a). apply Hm.
  - apply Hm.
Qed.

Lemma update_other fs p q n : q <> p -> FS.update fs p n q = fs q.
Proof. intros H. unfold FS.update. apply String.eqb_neq in H. now rewrite H. Qed.

Lemma update_same fs p n : FS.update fs p n p = Some n.
Proof. unfold FS.update. now rewrite String.eqb_refl. Qed.

Lemma touches_mkdir ps p : In p ps -> touches_only ps (mkdir p).
Proof.
  intros Hin w q Hq. unfold mkdir, FS.mkdir.
  destruct (files w p) as [[b|]|]; simpl; try reflexivity.
  apply update_other. intros ->. now apply Hq.
Qed.

Lemma touches_write ps p bytes : In p ps -> touches_only ps (write_file p bytes).
Proof.
  intros Hin w q Hq. unfold write_file, FS.write.
  assert (Hne : q <> p) by (intros ->; now apply Hq).
  destruct (files w p) as [[b|]|]; simpl; try reflexivity;
    now apply update_other.
Qed.

Lemma touches_pure {A} ps (f : World -> result A) :
  touches_only ps (fun w => (w, f w)).
Proof. intros w p _. reflexivity. Qed.

Lemma touches_print ps line : touches_only ps (print line).
Proof. intros w p _. unfold print. now destruct (stdout_error _ _). Qed.

Lemma silent_mkdir p : silent (mkdir p).
Proof. intros w. unfold mkdir. now destruct (FS.mkdir (files w) p). Qed.

Lemma silent_write p bytes : silent (write_file p bytes).
Proof. intros w. unfold write_file. now destruct (FS.write (files w) p bytes). Qed.

Lemma silent_pure {A} (f : World -> result A) : silent (fun w => (w, f w)).
Proof. intros w. reflexivity. Qed.

Lemma touches_build_presentation s frames c2 c3 c4 :
  touches_only [OUTPUT_DIR; out_pptx] (build_presentation s frames c2 c3 c4).
Proof.
  unfold build_presentation.
  apply touches_bind; [apply touches_mkdir; now left|intros _].
  repeat (apply touches_bind; [apply touches_pure|intros ?]).
  apply touches_bind; [apply touches_write; right; now left|intros _].
  apply touches_pure.
Qed.

Lemma silent_build_presentation s frames c2 c3 c4 :
  silent (build_presentation s frames c2 c3 c4).
Proof.
  unfold build_presentation.
  apply silent_bind; [apply silent_mkdir|intros _].
  repeat (apply silent_bind; [apply silent_pure|intros ?]).
  apply silent_bind; [apply silent_write|intros _].
  apply silent_pure.
Qed.

Lemma touches_weaken {A} ps qs (m : io A) :
  incl ps qs -> touches_only ps m -> touches_only qs m.
Proof. intros Hi H w p Hp. apply H. intros C. apply Hp. now apply Hi. Qed.

Lemma touches_main : touches_only (OUTPUT_DIR :: artifacts) main.
Proof.
  unfold main.
  apply touches_bind; [apply touches_mkdir; now left|intros _].
  apply touches_bind; [apply touches_pure|intros df].
  apply touches_bind; [apply touches_pure|intros frames]. cbv zeta.
  apply touches_bind;
    [apply touches_write; right; now left|intros _].
  apply touches_bind;
    [apply touches_write; right; right; now left|intros _].
  apply touches_bind;
    [apply touches_write; right; right; right; now left|intros _].
  apply touches_bind.
  { eapply touches_weaken; [|apply touches_build_presentation].
    intros p [<-|[<-|[]]]; [now left|]. right. right. right. right. now left. }
  intros pptx_path.
  apply touches_bind;
    [apply touches_write; right; right; right; right; right; now left|intros _].
  repeat (apply touches_bind; [apply touches_print|intros _]).
  apply touches_print.
Qed.

(** X9. A run of the report builder touches nothing but its outputs:
    whatever the starting state, whatever the libraries return and whether
    or not the run succeeds, every path other than the output directory and
    the five files in it holds afterwards what it held before.  In
    particular the metrics file is never modified. *)
Theorem report_touches_only_its_outputs (w : World) (p : string) :
  p <> OUTPUT_DIR -> ~ In p artifacts ->
  files (fst (main w)) p = files w p
  /\ files (fst (main w)) DATA_PATH = files w DATA_PATH.
Proof.
  intros Hd Ha. split.
  - apply touches_main. intros [C|C]; [now apply Hd|now apply Ha].
  - apply touches_main. intros C.
    repeat (destruct C as [C|C]; [discriminate C|]). exact C.
Qed.

(** *** The order of writing and printing *)

(** A command run from a state that satisfies [P] leaves a state that
    satisfies [Q] when it returns and [E] when it raises. *)
Definition hoare {A} (P : World -> Prop) (m : io A) (Q : A -> World -> Prop)
    (E : exn -> World -> Prop) : Prop :=
  forall w, P w -> match snd (m w) with
                   | Ok a => Q a (fst (m w))
                   | Raise e => E e (fst (m w))
                   end.

Lemma hoare_bind {A B} P (m : io A) Q (k : A -> io B) R E :
  hoare P m Q E -> (forall a, hoare (Q a) (k a) R E) -> hoare P (st_bind m k) R E.
Proof.
  intros Hm Hk w Hw. specialize (Hm w Hw). unfold st_bind. cbv zeta.
  destruct (snd (m w)) as [a|e]; cbn [fst snd].
  - exact (Hk a _ Hm).
  - exact Hm.
Qed.

Definition is_file (w : World) (p : string) : Prop :=
  exists bytes, files w p = Some (FS.File bytes).

(** A command leaves every regular file a regular file. *)
Definition keeps_files {A} (m : io A) : Prop :=
  forall w p, is_file w p -> is_file (fst (m w)) p.

Lemma keeps_files_mkdir p : keeps_files (mkdir p).
Proof.
  intros w q [bytes Hq]. unfold mkdir, FS.mkdir, is_file.
  destruct (files w p) as [[b|]|] eqn:Ep; cbn [fst files with_files];
    exists bytes; try exact Hq.
  rewrite update_other; [exact Hq|]. intros ->. congruence.
Qed.

Lemma keeps_files_write p bytes : keeps_files (write_file p bytes).
Proof.
  intros w q [b Hq]. unfold write_file, FS.write, is_file.
  destruct (String.eqb_spec q p) as [->|Hne].
  - rewrite Hq. cbn [fst files with_files]. exists bytes. apply update_same.
  - destruct (files w p) as [[b'|]|]; cbn [fst files with_files];
      exists b; try exact Hq; now rewrite update_other.
Qed.

Lemma keeps_files_pure {A} (f : World -> result A) : keeps_files (fun w => (w, f w)).
Proof. intros w p H. exact H. Qed.

Section Run.
(** The state in which [main] starts. *)
Variable w0 : World.

(** While the files are written: nothing has been printed, the path of the
    summary text is as it was, and the paths [ps] hold regular files. *)
Definition writing (ps : list string) (w : World) : Prop :=
  stdout w = stdout w0 /\ files w summary_path = files w0 summary_path
  /\ Forall (is_file w) ps.

(** While the run is announced: the five files are there, and [printed] has
    been printed. *)
Definition announcing (printed : list string) (w : World) : Prop :=
  Forall (is_file w) artifacts /\ stdout w = stdout w0 ++ printed.

(** A run that raised: either nothing was printed and the summary text was
    not written, or the five files are there and it is the standard output
    that raised, at one of the three messages. *)
Definition failed (e : exn) (w : World) : Prop :=
  (stdout w = stdout w0 /\ files w summary_path = files w0 summary_path)
  \/ (Forall (is_file w) artifacts
      /\ exists printed line,
           stdout w = stdout w0 ++ printed /\ (List.length printed < 3)%nat
           /\ stdout_error (stdout w0 ++ printed) line = Some e).

Lemma hoare_writing {A} ps qs (m : io A) :
  silent m -> touches_only qs m -> ~ In summary_path qs -> keeps_files m ->
  hoare (writing ps) m (fun _ => writing ps) failed.
Proof.
  intros Hs Ht Hq Hk w (H1 & H2 & H3).
  assert (W : writing ps (fst (m w))).
  { split; [now rewrite Hs|]. split; [now rewrite (Ht w _ Hq)|].
    eapply Forall_impl; [|exact H3]. intros p. apply Hk. }
  destruct (snd (m w)); [exact W|].
  left. destruct W as (W1 & W2 & _). now split.
Qed.

Lemma hoare_pure {A} ps (f : World -> result A) :
  hoare (writing ps) (fun w => (w, f w)) (fun _ => writing ps) failed.
Proof.
  apply (@hoare_writing _ ps []); [apply silent_pure|apply touches_pure| |apply keeps_files_pure].
  intros [].
Qed.

Lemma hoare_mkdir ps :
  hoare (writing ps) (mkdir OUTPUT_DIR) (fun _ => writing ps) failed.
Proof.
  apply (@hoare_writing _ ps [OUTPUT_DIR]);
    [apply silent_mkdir|apply touches_mkdir; now left| |apply keeps_files_mkdir].
  intros [C|[]]. discriminate C.
Qed.

Lemma is_file_update w p bytes q :
  is_file w q -> is_file (with_files w (FS.update (files w) p (FS.File bytes))) q.
Proof.
  intros [b Hq]. unfold is_file. cbn [files with_files].
  destruct (String.eqb_spec q p) as [->|Hne].
  - exists bytes. apply update_same.
  - exists b. now rewrite update_other.
Qed.

Lemma writing_update ps p bytes w :
  p <> summary_path -> writing ps w ->
  writing (p :: ps) (with_files w (FS.update (files w) p (FS.File bytes))).
Proof.
  intros Hp (H1 & H2 & H3). split; [exact H1|]. split.
  - cbn [files with_files]. rewrite update_other; [exact H2|].
    intros C. apply Hp. now symmetry.
  - constructor.
    + exists bytes. apply update_same.
    + eapply Forall_impl; [|exact H3]. intros q. apply is_file_update.
Qed.

Lemma hoare_write ps p bytes :
  p <> summary_path ->
  hoare (writing ps) (write_file p bytes) (fun _ => writing (p :: ps)) failed.
Proof.
  intros Hp w W. unfold write_file, FS.write.
  destruct (files w p) as [[b|]|]; cbn [fst snd].
  - now apply writing_update.
  - left. destruct W as (H1 & H2 & _). now split.
  - now apply writing_update.
Qed.

Lemma hoare_build_presentation ps s frames c2 c3 c4 :
  hoare (writing ps) (build_presentation s frames c2 c3 c4)
    (fun _ => writing (out_pptx :: ps)) failed.
Proof.
  unfold build_presentation.
  eapply hoare_bind; [apply hoare_mkdir|intros ?; cbv beta].
  do 6 (eapply hoare_bind; [apply hoare_pure|intros ?; cbv beta]). cbv zeta.
  eapply hoare_bind; [apply hoare_write; discriminate|intros ?; cbv beta].
  intros w W. exact W.
Qed.

Lemma announcing_update bytes w :
  writing [out_pptx; dept_chart; hiring_chart; headcount_chart] w ->
  announcing [] (with_files w (FS.update (files w) summary_path (FS.File bytes))).
Proof.
  intros (H1 & H2 & H3).
  split; [|cbn [stdout with_files]; now rewrite app_nil_r].
  rewrite Forall_forall in H3. unfold artifacts.
  do 4 (constructor; [apply is_file_update, H3; cbn [In]; tauto|]).
  constructor; [|constructor]. exists bytes. apply update_same.
Qed.

Lemma hoare_summary bytes :
  hoare (writing [out_pptx; dept_chart; hiring_chart; headcount_chart])
    (write_file summary_path bytes) (fun _ => announcing []) failed.
Proof.
  intros w W. unfold write_file, FS.write.
  destruct (files w summary_path) as [[b|]|]; cbn [fst snd].
  - now apply announcing_update.
  - left. destruct W as (H1 & H2 & _). now split.
  - now apply announcing_update.
Qed.

Lemma hoare_print printed line :
  (List.length printed < 3)%nat ->
  hoare (announcing printed) (print line)
    (fun _ => announcing (printed ++ [line])) failed.
Proof.
  intros Hl w (H1 & H2). unfold print.
  destruct (stdout_error (stdout w) line) as [e|] eqn:Ee; cbn [fst snd].
  - right. split; [exact H1|]. exists printed, line.
    split; [exact H2|]. split; [exact Hl|]. now rewrite <- H2.
  - split; [exact H1|]. cbn [stdout]. now rewrite H2, app_assoc.
Qed.

Lemma hoare_post {A} P (m : io A) (Q Q' : A -> World -> Prop) E :
  hoare P m Q E -> (forall a w, Q a w -> Q' a w) -> hoare P m Q' E.
Proof.
  intros H HQ w Hw. specialize (H w Hw).
  destruct (snd (m w)); [now apply HQ|exact H].
Qed.

Lemma hoare_main :
  hoare (writing []) main (fun _ w => exists printed, announcing printed w) failed.
Proof.
  unfold main.
  eapply hoare_bind; [apply hoare_mkdir|intros ?; cbv beta].
  eapply hoare_bind; [apply hoare_pure|intros df; cbv beta].
  eapply hoare_bind; [apply hoare_pure|intros frames; cbv beta]. cbv zeta.
  unfold save_chart_headcount, save_chart_hiring, save_chart_department.
  eapply hoare_bind; [apply hoare_write; discriminate|intros ?; cbv beta].
  eapply hoare_bind; [apply hoare_write; discriminate|intros ?; cbv beta].
  eapply hoare_bind; [apply hoare_write; discriminate|intros ?; cbv beta].
  eapply hoare_bind; [apply hoare_build_presentation|intros pptx_path; cbv beta].
  eapply hoare_bind; [apply hoare_summary|intros ?; cbv beta].
  eapply hoare_bind; [apply hoare_print; simpl; lia|intros ?; cbv beta].
  eapply hoare_bind; [apply hoare_print; simpl; lia|intros ?; cbv beta].
  eapply hoare_post; [apply hoare_print; simpl; lia|].
  intros ? w H. eexists. exact H.
Qed.

End Run.

(** X10. The report builder writes before it prints.  A run that raises, at
    whatever step, has either printed nothing and left the path of
    [executive_summary.txt] as it was, or it has written all five files and
    it is the standard output that raised, at one of the three messages that
    announce them. *)
Theorem failed_run_printed_after_writing (w : World) (e : exn) :
  snd (main w) = Raise e ->
  (stdout (fst (main w)) = stdout w
   /\ files (fst (main w)) summary_path = files w summary_path)
  \/ ((forall p, In p artifacts ->
         exists bytes, files (fst (main w)) p = Some (FS.File bytes))
      /\ exists printed line,
           stdout (fst (main w)) = stdout w ++ printed
           /\ (List.length printed < 3)%nat
           /\ stdout_error (stdout w ++ printed) line = Some e).
Proof.
  intros H.
  pose proof (@hoare_main w w (conj eq_refl (conj eq_refl (Forall_nil _)))) as M.
  rewrite H in M. destruct M as [M|(F & M)]; [left; exact M|right].
  split; [|exact M]. rewrite Forall_forall in F. exact F.
Qed.

(** *** A successful run, step by step *)

Lemma st_bind_ok {A B} (m : io A) (k : A -> io B) w w' a :
  m w = (w', Ok a) -> st_bind m k w = k a w'.
Proof. intros E. unfold st_bind. now rewrite E. Qed.

Lemma st_bind_raise {A B} (m : io A) (k : A -> io B) w w' e :
  m w = (w', Raise e) -> st_bind m k w = (w', Raise e).
Proof. intros E. unfold st_bind. now rewrite E. Qed.

Lemma lift_ok_bind {A B} (a : A) (k : A -> io B) w :
  st_bind (lift (Ok a)) k w = k a w.
Proof. reflexivity. Qed.

Ltac step E := rewrite (@st_bind_ok _ _ _ _ _ _ _ E).

Lemma mkdir_run w p fs :
  FS.mkdir (files w) p = Ok fs -> mkdir p w = (with_files w fs, Ok tt).
Proof. intros E. unfold mkdir. now rewrite E. Qed.

Lemma write_file_run w p bytes :
  files w p <> Some FS.Dir ->
  write_file p bytes w
  = (with_files w (FS.update (files w) p (FS.File bytes)), Ok tt).
Proof.
  intros H. unfold write_file, FS.write.
  destruct (files w p) as [[b|]|]; try reflexivity. now destruct H.
Qed.

Lemma read_file_run w p bytes :
  files w p = Some (FS.File bytes) -> read_file p w = (w, Ok bytes).
Proof. intros E. unfold read_file, FS.read. now rewrite E. Qed.

(** The directory [mkdir] leaves behind. *)
Lemma mkdir_ok fs p :
  (forall b, fs p <> Some (FS.File b)) ->
  exists fs', FS.mkdir fs p = Ok fs' /\ fs' p = Some FS.Dir
    /\ forall q, q <> p -> fs' q = fs q.
Proof.
  intros H. unfold FS.mkdir. destruct (fs p) as [[b|]|] eqn:E.
  - now destruct (H b).
  - exists fs. auto.
  - exists (FS.update fs p FS.Dir). split; [reflexivity|].
    split; [apply update_same|]. intros q Hq. now apply update_other.
Qed.

Lemma mkdir_existing fs p : fs p = Some FS.Dir -> FS.mkdir fs p = Ok fs.
Proof. intros E. unfold FS.mkdir. now rewrite E. Qed.

(** The row [build_presentation] names as the department to hire for: a row
    of the table with the least headcount.  (Among rows that tie on it the
    choice is numpy's.) *)
Definition least_headcount (frame : list Dept.row) (low : Dept.row) : Prop :=
  In low frame /\ forall r, In r frame -> Dept.headcount low <= Dept.headcount r.

Lemma headcount_asc_head frame :
  frame <> [] ->
  exists low, iloc (sort_values Dept.headcount argsort_int64 true frame) 0 = Ok low
    /\ least_headcount frame low.
Proof.
  intros Hne.
  assert (Hn : Forall (fun r : Dept.row => never_na (Dept.headcount r) = false) frame)
    by (apply Forall_forall; reflexivity).
  destruct (sort_values Dept.headcount argsort_int64 true frame) as [|low rest] eqn:E.
  { exfalso. apply Hne. apply Permutation_nil. rewrite <- E.
    apply sort_values_perm. }
  exists low. split; [apply iloc_head|].
  destruct (sort_values_head Dept.headcount argsort_int64
              (fun a _ => Z.leb_refl a) true Hn E) as [Hin Hle].
  split; [exact Hin|]. intros r Hr. apply Z.leb_le. exact (Hle r Hr).
Qed.

Lemma print_run w line :
  stdout_error (stdout w) line = None ->
  print line w = ({| files := files w; stdout := stdout w ++ [line] |}, Ok tt).
Proof. intros E. unfold print. now rewrite E. Qed.

(** The deck of a run whose charts hold [pic2], [pic3] and [pic4]. *)
Definition deck_of (exec_summary : string) (frames : Insights)
    (pic2 pic3 pic4 : string) (low : Dept.row) : Deck :=
  {| generated_on := now; summary_text := exec_summary;
     pictures := [pic2; pic3; pic4]; deck_latest := latest frames;
     risk_dept := top_turnover (ReportBuilder.exec_summary frames);
     low_hc_dept := low |}.

Lemma build_presentation_run s df frames c2 c3 c4 w fs pic2 pic3 pic4 :
  build_insights df = Ok frames ->
  FS.mkdir (files w) OUTPUT_DIR = Ok fs ->
  fs c2 = Some (FS.File pic2) -> fs c3 = Some (FS.File pic3) ->
  fs c4 = Some (FS.File pic4) -> fs out_pptx <> Some FS.Dir ->
  exists low, least_headcount (dept_latest frames) low
    /\ build_presentation s frames c2 c3 c4 w
       = (with_files w (FS.update fs out_pptx
                          (FS.File (pptx_bytes (deck_of s frames pic2 pic3 pic4 low)))),
          Ok out_pptx).
Proof.
  intros Hb Hm H2 H3 H4 Hp.
  assert (Hn : (2 <= n_months df)%nat).
  { destruct (le_lt_dec 2 (n_months df)) as [H|H]; [exact H|].
    rewrite (build_insights_short df H) in Hb. discriminate. }
  destruct (build_insights_built df Hn) as (out & E & B).
  rewrite Hb in E. injection E as <-.
  destruct B as [Hmon (pre & Hl) Hd (rest & Ht) _].
  assert (Hne : dept_latest frames <> []).
  { rewrite Hd. apply dept_snapshot_nonempty.
    apply monthly_totals_month_iff. unfold month_of.
    apply in_map. apply with_mom_In. rewrite <- Hmon.
    rewrite Hl. apply in_or_app. right. right. now left. }
  destruct (headcount_asc_head Hne) as (low & El & Hlow).
  exists low. split; [exact Hlow|].
  unfold build_presentation.
  step (mkdir_run w OUTPUT_DIR Hm).
  step (read_file_run (with_files w fs) c2 H2).
  step (read_file_run (with_files w fs) c3 H3).
  step (read_file_run (with_files w fs) c4 H4).
  rewrite iloc_head, lift_ok_bind.
  rewrite Ht, iloc_head, lift_ok_bind.
  rewrite El, lift_ok_bind. cbv zeta.
  step (write_file_run (with_files w fs) out_pptx
          (pptx_bytes (deck_of s frames pic2 pic3 pic4 low)) Hp).
  reflexivity.
Qed.


(** The last line [main] prints. *)
Definition generated_listing : string :=
  (String "010" "Generated:" ++ String "010" "- " ++ out_pptx
   ++ String "010" "- " ++ summary_path
   ++ String "010" "- " ++ headcount_chart
   ++ String "010" "- " ++ hiring_chart
   ++ String "010" "- " ++ dept_chart)%string.

Lemma artifact_not_dir p : In p artifacts -> p <> OUTPUT_DIR.
Proof.
  intros H ->. repeat (destruct H as [H|H]; [discriminate H|]). exact H.
Qed.

Lemma main_run w df frames :
  (forall b, files w OUTPUT_DIR <> Some (FS.File b)) ->
  load_data (files w) DATA_PATH = Ok df ->
  build_insights df = Ok frames ->
  (forall p, In p artifacts -> files w p <> Some FS.Dir) ->
  stdout_error (stdout w) "Executive Summary:" = None ->
  stdout_error (stdout w ++ ["Executive Summary:"%string])
    (format_summary (exec_summary frames)) = None ->
  stdout_error ((stdout w ++ ["Executive Summary:"%string])
                ++ [format_summary (exec_summary frames)])
    generated_listing = None ->
  exists fs low,
    FS.mkdir (files w) OUTPUT_DIR = Ok fs
    /\ least_headcount (dept_latest frames) low
    /\ main w
       = ({| files :=
               FS.update
                 (FS.update
                    (FS.update
                       (FS.update
                          (FS.update fs headcount_chart
                             (FS.File (chart_headcount (monthly frames))))
                          hiring_chart (FS.File (chart_hiring (monthly frames))))
                       dept_chart (FS.File (chart_department (dept_latest frames))))
                    out_pptx
                    (FS.File
                       (pptx_bytes
                          (deck_of (format_summary (exec_summary frames)) frames
                             (chart_headcount (monthly frames))
                             (chart_hiring (monthly frames))
                             (chart_department (dept_latest frames)) low))))
                 summary_path
                 (FS.File (format_summary (exec_summary frames)
                           ++ String "010" EmptyString));
             stdout := ((stdout w ++ ["Executive Summary:"%string])
                        ++ [format_summary (exec_summary frames)])
                       ++ [generated_listing] |},
          Ok tt).
Proof.
  intros Hdir Hload Hins Hart Hp1 Hp2 Hp3.
  destruct (mkdir_ok (files w) OUTPUT_DIR Hdir) as (fs & Hm & Hfd & Hfo).
  assert (Hfa : forall p, In p artifacts -> fs p <> Some FS.Dir).
  { intros p Hp. rewrite (Hfo p (artifact_not_dir Hp)). now apply Hart. }
  assert (Hl : load_data fs DATA_PATH = Ok df).
  { rewrite <- Hload. apply load_data_ext. apply Hfo. discriminate. }
  set (pic2 := chart_headcount (monthly frames)).
  set (pic3 := chart_hiring (monthly frames)).
  set (pic4 := chart_department (dept_latest frames)).
  set (text := format_summary (exec_summary frames)).
  set (fs2 := FS.update fs headcount_chart (FS.File pic2)).
  set (fs3 := FS.update fs2 hiring_chart (FS.File pic3)).
  set (fs4 := FS.update fs3 dept_chart (FS.File pic4)).
  assert (H2 : fs headcount_chart <> Some FS.Dir) by (apply Hfa; now left).
  assert (H3 : fs2 hiring_chart <> Some FS.Dir).
  { unfold fs2. rewrite update_other by discriminate.
    apply Hfa. right. now left. }
  assert (H4 : fs3 dept_chart <> Some FS.Dir).
  { unfold fs3, fs2. rewrite !update_other by discriminate.
    apply Hfa. right. right. now left. }
  assert (H5 : fs4 out_pptx <> Some FS.Dir).
  { unfold fs4, fs3, fs2. rewrite !update_other by discriminate.
    apply Hfa. right. right. right. now left. }
  assert (Hd4 : FS.mkdir fs4 OUTPUT_DIR = Ok fs4).
  { apply mkdir_existing. unfold fs4, fs3, fs2.
    rewrite !update_other by discriminate. exact Hfd. }
  assert (R2 : fs4 headcount_chart = Some (FS.File pic2)).
  { unfold fs4, fs3, fs2. rewrite !update_other by discriminate.
    apply update_same. }
  assert (R3 : fs4 hiring_chart = Some (FS.File pic3)).
  { unfold fs4, fs3. rewrite update_other by discriminate. apply update_same. }
  assert (R4 : fs4 dept_chart = Some (FS.File pic4)) by apply update_same.
  destruct (@build_presentation_run text df frames headcount_chart hiring_chart
              dept_chart {| files := fs4; stdout := stdout w |} fs4 pic2 pic3 pic4
              Hins Hd4 R2 R3 R4 H5) as (low & Hlow & Ebp).
  set (fs5 := FS.update fs4 out_pptx
                (FS.File (pptx_bytes (deck_of text frames pic2 pic3 pic4 low)))) in *.
  assert (H6 : fs5 summary_path <> Some FS.Dir).
  { unfold fs5, fs4, fs3, fs2. rewrite !update_other by discriminate.
    apply Hfa. right. right. right. right. now left. }
  exists fs, low. split; [exact Hm|]. split; [exact Hlow|].
  unfold main.
  step (mkdir_run w OUTPUT_DIR Hm).
  rewrite (@st_bind_ok _ _ _ _ (with_files w fs) (with_files w fs) df)
    by (cbn [files with_files]; now rewrite Hl).
  rewrite Hins, lift_ok_bind. cbv zeta.
  unfold save_chart_headcount, save_chart_hiring, save_chart_department.
  fold text pic2 pic3 pic4.
  step (write_file_run (with_files w fs) headcount_chart pic2 H2).
  step (write_file_run {| files := fs2; stdout := stdout w |} hiring_chart pic3 H3).
  step (write_file_run {| files := fs3; stdout := stdout w |} dept_chart pic4 H4).
  step Ebp.
  step (write_file_run {| files := fs5; stdout := stdout w |} summary_path
          (text ++ String "010" EmptyString)%string H6).
  cbn [files stdout with_files].
  set (fs6 := FS.update fs5 summary_path
                (FS.File (text ++ String "010" EmptyString)%string)).
  step (@print_run {| files := fs6; stdout := stdout w |} "Executive Summary:" Hp1).
  cbn [files stdout].
  step (@print_run {| files := fs6;
                      stdout := stdout w ++ ["Executive Summary:"%string] |}
          text Hp2).
  cbn [files stdout].
  exact (@print_run {| files := fs6;
                       stdout := (stdout w ++ ["Executive Summary:"%string])
                                 ++ [text] |}
           generated_listing Hp3).
Qed.


(** X11. What [build_presentation] puts into the deck.  Called with the
    frames of [build_insights] and three chart files that exist in the
    output directory, it saves the deck and returns its path.  The pictures
    of slides 2 to 4 are the bytes of the three chart files at the time of
    the call; the highest-risk department of slide 5, sorted out again from
    the department table, is the very row the executive summary names as
    having the highest turnover; the department to hire for is a row of
    the table with the least headcount. *)
Theorem deck_agrees_with_summary (s : string) (df : DataFrame) (frames : Insights)
    (c2 c3 c4 : string) (w : World) (pic2 pic3 pic4 : string) :
  build_insights df = Ok frames ->
  files w OUTPUT_DIR = Some FS.Dir ->
  files w c2 = Some (FS.File pic2) -> files w c3 = Some (FS.File pic3) ->
  files w c4 = Some (FS.File pic4) -> files w out_pptx <> Some FS.Dir ->
  exists low,
    least_headcount (dept_latest frames) low
    /\ snd (build_presentation s frames c2 c3 c4 w) = Ok out_pptx
    /\ files (fst (build_presentation s frames c2 c3 c4 w)) out_pptx
       = Some (FS.File (pptx_bytes
           {| generated_on := now; summary_text := s;
              pictures := [pic2; pic3; pic4]; deck_latest := latest frames;
              risk_dept := top_turnover (exec_summary frames);
              low_hc_dept := low |})).
Proof.
  intros Hb Hd H2 H3 H4 Hp.
  destruct (@build_presentation_run s df frames c2 c3 c4 w (files w) pic2 pic3 pic4
              Hb (mkdir_existing _ _ Hd) H2 H3 H4 Hp) as (low & Hlow & E).
  exists low. split; [exact Hlow|]. rewrite E. cbn [fst snd files with_files].
  split; [reflexivity|]. apply update_same.
Qed.

(** X12. A successful run.  If the output path is not taken by a regular
    file, the metrics file loads, it covers at least two months (so that
    [build_insights] returns), none of the five output paths is a directory
    and the standard output accepts the three messages, then [main] returns
    normally, the output directory exists, the three charts, the deck and
    the summary text (with a final newline) are in it, the deck holding the
    very charts and summary text written in this run, and exactly three
    messages have been printed: the heading, the summary and the listing of
    the five files. *)
Theorem report_run_writes_five_files (w : World) (df : DataFrame) (frames : Insights) :
  (forall b, files w OUTPUT_DIR <> Some (FS.File b)) ->
  load_data (files w) DATA_PATH = Ok df ->
  build_insights df = Ok frames ->
  (forall p, In p artifacts -> files w p <> Some FS.Dir) ->
  stdout_error (stdout w) "Executive Summary:" = None ->
  stdout_error (stdout w ++ ["Executive Summary:"%string])
    (format_summary (exec_summary frames)) = None ->
  stdout_error ((stdout w ++ ["Executive Summary:"%string])
                ++ [format_summary (exec_summary frames)])
    generated_listing = None ->
  snd (main w) = Ok tt
  /\ files (fst (main w)) OUTPUT_DIR = Some FS.Dir
  /\ files (fst (main w)) headcount_chart
     = Some (FS.File (chart_headcount (monthly frames)))
  /\ files (fst (main w)) hiring_chart
     = Some (FS.File (chart_hiring (monthly frames)))
  /\ files (fst (main w)) dept_chart
     = Some (FS.File (chart_department (dept_latest frames)))
  /\ (exists low,
        least_headcount (dept_latest frames) low
        /\ files (fst (main w)) out_pptx
           = Some (FS.File (pptx_bytes
               {| generated_on := now;
                  summary_text := format_summary (exec_summary frames);
                  pictures := [chart_headcount (monthly frames);
                               chart_hiring (monthly frames);
                               chart_department (dept_latest frames)];
                  deck_latest := latest frames;
                  risk_dept := top_turnover (exec_summary frames);
                  low_hc_dept := low |})))
  /\ files (fst (main w)) summary_path
     = Some (FS.File (format_summary (exec_summary frames)
                      ++ String "010" EmptyString))
  /\ stdout (fst (main w))
     = (stdout w ++ ["Executive Summary:"%string;
                     format_summary (exec_summary frames);
                     generated_listing])%list.
Proof.
  intros Hdir Hload Hins Hart Hp1 Hp2 Hp3.
  destruct (main_run w Hdir Hload Hins Hart Hp1 Hp2 Hp3)
    as (fs & low & Hm & Hlow & E).
  destruct (mkdir_ok (files w) OUTPUT_DIR Hdir) as (fs' & Hm' & Hfd & _).
  rewrite Hm in Hm'. injection Hm' as <-.
  rewrite E. cbn [fst snd files stdout].
  split; [reflexivity|].
  split; [rewrite !update_other by discriminate; exact Hfd|].
  split; [rewrite !update_other by discriminate; apply update_same|].
  split; [rewrite !update_other by discriminate; apply update_same|].
  split; [rewrite !update_other by discriminate; apply update_same|].
  split.
  { exists low. split; [exact Hlow|].
    rewrite update_other by discriminate. apply update_same. }
  split; [apply update_same|].
  rewrite <- !app_assoc. reflexivity.
Qed.

(** X13. No report from bad input.  If the metrics file cannot be loaded,
    for whatever reason, or holds fewer than two months, [main] raises the
    loader's error, respectively [IndexError], before it renders anything:
    nothing is printed, and apart from the output directory, which has been
    created if it was absent, every path holds what it held before. *)
Theorem bad_input_writes_nothing (w : World) (e : exn) :
  (forall b, files w OUTPUT_DIR <> Some (FS.File b)) ->
  load_data (files w) DATA_PATH = Raise e
  \/ (exists df, load_data (files w) DATA_PATH = Ok df
                 /\ (n_months df < 2)%nat /\ e = IndexError) ->
  snd (main w) = Raise e
  /\ stdout (fst (main w)) = stdout w
  /\ files (fst (main w)) OUTPUT_DIR = Some FS.Dir
  /\ forall p, p <> OUTPUT_DIR -> files (fst (main w)) p = files w p.
Proof.
  intros Hdir H.
  destruct (mkdir_ok (files w) OUTPUT_DIR Hdir) as (fs & Hm & Hfd & Hfo).
  assert (Hl : load_data fs DATA_PATH = load_data (files w) DATA_PATH).
  { apply load_data_ext. apply Hfo. discriminate. }
  assert (E : main w = (with_files w fs, Raise e)).
  { unfold main. step (mkdir_run w OUTPUT_DIR Hm).
    destruct H as [H|(df & H & Hn & ->)].
    - apply st_bind_raise. cbn [files with_files]. now rewrite Hl, H.
    - rewrite (@st_bind_ok _ _ _ _ (with_files w fs) (with_files w fs) df)
        by (cbn [files with_files]; now rewrite Hl, H).
      apply st_bind_raise. unfold lift.
      now rewrite (build_insights_short df Hn). }
  rewrite E. cbn [fst snd files stdout with_files].
  repeat split; [exact Hfd|exact Hfo].
Qed.


End Pipeline.


(** *** Further properties of [build_insights] *)

Lemma total_perm l l' : Permutation l l' -> Int64.total l = Int64.total l'.
Proof. induction 1; simpl; lia. Qed.

Lemma total_indicator (ks : list Z) (k0 v : Z) :
  NoDup ks -> In k0 ks ->
  Int64.total (map (fun k => if k0 =? k then v else 0) ks) = v.
Proof.
  induction 1 as [|k ks Hk Hnd IH]; simpl; [intros []|].
  intros [->|Hin].
  - rewrite Z.eqb_refl.
    assert (E : Int64.total (map (fun k => if k0 =? k then v else 0) ks) = 0).
    { clear IH Hnd. induction ks as [|a ks IHk]; simpl; [reflexivity|].
      destruct (Z.eqb_spec k0 a) as [->|_].
      - exfalso. apply Hk. now left.
      - rewrite IHk; [reflexivity|]. intros H. apply Hk. now right. }
    rewrite E. lia.
  - destruct (Z.eqb_spec k0 k) as [->|_]; [contradiction|]. now rewrite IH.
Qed.

Lemma total_pointwise_add {A} (g h : A -> Z) l :
  Int64.total (map (fun k => g k + h k) l)
  = Int64.total (map g l) + Int64.total (map h l).
Proof. induction l as [|a l IH]; simpl; lia. Qed.

(** Summing a column month by month gives the column's total, when every
    row's month is among the months summed over. *)
Lemma total_by_month (f : MonthlyRecord -> Z) (ks : list Z) df :
  NoDup ks -> (forall r, In r df -> In (month_date r) ks) ->
  Int64.total (map (fun k => Int64.total (map f (filter (in_month k) df))) ks)
  = Int64.total (map f df).
Proof.
  intros Hnd. induction df as [|r df IH]; intros Hin.
  - simpl. clear. induction ks as [|k ks IHk]; simpl; [reflexivity|].
    now rewrite IHk.
  - rewrite (map_ext _ (fun k => (if month_date r =? k then f r else 0)
                                 + Int64.total (map f (filter (in_month k) df)))).
    + rewrite total_pointwise_add.
      rewrite IH by (intros r' Hr'; apply Hin; now right).
      rewrite total_indicator; [reflexivity|exact Hnd|apply Hin; now left].
    + intros k. simpl. unfold in_month at 1. now destruct (month_date r =? k).
Qed.

Lemma string_indicator (ks : list string) (k0 : string) (v : Z) :
  NoDup ks -> In k0 ks ->
  Int64.total (map (fun k => if String.eqb k0 k then v else 0) ks) = v.
Proof.
  induction 1 as [|k ks Hk Hnd IH]; simpl; [intros []|].
  intros [->|Hin].
  - rewrite String.eqb_refl.
    assert (E : Int64.total (map (fun k => if String.eqb k0 k then v else 0) ks) = 0).
    { clear IH Hnd. induction ks as [|a ks IHk]; simpl; [reflexivity|].
      destruct (String.eqb_spec k0 a) as [->|_].
      - exfalso. apply Hk. now left.
      - rewrite IHk; [reflexivity|]. intros H. apply Hk. now right. }
    rewrite E. lia.
  - destruct (String.eqb_spec k0 k) as [->|_]; [contradiction|]. now rewrite IH.
Qed.

Lemma total_by_dept (f : MonthlyRecord -> Z) (ks : list string) rs :
  NoDup ks -> (forall r, In r rs -> In (department r) ks) ->
  Int64.total (map (fun k => Int64.total (map f (filter (in_dept k) rs))) ks)
  = Int64.total (map f rs).
Proof.
  intros Hnd. induction rs as [|r rs IH]; intros Hin.
  - simpl. clear. induction ks as [|k ks IHk]; simpl; [reflexivity|].
    now rewrite IHk.
  - rewrite (map_ext _ (fun k => (if String.eqb (department r) k then f r else 0)
                                 + Int64.total (map f (filter (in_dept k) rs)))).
    + rewrite total_pointwise_add.
      rewrite IH by (intros r' Hr'; apply Hin; now right).
      rewrite string_indicator; [reflexivity|exact Hnd|apply Hin; now left].
    + intros k. simpl. unfold in_dept at 1.
      now destruct (String.eqb (department r) k).
Qed.

(** A column of the monthly table, summed over the table. *)
Lemma monthly_column_total (f : MonthlyRecord -> Z) (g : Monthly.agg -> Z) df :
  fits f df ->
  (forall t, In t (monthly_totals df) ->
     g t = Int64.sum (map f (filter (in_month (Monthly.month_date t)) df))) ->
  Int64.total (map g (monthly_totals df)) = Int64.total (map f df).
Proof.
  intros Hf Hg.
  rewrite <- (@total_by_month f (map Monthly.month_date (monthly_totals df)) df).
  - rewrite map_map. f_equal. apply map_ext_in. intros t Ht.
    rewrite (Hg t Ht). apply fits_sum. now apply fits_filter.
  - apply Zlt_sorted_NoDup, monthly_totals_sorted.
  - intros r Hr. apply monthly_totals_month_iff. now apply in_map.
Qed.

Lemma monthly_row_sums df t :
  In t (monthly_totals df) ->
  let rs := filter (in_month (Monthly.month_date t)) df in
  Monthly.headcount t = Int64.sum (map headcount rs)
  /\ Monthly.new_hires t = Int64.sum (map new_hires rs)
  /\ Monthly.terminations t = Int64.sum (map terminations rs)
  /\ Monthly.open_positions t = Int64.sum (map open_positions rs).
Proof.
  intros Ht. destruct (monthly_totals_row df t Ht) as [E _]. simpl.
  repeat split.
  - now apply (f_equal Monthly.headcount) in E.
  - now apply (f_equal Monthly.new_hires) in E.
  - now apply (f_equal Monthly.terminations) in E.
  - now apply (f_equal Monthly.open_positions) in E.
Qed.

(** X1. Aggregation loses and invents nothing: for valid input the four count
    columns of the monthly table add up to the totals of the input's columns,
    and the headcounts of the department snapshot add up to the latest
    month's total headcount. *)
Theorem aggregation_conserves_counts (df : DataFrame) :
  valid_input df -> (2 <= n_months df)%nat ->
  exists out, build_insights df = Ok out
    /\ Int64.total (map (fun r => Monthly.headcount (Monthly.totals r)) (monthly out))
       = Int64.total (map headcount df)
    /\ Int64.total (map (fun r => Monthly.new_hires (Monthly.totals r)) (monthly out))
       = Int64.total (map new_hires df)
    /\ Int64.total (map (fun r => Monthly.terminations (Monthly.totals r)) (monthly out))
       = Int64.total (map terminations df)
    /\ Int64.total (map (fun r => Monthly.open_positions (Monthly.totals r)) (monthly out))
       = Int64.total (map open_positions df)
    /\ Int64.total (map Dept.headcount (dept_latest out))
       = Monthly.headcount (Monthly.totals (latest out)).
Proof.
  intros V H. destruct (build_insights_built df H) as (out & E & B).
  exists out. split; [exact E|].
  destruct (valid_fits V) as (F1 & F2 & F3 & F4).
  pose proof (built_latest_max B) as [Hin _].
  destruct B as [Em [pre El] Ed _ _].
  assert (Col : forall g : Monthly.agg -> Z,
             map (fun r => g (Monthly.totals r)) (monthly out)
             = map g (monthly_totals df)).
  { intros g. rewrite Em. rewrite <- (with_mom_totals (monthly_totals df)) at 2.
    now rewrite map_map. }
  rewrite !Col.
  split; [|split; [|split; [|split]]].
  - apply monthly_column_total; [exact F1|]. intros t Ht.
    now destruct (monthly_row_sums df t Ht) as (? & ? & ? & ?).
  - apply monthly_column_total; [exact F2|]. intros t Ht.
    now destruct (monthly_row_sums df t Ht) as (? & ? & ? & ?).
  - apply monthly_column_total; [exact F3|]. intros t Ht.
    now destruct (monthly_row_sums df t Ht) as (? & ? & ? & ?).
  - apply monthly_column_total; [exact F4|]. intros t Ht.
    now destruct (monthly_row_sums df t Ht) as (? & ? & ? & ?).
  - assert (Ht : In (Monthly.totals (latest out)) (monthly_totals df)).
    { apply with_mom_In. rewrite <- Em, El. apply in_or_app. right. right. now left. }
    destruct (monthly_row_sums df _ Ht) as (Eh & _).
    change (Monthly.month_date (Monthly.totals (latest out)))
      with (month_of (latest out)) in Eh.
    rewrite Ed. set (m := month_of (latest out)) in *.
    transitivity (Int64.total (map headcount (filter (in_month m) df))).
    2:{ rewrite Eh. symmetry. apply fits_sum. now apply fits_filter. }
    rewrite <- (@total_by_dept headcount
                  (map Dept.department (dept_snapshot df m))
                  (filter (in_month m) df)).
    + rewrite map_map. f_equal. apply map_ext_in. intros row Hrow.
      pose proof (dept_snapshot_row df m row Hrow) as Er.
      apply (f_equal Dept.headcount) in Er. simpl in Er. rewrite Er.
      apply fits_sum. now do 2 apply fits_filter.
    + apply dept_snapshot_NoDup.
    + intros r Hr. apply dept_snapshot_departments. now apply in_map.
Qed.


Lemma build_insights_summary df out :
  build_insights df = Ok out ->
  let s := exec_summary out in
  let t := Monthly.totals (latest out) in
  as_of s = Monthly.month_date t
  /\ total_headcount s = Monthly.headcount t
  /\ headcount_mom s = Monthly.headcount_mom_pct (latest out)
  /\ hires s = Monthly.new_hires t
  /\ terms s = Monthly.terminations t
  /\ average_turnover s = Monthly.avg_turnover_rate t
  /\ turnover_mom s = Monthly.turnover_mom_delta (latest out)
  /\ offer_acceptance s = Monthly.avg_offer_acceptance t
  /\ time_to_fill s = Monthly.avg_time_to_fill t.
Proof.
  unfold build_insights.
  destruct (iloc (with_mom (monthly_totals df)) (-1)) as [l|e]; [|discriminate].
  destruct (iloc (with_mom (monthly_totals df)) (-2)) as [p|e]; [|discriminate].
  cbn [bind].
  destruct (iloc (sort_values Dept.turnover_rate argsort_float64 false _) 0)
    as [t|e]; [|discriminate].
  destruct (iloc (sort_values Dept.time_to_fill_days argsort_float64 true _) 0)
    as [b|e]; [|discriminate].
  cbn [bind]. intros H. injection H as <-. simpl. repeat split.
Qed.

Lemma sorted_last_two l a b :
  StronglySorted Z.lt (l ++ [a; b]) -> a < b /\ forall y, In y l -> y < a.
Proof.
  induction l as [|x l IH]; simpl; intros S.
  - inversion S as [|? ? _ F]; subst. inversion F; subst. split; [assumption|intros ? []].
  - inversion S as [|? ? S' F]; subst. destruct (IH S') as [Hab Hl].
    split; [exact Hab|]. intros y [<-|Hy]; [|now apply Hl].
    rewrite Forall_forall in F. apply F. apply in_or_app. right. now left.
Qed.

(** X2. The month-over-month figures of the summary compare the latest month
    with the nearest earlier month that occurs in the data, whatever the gap
    between the two: [latest] is the greatest month of the input, [prior]
    is a month of the input strictly before it, no record of the input
    lies between them, and the summary's headcount change and turnover
    change are computed from exactly these two rows. *)
Theorem summary_compares_latest_with_prior (df : DataFrame) :
  (2 <= n_months df)%nat ->
  exists out, build_insights df = Ok out
    /\ In (month_of (latest out)) (map month_date df)
    /\ (forall r, In r df -> month_date r <= month_of (latest out))
    /\ month_of (prior out) < month_of (latest out)
    /\ In (month_of (prior out)) (map month_date df)
    /\ (forall r, In r df ->
          month_date r <= month_of (prior out) \/ month_date r = month_of (latest out))
    /\ headcount_mom (exec_summary out)
       = ((F64.of_int64 (Monthly.headcount (Monthly.totals (latest out)))
           / F64.of_int64 (Monthly.headcount (Monthly.totals (prior out))) - 1) * 100)%float
    /\ turnover_mom (exec_summary out)
       = (Monthly.avg_turnover_rate (Monthly.totals (latest out))
          - Monthly.avg_turnover_rate (Monthly.totals (prior out)))%float.
Proof.
  intros H. destruct (build_insights_built df H) as (out & E & B).
  exists out. split; [exact E|].
  destruct (build_insights_summary df E) as (_ & _ & Eh & _ & _ & _ & Et & _).
  destruct (built_latest_max B) as [Hlatest Hmax].
  split; [exact Hlatest|]. split; [exact Hmax|].
  destruct B as [Em [pre El] _ _ _].
  assert (Emonths : map month_of (monthly out)
                    = map Monthly.month_date (monthly_totals df)).
  { rewrite Em. rewrite <- (with_mom_totals (monthly_totals df)) at 2.
    now rewrite map_map. }
  assert (S : StronglySorted Z.lt
                (map month_of pre ++ [month_of (prior out); month_of (latest out)])).
  { replace (map month_of pre ++ [month_of (prior out); month_of (latest out)])
      with (map month_of (monthly out)) by (rewrite El, map_app; reflexivity).
    rewrite Emonths. apply monthly_totals_sorted. }
  destruct (sorted_last_two _ _ _ S) as [Hlt Hpre].
  assert (Hmem : forall m, In m (map month_date df) <->
                 In m (map month_of pre) \/ m = month_of (prior out)
                 \/ m = month_of (latest out)).
  { intros m. rewrite <- monthly_totals_month_iff, <- Emonths, El, map_app, in_app_iff.
    simpl. intuition. }
  split; [exact Hlt|]. split; [apply Hmem; auto|]. split.
  - intros r Hr. assert (Hm : In (month_date r) (map month_date df)) by now apply in_map.
    apply Hmem in Hm as [Hm|[Hm|Hm]]; [left|left|right]; try lia.
    specialize (Hpre _ Hm). lia.
  - assert (M : mom_of (prior out) (latest out)).
    { rewrite Em in El. change [prior out; latest out] with (prior out :: latest out :: [])
        in El. now apply with_mom_consecutive in El. }
    destruct M as (M1 & _ & M3). rewrite Eh, Et. split; assumption.
Qed.


Lemma filter_perm {A} (p : A -> bool) l l' :
  Permutation l l' -> Permutation (filter p l) (filter p l').
Proof.
  induction 1 as [|x l l' P IH|x y l|l l' l'' P1 IH1 P2 IH2]; simpl.
  - constructor.
  - destruct (p x); [now constructor|exact IH].
  - destruct (p x), (p y); try reflexivity. apply perm_swap.
  - now transitivity (filter p l').
Qed.

(** Two strictly ascending lists with the same elements are equal. *)
Lemma sorted_unique l : forall l',
  StronglySorted Z.lt l -> StronglySorted Z.lt l' ->
  (forall x, In x l <-> In x l') -> l = l'.
Proof.
  induction l as [|a l IH]; intros [|b l'] S S' H.
  - reflexivity.
  - exfalso. apply (proj2 (H b)). now left.
  - exfalso. apply (proj1 (H a)). now left.
  - inversion S as [|? ? S1 F1]; inversion S' as [|? ? S1' F1']; subst.
    rewrite Forall_forall in F1, F1'.
    assert (a = b).
    { destruct (proj1 (H a) (or_introl eq_refl)) as [->|Ha]; [reflexivity|].
      destruct (proj2 (H b) (or_introl eq_refl)) as [->|Hb]; [reflexivity|].
      specialize (F1 _ Hb). specialize (F1' _ Ha). lia. }
    subst b. f_equal. apply IH; auto.
    intros x. split; intros Hx.
    + destruct (proj1 (H x) (or_intror Hx)) as [->|Hx']; [|exact Hx'].
      specialize (F1 _ Hx). lia.
    + destruct (proj2 (H x) (or_intror Hx)) as [->|Hx']; [|exact Hx'].
      specialize (F1' _ Hx). lia.
Qed.

Lemma monthly_totals_by_months df :
  monthly_totals df
  = map (fun k => agg_month (k, filter (in_month k) df))
      (map Monthly.month_date (monthly_totals df)).
Proof.
  rewrite map_map. rewrite <- (map_id (monthly_totals df)) at 1.
  apply map_ext_in. intros t Ht. now destruct (monthly_totals_row df t Ht).
Qed.

Lemma monthly_months_perm df df' :
  Permutation df df' ->
  map Monthly.month_date (monthly_totals df)
  = map Monthly.month_date (monthly_totals df').
Proof.
  intros P. apply sorted_unique; try apply monthly_totals_sorted.
  intros m. rewrite !monthly_totals_month_iff.
  split; apply Permutation_in; [|symmetry]; now apply Permutation_map.
Qed.

Lemma sum_perm l l' : Permutation l l' -> Int64.sum l = Int64.sum l'.
Proof. intros P. rewrite !Int64.sum_wrap. f_equal. now apply total_perm. Qed.

(** The columns of the monthly table that are computed from counts only. *)
Definition count_columns (r : Monthly.row) : Z * (Z * Z * Z * Z) * (float * float) :=
  let t := Monthly.totals r in
  (Monthly.month_date t,
   (Monthly.headcount t, Monthly.new_hires t, Monthly.terminations t,
    Monthly.open_positions t),
   (Monthly.headcount_mom_pct r, Monthly.new_hires_mom_pct r)).

Definition counts (t : Monthly.agg) : Z * (Z * Z * Z * Z) :=
  (Monthly.month_date t,
   (Monthly.headcount t, Monthly.new_hires t, Monthly.terminations t,
    Monthly.open_positions t)).

Lemma monthly_counts_by_months df :
  map counts (monthly_totals df)
  = map (fun k => counts (agg_month (k, filter (in_month k) df)))
      (map Monthly.month_date (monthly_totals df)).
Proof.
  rewrite map_map. apply map_ext_in. intros t Ht.
  destruct (monthly_totals_row df t Ht) as [E _].
  rewrite E at 1. reflexivity.
Qed.

Lemma monthly_counts_perm df df' :
  Permutation df df' ->
  map counts (monthly_totals df) = map counts (monthly_totals df').
Proof.
  intros P.
  rewrite (monthly_counts_by_months df), (monthly_counts_by_months df').
  rewrite <- (monthly_months_perm P).
  apply map_ext. intros k. unfold counts, agg_month. simpl.
  assert (Pf : Permutation (filter (in_month k) df) (filter (in_month k) df'))
    by now apply filter_perm.
  rewrite (sum_perm (Permutation_map headcount Pf)),
    (sum_perm (Permutation_map new_hires Pf)),
    (sum_perm (Permutation_map terminations Pf)),
    (sum_perm (Permutation_map open_positions Pf)).
  reflexivity.
Qed.

Lemma mom_from_count_columns ts : forall ts' ph pn pt pt',
  map counts ts = map counts ts' ->
  map count_columns (mom_from ph pn pt ts) = map count_columns (mom_from ph pn pt' ts').
Proof.
  induction ts as [|t ts IH]; intros [|t' ts'] ph pn pt pt' E; try discriminate.
  - reflexivity.
  - simpl in E. injection E as Em Eh En Et Eo E.
    simpl. unfold count_columns at 1 3. simpl.
    rewrite Em, Eh, En, Et, Eo. f_equal.
    apply IH. exact E.
Qed.

(** X3. The order of the rows in the input does not matter for the counts:
    on a permutation of the frame [build_insights] returns a monthly table
    with the same months, the same four totals and the same two
    month-over-month percentages.  (The three averages are float64 sums taken
    in row order and are not covered.) *)
Theorem monthly_counts_row_order (df df' : DataFrame) :
  Permutation df df' -> (2 <= n_months df)%nat ->
  exists out out', build_insights df = Ok out /\ build_insights df' = Ok out'
    /\ map count_columns (monthly out) = map count_columns (monthly out').
Proof.
  intros P H.
  assert (H' : (2 <= n_months df')%nat).
  { rewrite <- monthly_totals_length,
      <- (length_map Monthly.month_date), <- (monthly_months_perm P),
      length_map, monthly_totals_length. exact H. }
  destruct (build_insights_built df H) as (out & E & [Em _ _ _ _]).
  destruct (build_insights_built df' H') as (out' & E' & [Em' _ _ _ _]).
  exists out, out'. split; [exact E|]. split; [exact E'|].
  rewrite Em, Em', !with_mom_from.
  apply mom_from_count_columns. now apply monthly_counts_perm.
Qed.



(** *** A new month *)

Lemma filter_nothing {A} (p : A -> bool) l :
  Forall (fun x => p x = false) l -> filter p l = [].
Proof.
  induction 1 as [|x l Hx _ IH]; simpl; [reflexivity|]. now rewrite Hx.
Qed.

Lemma filter_everything {A} (p : A -> bool) l :
  Forall (fun x => p x = true) l -> filter p l = l.
Proof.
  induction 1 as [|x l Hx _ IH]; simpl; [reflexivity|]. now rewrite Hx, IH.
Qed.

Lemma monthly_totals_app df rs m :
  rs <> [] -> Forall (fun r => month_date r = m) rs ->
  Forall (fun r => month_date r < m) df ->
  monthly_totals (df ++ rs) = monthly_totals df ++ [agg_month (m, rs)].
Proof.
  intros Hne Hrs Hdf.
  rewrite Forall_forall in Hrs, Hdf.
  assert (Hk : map Monthly.month_date (monthly_totals (df ++ rs))
               = map Monthly.month_date (monthly_totals df) ++ [m]).
  { apply sorted_unique.
    - apply monthly_totals_sorted.
    - apply StronglySorted_snoc; [apply monthly_totals_sorted|].
      apply Forall_forall. intros k Hk. apply monthly_totals_month_iff in Hk.
      apply in_map_iff in Hk as (r & <- & Hr). now apply Hdf.
    - intros k. rewrite in_app_iff, !monthly_totals_month_iff, map_app, in_app_iff.
      split; intros [H|H]; try (now left).
      + right. apply in_map_iff in H as (r & <- & Hr). left. symmetry. now apply Hrs.
      + right. destruct H as [<-|[]]. destruct rs as [|r rs']; [congruence|].
        left. apply Hrs. now left. }
  rewrite (monthly_totals_by_months (df ++ rs)), Hk, map_app.
  f_equal.
  - rewrite (monthly_totals_by_months df) at 2.
    apply map_ext_in. intros k Hin. f_equal. f_equal.
    rewrite filter_app, (@filter_nothing _ (in_month k) rs), app_nil_r; [reflexivity|].
    apply Forall_forall. intros r Hr. unfold in_month. apply Z.eqb_neq.
    apply monthly_totals_month_iff in Hin.
    apply in_map_iff in Hin as (r' & <- & Hr'). rewrite (Hrs r Hr).
    specialize (Hdf r' Hr'). lia.
  - simpl. f_equal. f_equal. f_equal.
    rewrite filter_app, (@filter_nothing _ (in_month m) df),
      (@filter_everything _ (in_month m) rs); [reflexivity| |].
    + apply Forall_forall. intros r Hr. unfold in_month. apply Z.eqb_eq.
      now apply Hrs.
    + apply Forall_forall. intros r Hr. unfold in_month. apply Z.eqb_neq.
      specialize (Hdf r Hr). lia.
Qed.

Lemma mom_from_snoc ts t : forall ph pn pt,
  exists r, mom_from ph pn pt (ts ++ [t]) = mom_from ph pn pt ts ++ [r]
            /\ Monthly.totals r = t.
Proof.
  induction ts as [|x ts IH]; intros ph pn pt; simpl.
  - eexists. split; reflexivity.
  - destruct (IH (F64.of_int64 (Monthly.headcount x))
                (F64.of_int64 (Monthly.new_hires x))
                (Monthly.avg_turnover_rate x)) as (r & E & Hr).
    exists r. rewrite E. split; [reflexivity|exact Hr].
Qed.

(** X14. A new month extends the history without rewriting it.  When rows of
    a month later than every month of a frame are appended, the monthly
    table of the extended frame is the old table followed by one row for the
    new month; the old latest row becomes the prior row, and the new row's
    headcount is the sum over the appended rows, its month-over-month
    percentage being taken against the old latest headcount. *)
Theorem new_month_extends_history (df rs : DataFrame) (m : Z) (out : Insights) :
  build_insights df = Ok out ->
  rs <> [] -> Forall (fun r => month_date r = m) rs ->
  Forall (fun r => month_date r < m) df ->
  exists out',
    build_insights (df ++ rs) = Ok out'
    /\ monthly out' = monthly out ++ [latest out']
    /\ prior out' = latest out
    /\ month_of (latest out') = m
    /\ Monthly.headcount (Monthly.totals (latest out')) = Int64.sum (map headcount rs)
    /\ Monthly.headcount_mom_pct (latest out')
       = ((F64.of_int64 (Int64.sum (map headcount rs))
           / F64.of_int64 (Monthly.headcount (Monthly.totals (latest out))) - 1)
          * 100)%float.
Proof.
  intros Hb Hne Hrs Hdf.
  assert (Hn : (2 <= n_months df)%nat).
  { destruct (le_lt_dec 2 (n_months df)) as [H|H]; [exact H|].
    rewrite (build_insights_short df H) in Hb. discriminate. }
  destruct (build_insights_built df Hn) as (out0 & E & B).
  rewrite Hb in E. injection E as <-.
  destruct B as [Hmon (pre & Hl) _ _ _].
  pose proof (monthly_totals_app Hne Hrs Hdf) as Happ.
  assert (Hn' : (2 <= n_months (df ++ rs))%nat).
  { rewrite <- monthly_totals_length, Happ, length_app, monthly_totals_length.
    simpl. lia. }
  destruct (build_insights_built (df ++ rs) Hn') as (out' & E' & B').
  destruct B' as [Hmon' (pre' & Hl') _ _ _].
  exists out'. split; [exact E'|].
  destruct (mom_from_snoc (monthly_totals df) (agg_month (m, rs)) nan nan nan)
    as (r & Er & Hr).
  assert (Em : monthly out' = monthly out ++ [r]).
  { rewrite Hmon', Hmon, Happ, !with_mom_from. exact Er. }
  assert (Hlast : pre' ++ [prior out'; latest out'] = (pre ++ [prior out]) ++ [latest out; r]).
  { rewrite <- Hl', Em, Hl, <- !app_assoc. reflexivity. }
  change (pre' ++ [prior out'; latest out'])
    with (pre' ++ [prior out'] ++ [latest out']) in Hlast.
  change ((pre ++ [prior out]) ++ [latest out; r])
    with ((pre ++ [prior out]) ++ [latest out] ++ [r]) in Hlast.
  rewrite !app_assoc in Hlast.
  apply app_inj_tail in Hlast as [Hlast <-].
  apply app_inj_tail in Hlast as [_ Hp].
  split; [exact Em|]. split; [exact Hp|].
  assert (Hmom : mom_of (prior out') (latest out')).
  { apply (@with_mom_consecutive (monthly_totals (df ++ rs)) pre' _ _ []).
    rewrite <- Hmon'. exact Hl'. }
  destruct Hmom as (Hh & _ & _).
  unfold month_of. rewrite Hh, Hp, Hr. simpl.
  repeat split.
Qed.

End Frames.
(** *** Runs on small frames

    The frames below are run with a numpy whose sort is the stable insertion
    sort of [stable]; on a frame without equal keys every sort that meets
    numpy's contract returns the same rows.  [backward_sorts] is a numpy
    whose sort returns equal keys in the opposite order. *)

#[global] Instance stable_sorts : Sorts :=
  {| argsort_datetime64 := @stable Z Z.leb never_na Zleb_total Zleb_trans;
     argsort_int64 := @stable Z Z.leb never_na Zleb_total Zleb_trans;
     argsort_float64 := @stable float PrimFloat.leb PrimFloat.is_nan F64.leb_total float_leb_trans |}.

Definition backward_sorts : Sorts :=
  {| argsort_datetime64 := @backward Z Z.leb never_na Zleb_total Zleb_trans;
     argsort_int64 := @backward Z Z.leb never_na Zleb_total Zleb_trans;
     argsort_float64 := @backward float PrimFloat.leb PrimFloat.is_nan F64.leb_total float_leb_trans |}.

(** The two-month, one-department frame of the specification's end-to-end
    example: headcount 100 in the first month and 110 in the second. *)
Definition two_months : DataFrame :=
  [ {| month := "2025-01"; department := "Eng"; headcount := 100; new_hires := 5;
       terminations := 2; open_positions := 3; time_to_fill_days := 30;
       offer_acceptance_rate := 80; turnover_rate := 2; month_date := 24300 |};
    {| month := "2025-02"; department := "Eng"; headcount := 110; new_hires := 8;
       terminations := 3; open_positions := 4; time_to_fill_days := 28;
       offer_acceptance_rate := 82; turnover_rate := 2.5; month_date := 24301 |} ].

Lemma two_months_valid : valid_input two_months.
Proof.
  split.
  - repeat constructor; simpl; lia.
  - repeat constructor; simpl; intuition discriminate.
  - vm_compute. discriminate.
  - vm_compute. discriminate.
  - vm_compute. discriminate.
  - vm_compute. discriminate.
Qed.

(** Two months of three departments each.  The turnover rates of a month
    are 0.1, 0.2 and 0.3 (the binary64 values nearest to them): pandas' mean
    of the three is 0.19999999999999998, where adding them up one after the
    other and dividing by three gives 0.20000000000000004. *)
Definition three_departments : DataFrame :=
  [ {| month := "2025-01"; department := "Eng"; headcount := 100; new_hires := 5;
       terminations := 2; open_positions := 3; time_to_fill_days := 30;
       offer_acceptance_rate := 80; turnover_rate := 0x1.999999999999ap-4; month_date := 24300 |};
    {| month := "2025-01"; department := "Ops"; headcount := 60; new_hires := 3;
       terminations := 1; open_positions := 2; time_to_fill_days := 25;
       offer_acceptance_rate := 81.5; turnover_rate := 0x1.999999999999ap-3; month_date := 24300 |};
    {| month := "2025-01"; department := "Sales"; headcount := 40; new_hires := 2;
       terminations := 1; open_positions := 1; time_to_fill_days := 28;
       offer_acceptance_rate := 79; turnover_rate := 0x1.3333333333333p-2; month_date := 24300 |};
    {| month := "2025-02"; department := "Eng"; headcount := 110; new_hires := 8;
       terminations := 3; open_positions := 4; time_to_fill_days := 28;
       offer_acceptance_rate := 82; turnover_rate := 0x1.3333333333333p-2; month_date := 24301 |};
    {| month := "2025-02"; department := "Ops"; headcount := 62; new_hires := 4;
       terminations := 2; open_positions := 2; time_to_fill_days := 24;
       offer_acceptance_rate := 78; turnover_rate := 0x1.999999999999ap-3; month_date := 24301 |};
    {| month := "2025-02"; department := "Sales"; headcount := 41; new_hires := 2;
       terminations := 1; open_positions := 1; time_to_fill_days := 29;
       offer_acceptance_rate := 80; turnover_rate := 0x1.999999999999ap-4; month_date := 24301 |} ].


(** The count and average columns of the monthly table. *)
Definition monthly_columns (res : result Insights)
  : list (Z * (Z * Z * Z * Z) * (float * float * float)) :=
  match res with
  | Ok out =>
      map (fun r => let t := Monthly.totals r in
                    (Monthly.month_date t,
                     (Monthly.headcount t, Monthly.new_hires t,
                      Monthly.terminations t, Monthly.open_positions t),
                     (Monthly.avg_time_to_fill t, Monthly.avg_offer_acceptance t,
                      Monthly.avg_turnover_rate t)))
        (monthly out)
  | Raise _ => []
  end.

Example three_departments_monthly :
  monthly_columns (build_insights three_departments) = [ (24300, (200, 10, 4, 6),
     (0x1.baaaaaaaaaaabp+4, 0x1.40aaaaaaaaaabp+6, 0x1.9999999999999p-3)%float);
    (24301, (213, 14, 6, 7), (27, 80, 0x1.9999999999999p-3)%float) ].
Proof. vm_compute. reflexivity. Qed.


(** The [headcount_mom_pct] column of what [build_insights] returns. *)
Definition headcount_mom_column (res : result Insights) : list float :=
  match res with
  | Ok out => map Monthly.headcount_mom_pct (monthly out)
  | Raise _ => []
  end.

(** C2, as the specification states it, fails on its own example: with
    monthly headcounts 100 and 110 the second month's [headcount_mom_pct] is
    not 10.0.  [pct_change] divides first and subtracts one afterwards;
    110/100 rounds to the binary64 value just above 1.1, and the error is
    carried into the percentage, 10 + 5 * 2^-49 = 10.000000000000009.  The
    formula of the specification, (curr - prev) / prev * 100, would give
    exactly 10. *)
Lemma headcount_mom_pct_inexact :
  headcount_mom_column (build_insights two_months) = [nan; 0x1.4000000000005p+3%float]
  /\ (0x1.4000000000005p+3 =? 10)%float = false
  /\ ((110 - 100) / 100 * 100 =? 10)%float = true.
Proof. repeat split; vm_compute; reflexivity. Qed.
Lemma mom_columns_correct_witness :
  (2 <= n_months two_months)%nat
  /\ exists out, build_insights two_months = Ok out
    /\ (exists first rest, monthly out = first :: rest
          /\ Monthly.headcount_mom_pct first = nan
          /\ Monthly.new_hires_mom_pct first = nan
          /\ Monthly.turnover_mom_delta first = nan)
    /\ (forall pre p c post, monthly out = pre ++ p :: c :: post ->
          mom_of p c
          /\ (Monthly.headcount (Monthly.totals p) = 100 ->
              Monthly.headcount (Monthly.totals c) = 110 ->
              Monthly.headcount_mom_pct c = 0x1.4000000000005p+3%float)).
Proof.
  split; [vm_compute; lia|].
  apply (mom_columns_correct two_months). vm_compute. lia.
Defined.
(** Three departments in the latest month; Ops and Sales tie on the greatest
    turnover rate and on the least time-to-fill, and Ops comes first in
    [dept_latest] (it has the larger headcount). *)
Definition tied_departments : DataFrame :=
  [ {| month := "2025-01"; department := "Eng"; headcount := 100; new_hires := 5;
       terminations := 2; open_positions := 3; time_to_fill_days := 30;
       offer_acceptance_rate := 80; turnover_rate := 2; month_date := 24300 |};
    {| month := "2025-02"; department := "Sales"; headcount := 40; new_hires := 2;
       terminations := 1; open_positions := 1; time_to_fill_days := 25;
       offer_acceptance_rate := 81; turnover_rate := 3; month_date := 24301 |};
    {| month := "2025-02"; department := "Eng"; headcount := 110; new_hires := 8;
       terminations := 3; open_positions := 4; time_to_fill_days := 28;
       offer_acceptance_rate := 82; turnover_rate := 2.5; month_date := 24301 |};
    {| month := "2025-02"; department := "Ops"; headcount := 60; new_hires := 3;
       terminations := 2; open_positions := 2; time_to_fill_days := 25;
       offer_acceptance_rate := 79; turnover_rate := 3; month_date := 24301 |} ].

Definition chosen_departments (res : result Insights) : list string :=
  match res with
  | Ok out => map Dept.department (dept_latest out)
              ++ [Dept.department (top_turnover (exec_summary out));
                  Dept.department (best_ttf (exec_summary out))]
  | Raise _ => []
  end.

Lemma tied_departments_valid : valid_input tied_departments.
Proof.
  split.
  - repeat constructor; simpl; lia.
  - repeat constructor; simpl; intuition discriminate.
  - vm_compute. discriminate.
  - vm_compute. discriminate.
  - vm_compute. discriminate.
  - vm_compute. discriminate.
Qed.

(** The department table of the frame: the three departments of February,
    by descending headcount. *)
Definition dept_columns (res : result Insights) : list (string * Z * float * float) :=
  match res with
  | Ok out => map (fun row => (Dept.department row, Dept.headcount row,
                               Dept.turnover_rate row, Dept.time_to_fill_days row))
                (dept_latest out)
  | Raise _ => []
  end.

Example tied_departments_snapshot :
  dept_columns (build_insights tied_departments)
  = [ ("Eng"%string, 110, 2.5%float, 28%float);
      ("Ops"%string, 60, 3%float, 25%float);
      ("Sales"%string, 40, 3%float, 25%float) ].
Proof. vm_compute. reflexivity. Qed.

Lemma dept_latest_correct_witness :
  valid_input tied_departments /\ (2 <= n_months tied_departments)%nat
  /\ exists out, build_insights tied_departments = Ok out
    /\ In (month_of (latest out)) (map month_date tied_departments)
    /\ (forall r, In r tied_departments -> month_date r <= month_of (latest out))
    /\ NoDup (map Dept.department (dept_latest out))
    /\ (forall d, In d (map Dept.department (dept_latest out))
                  <-> In d (map department
                              (of_month tied_departments (month_of (latest out)))))
    /\ (forall row, In row (dept_latest out) ->
          aggregates_dept tied_departments (month_of (latest out)) row)
    /\ (forall row, In row (dept_latest out) ->
          exists r,
            filter (in_dept (Dept.department row))
              (of_month tied_departments (month_of (latest out)))
            = [r]
            /\ row_of_record r row)
    /\ StronglySorted (fun a b => Dept.headcount b <= Dept.headcount a)
         (dept_latest out).
Proof.
  split; [exact tied_departments_valid|].
  split; [vm_compute; lia|].
  apply (dept_latest_correct tied_departments_valid). vm_compute. lia.
Defined.

(** C4, as the specification states it, fails: the department that comes
    first in [dept_latest] among those that tie is not always the one that
    is named.  In [tied_departments] Ops and Sales tie on both metrics and
    Ops comes first.  The script sorts with numpy's default algorithm, which
    promises no order among equal keys: with a stable sort the summary names
    Ops, with [backward_sorts] it names Sales, for the highest turnover and
    for the fastest hiring alike. *)
Lemma tied_superlative_depends_on_sort :
  chosen_departments (@build_insights stable_sorts tied_departments)
  = ["Eng"; "Ops"; "Sales"; "Ops"; "Ops"]%string
  /\ chosen_departments (@build_insights backward_sorts tied_departments)
     = ["Eng"; "Ops"; "Sales"; "Sales"; "Sales"]%string.
Proof. split; vm_compute; reflexivity. Qed.

Lemma superlatives_attain_extremes_witness :
  (2 <= n_months tied_departments)%nat
  /\ exists out, build_insights tied_departments = Ok out
    /\ attains_max Dept.turnover_rate (dept_latest out) (top_turnover (exec_summary out))
    /\ attains_min Dept.time_to_fill_days (dept_latest out) (best_ttf (exec_summary out)).
Proof.
  split; [vm_compute; lia|].
  destruct (superlatives_attain_extremes tied_departments) as (out & E & Hmax & Hmin).
  { vm_compute. lia. }
  exists out. split; [exact E|].
  assert (Hn : no_nan Dept.turnover_rate (dept_latest out)
               /\ no_nan Dept.time_to_fill_days (dept_latest out)).
  { vm_compute in E. injection E as <-. split; repeat constructor. }
  destruct Hn as [Hn1 Hn2]. split; [exact (Hmax Hn1)|exact (Hmin Hn2)].
Defined.

Definition one_month : DataFrame := firstn 1 two_months.

Lemma fewer_than_two_months_raises_witness :
  (n_months one_month < 2)%nat
  /\ build_insights one_month = Raise IndexError
  /\ (n_months one_month = 1%nat ->
      exists x, iloc (with_mom (monthly_totals one_month)) (-1) = Ok x
        /\ iloc (with_mom (monthly_totals one_month)) (-2) = Raise IndexError).
Proof.
  split; [vm_compute; lia|].
  apply (fewer_than_two_months_raises one_month). vm_compute. lia.
Defined.
(** A month without staff (and without hires) followed by a month with 110
    employees, and by a third month without hires. *)
Definition zero_month : DataFrame :=
  [ {| month := "2025-01"; department := "Eng"; headcount := 0; new_hires := 0;
       terminations := 0; open_positions := 3; time_to_fill_days := 30;
       offer_acceptance_rate := 80; turnover_rate := 0; month_date := 24300 |};
    {| month := "2025-02"; department := "Eng"; headcount := 110; new_hires := 0;
       terminations := 3; open_positions := 4; time_to_fill_days := 28;
       offer_acceptance_rate := 82; turnover_rate := 2.5; month_date := 24301 |} ].

Definition mom_columns (res : result Insights) : list (float * float) :=
  match res with
  | Ok out => map (fun r => (Monthly.headcount_mom_pct r, Monthly.new_hires_mom_pct r))
                (monthly out)
  | Raise _ => []
  end.

Example zero_month_columns :
  mom_columns (build_insights zero_month) = [(nan, nan); (infinity, nan)].
Proof. vm_compute. reflexivity. Qed.

Lemma zero_prior_period_unguarded_witness :
  (2 <= n_months zero_month)%nat
  /\ exists out, build_insights zero_month = Ok out
    /\ forall pre p c post, monthly out = pre ++ p :: c :: post ->
         (Monthly.headcount (Monthly.totals p) = 0 ->
          F64.is_inf_or_nan (Monthly.headcount_mom_pct c))
         /\ (Monthly.new_hires (Monthly.totals p) = 0 ->
             F64.is_inf_or_nan (Monthly.new_hires_mom_pct c)).
Proof.
  split; [vm_compute; lia|].
  apply (zero_prior_period_unguarded zero_month). vm_compute. lia.
Defined.
(** A repository in which neither the metrics file nor the output directory
    exists yet. *)
Definition fresh_checkout : World := {| files := FS.empty; stdout := [] |}.

(** Stand-ins for the library calls: none of them is reached when the
    metrics file is missing. *)
Definition no_rows (_ : string) : option (list RawRecord) := Some [].
Definition no_date (_ : string) : option Z := None.
Definition blank {A} (_ : A) : string := EmptyString.

(** A standard output that accepts every line. *)
Definition accepts (_ : list string) (_ : string) : option exn := None.

Definition run_main (w : World) : World * result unit :=
  main no_rows no_date blank blank blank blank blank EmptyString accepts w.

(** C5, as the specification states it, fails: with the metrics file missing
    the run is not without effect on the file system.  [main] makes the
    output directory before it calls [load_data], so the directory exists
    after the failed run although it did not exist before. *)
Lemma missing_input_creates_output_dir :
  snd (run_main fresh_checkout) = Raise FileNotFoundError
  /\ files fresh_checkout OUTPUT_DIR = None
  /\ files (fst (run_main fresh_checkout)) OUTPUT_DIR = Some FS.Dir.
Proof. repeat split. Qed.

Lemma missing_input_writes_no_file_witness :
  FS.exists_ (files fresh_checkout) DATA_PATH = false
  /\ load_data no_rows no_date (files fresh_checkout) DATA_PATH = Raise FileNotFoundError
  /\ snd (run_main fresh_checkout) = Raise FileNotFoundError
  /\ stdout (fst (run_main fresh_checkout)) = []
  /\ (forall p, p <> OUTPUT_DIR -> files (fst (run_main fresh_checkout)) p = None).
Proof.
  split; [reflexivity|].
  destruct (missing_input_writes_no_file no_rows no_date blank blank blank blank blank
              EmptyString accepts fresh_checkout eq_refl) as (H1 & H2 & H3 & H4 & _).
  repeat split; assumption.
Defined.

(** *** Runs of the report builder on a small metrics file *)

(** Stand-ins for the library calls: the CSV parser returns the four rows of
    [tied_departments] or the first of them, the date parser numbers the two
    months, the renderers return fixed bytes. *)
Definition raw_of (r : MonthlyRecord) : RawRecord :=
  {| raw_month := month r; raw_department := department r;
     raw_headcount := headcount r; raw_new_hires := new_hires r;
     raw_terminations := terminations r;
     raw_open_positions := open_positions r;
     raw_time_to_fill_days := time_to_fill_days r;
     raw_offer_acceptance_rate := offer_acceptance_rate r;
     raw_turnover_rate := turnover_rate r |}.

Definition parse_csv (bytes : string) : option (list RawRecord) :=
  if String.eqb bytes "four rows" then Some (map raw_of tied_departments)
  else if String.eqb bytes "one row" then Some (map raw_of (firstn 1 tied_departments))
  else None.

Definition parse_month (s : string) : option Z :=
  if String.eqb s "2025-01-01" then Some 24300
  else if String.eqb s "2025-02-01" then Some 24301
  else None.

Definition run_report (w : World) : World * result unit :=
  main parse_csv parse_month (fun _ => "trend"%string) (fun _ => "hiring"%string)
    (fun _ => "departments"%string) (fun _ => "summary"%string)
    (fun _ => "deck"%string) "today" accepts w.

(** A standard output that takes the heading and raises on the summary. *)
Definition refuses_summary (_ : list string) (line : string) : option exn :=
  if String.eqb line "summary" then Some UnicodeEncodeError else None.

Definition run_report_unprintable (w : World) : World * result unit :=
  main parse_csv parse_month (fun _ => "trend"%string) (fun _ => "hiring"%string)
    (fun _ => "departments"%string) (fun _ => "summary"%string)
    (fun _ => "deck"%string) "today" refuses_summary w.

Definition metrics_world : World :=
  {| files := FS.update FS.empty DATA_PATH (FS.File "four rows"); stdout := [] |}.

Definition short_world : World :=
  {| files := FS.update FS.empty DATA_PATH (FS.File "one row"); stdout := [] |}.

Definition charts_world : World :=
  {| files := FS.update (FS.update (FS.update (FS.update FS.empty OUTPUT_DIR FS.Dir)
                "a.png" (FS.File "A")) "b.png" (FS.File "B")) "c.png" (FS.File "C");
     stdout := [] |}.

Lemma metrics_world_loads :
  load_data parse_csv parse_month (files metrics_world) DATA_PATH = Ok tied_departments.
Proof. reflexivity. Qed.

Lemma metrics_world_writable p :
  In p artifacts -> files metrics_world p <> Some FS.Dir.
Proof.
  intros _. unfold metrics_world, files, FS.update, FS.empty.
  destruct (String.eqb p DATA_PATH); discriminate.
Qed.

Lemma report_touches_only_its_outputs_witness :
  "README.md"%string <> OUTPUT_DIR /\ ~ In "README.md"%string artifacts
  /\ files (fst (run_report metrics_world)) "README.md"%string = None
  /\ files (fst (run_report metrics_world)) DATA_PATH = Some (FS.File "four rows").
Proof.
  assert (Hd : "README.md"%string <> OUTPUT_DIR) by discriminate.
  assert (Ha : ~ In "README.md"%string artifacts).
  { intros C. repeat (destruct C as [C|C]; [discriminate C|]). exact C. }
  split; [exact Hd|]. split; [exact Ha|].
  exact (@report_touches_only_its_outputs stable_sorts parse_csv parse_month
           (fun _ => "trend"%string) (fun _ => "hiring"%string)
           (fun _ => "departments"%string) (fun _ => "summary"%string)
           (fun _ => "deck"%string) "today" accepts metrics_world
           "README.md"%string Hd Ha).
Defined.

(** A failed run that printed nothing, and a run that failed while
    printing: the heading is out, the five files are written. *)
Lemma failed_run_printed_after_writing_witness :
  snd (run_main fresh_checkout) = Raise FileNotFoundError
  /\ stdout (fst (run_main fresh_checkout)) = []
  /\ files (fst (run_main fresh_checkout)) summary_path = None
  /\ snd (run_report_unprintable metrics_world) = Raise UnicodeEncodeError
  /\ stdout (fst (run_report_unprintable metrics_world)) = ["Executive Summary:"%string]
  /\ forall p, In p artifacts ->
       exists bytes,
         files (fst (run_report_unprintable metrics_world)) p = Some (FS.File bytes).
Proof.
  split; [reflexivity|].
  destruct (@failed_run_printed_after_writing stable_sorts no_rows no_date blank blank
              blank blank blank EmptyString accepts fresh_checkout FileNotFoundError
              eq_refl) as [[H1 H2]|[H _]].
  2:{ exfalso. destruct (H summary_path) as [bytes Hb]; [cbn [artifacts In]; tauto|].
      vm_compute in Hb. discriminate Hb. }
  split; [exact H1|]. split; [exact H2|].
  assert (E : snd (run_report_unprintable metrics_world) = Raise UnicodeEncodeError)
    by (vm_compute; reflexivity).
  split; [exact E|]. split; [vm_compute; reflexivity|].
  destruct (@failed_run_printed_after_writing stable_sorts parse_csv parse_month
              (fun _ => "trend"%string) (fun _ => "hiring"%string)
              (fun _ => "departments"%string) (fun _ => "summary"%string)
              (fun _ => "deck"%string) "today" refuses_summary metrics_world
              UnicodeEncodeError E) as [[H _]|[H _]].
  - exfalso. vm_compute in H. discriminate H.
  - exact H.
Defined.

Lemma deck_agrees_with_summary_witness :
  exists frames low,
    build_insights tied_departments = Ok frames
    /\ least_headcount (dept_latest frames) low
    /\ snd (build_presentation (fun _ => "deck"%string) "today" "text" frames
              "a.png" "b.png" "c.png" charts_world) = Ok out_pptx
    /\ files (fst (build_presentation (fun _ => "deck"%string) "today" "text" frames
                     "a.png" "b.png" "c.png" charts_world)) out_pptx
       = Some (FS.File "deck").
Proof.
  destruct (build_insights tied_departments) as [frames|e] eqn:E;
    [|vm_compute in E; discriminate].
  assert (Hp : files charts_world out_pptx <> Some FS.Dir) by discriminate.
  destruct (@deck_agrees_with_summary stable_sorts (fun _ => "deck"%string) "today"
              "text" tied_departments frames "a.png" "b.png" "c.png" charts_world
              "A" "B" "C" E eq_refl eq_refl eq_refl eq_refl Hp)
    as (low & Hlow & R & F).
  exists frames, low. split; [reflexivity|]. split; [exact Hlow|].
  split; [exact R|exact F].
Defined.

Lemma report_run_writes_five_files_witness :
  snd (run_report metrics_world) = Ok tt
  /\ files (fst (run_report metrics_world)) OUTPUT_DIR = Some FS.Dir
  /\ files (fst (run_report metrics_world)) headcount_chart = Some (FS.File "trend")
  /\ files (fst (run_report metrics_world)) out_pptx = Some (FS.File "deck")
  /\ files (fst (run_report metrics_world)) summary_path
     = Some (FS.File (String.append "summary" (String "010" EmptyString)))
  /\ stdout (fst (run_report metrics_world))
     = ["Executive Summary:"%string; "summary"%string; generated_listing].
Proof.
  destruct (build_insights tied_departments) as [frames|e] eqn:E;
    [|vm_compute in E; discriminate].
  assert (Hd : forall b, files metrics_world OUTPUT_DIR <> Some (FS.File b))
    by (intros b; discriminate).
  destruct (@report_run_writes_five_files stable_sorts parse_csv parse_month
              (fun _ => "trend"%string) (fun _ => "hiring"%string)
              (fun _ => "departments"%string) (fun _ => "summary"%string)
              (fun _ => "deck"%string) "today" accepts metrics_world
              tied_departments frames
              Hd metrics_world_loads E metrics_world_writable
              eq_refl eq_refl eq_refl)
    as (R & D & C2 & _ & _ & (low & _ & P) & S & O).
  repeat split; assumption.
Defined.

Lemma bad_input_writes_nothing_witness :
  snd (run_report short_world) = Raise IndexError
  /\ stdout (fst (run_report short_world)) = []
  /\ files (fst (run_report short_world)) OUTPUT_DIR = Some FS.Dir
  /\ files (fst (run_report short_world)) headcount_chart = None
  /\ snd (main parse_csv no_date blank blank blank blank blank EmptyString accepts
            metrics_world) = Raise ValueError
  /\ files (fst (main parse_csv no_date blank blank blank blank blank EmptyString
                   accepts metrics_world)) summary_path = None.
Proof.
  assert (Hd : forall b, files short_world OUTPUT_DIR <> Some (FS.File b))
    by (intros b; discriminate).
  assert (Hn : (n_months (firstn 1 tied_departments) < 2)%nat)
    by (vm_compute; lia).
  destruct (@bad_input_writes_nothing stable_sorts parse_csv parse_month
              (fun _ => "trend"%string) (fun _ => "hiring"%string)
              (fun _ => "departments"%string) (fun _ => "summary"%string)
              (fun _ => "deck"%string) "today" accepts short_world IndexError Hd
              (or_intror (ex_intro _ (firstn 1 tied_departments)
                            (conj eq_refl (conj Hn eq_refl)))))
    as (R & S & D & F).
  assert (Hd' : forall b, files metrics_world OUTPUT_DIR <> Some (FS.File b))
    by (intros b; discriminate).
  destruct (@bad_input_writes_nothing stable_sorts parse_csv no_date blank blank blank
              blank blank EmptyString accepts metrics_world ValueError Hd'
              (or_introl eq_refl))
    as (R' & _ & _ & F').
  split; [exact R|]. split; [exact S|]. split; [exact D|].
  split; [exact (F headcount_chart ltac:(discriminate))|].
  split; [exact R'|]. exact (F' summary_path ltac:(discriminate)).
Defined.
Lemma aggregation_conserves_counts_witness :
  valid_input tied_departments /\ (2 <= n_months tied_departments)%nat
  /\ exists out, build_insights tied_departments = Ok out
    /\ Int64.total (map (fun r => Monthly.headcount (Monthly.totals r)) (monthly out))
       = 310
    /\ Int64.total (map Dept.headcount (dept_latest out)) = 210.
Proof.
  pose proof tied_departments_valid as V.
  split; [exact V|]. split; [vm_compute; lia|].
  destruct (aggregation_conserves_counts V) as (out & E & H1 & _ & _ & _ & H5).
  { vm_compute. lia. }
  exists out. split; [exact E|]. split.
  - rewrite H1. reflexivity.
  - rewrite H5. vm_compute in E. injection E as <-. reflexivity.
Defined.

(** January and March, with no record for February. *)
Definition gap_months : DataFrame :=
  [ {| month := "2025-01"; department := "Eng"; headcount := 100; new_hires := 5;
       terminations := 2; open_positions := 3; time_to_fill_days := 30;
       offer_acceptance_rate := 80; turnover_rate := 2; month_date := 24300 |};
    {| month := "2025-03"; department := "Eng"; headcount := 125; new_hires := 8;
       terminations := 3; open_positions := 4; time_to_fill_days := 28;
       offer_acceptance_rate := 82; turnover_rate := 2.5; month_date := 24302 |} ].

Lemma summary_compares_latest_with_prior_witness :
  (2 <= n_months gap_months)%nat
  /\ exists out, build_insights gap_months = Ok out
    /\ month_of (prior out) = 24300 /\ month_of (latest out) = 24302
    /\ headcount_mom (exec_summary out) = 25%float
    /\ turnover_mom (exec_summary out) = 0.5%float.
Proof.
  split; [vm_compute; lia|].
  destruct (summary_compares_latest_with_prior gap_months)
    as (out & E & _ & _ & _ & _ & _ & Eh & Et).
  { vm_compute. lia. }
  exists out. split; [exact E|]. rewrite Eh, Et.
  vm_compute in E. injection E as <-. repeat split.
Defined.

Lemma monthly_counts_row_order_witness :
  Permutation tied_departments (rev tied_departments)
  /\ (2 <= n_months tied_departments)%nat
  /\ exists out out',
       build_insights tied_departments = Ok out
       /\ build_insights (rev tied_departments) = Ok out'
       /\ map count_columns (monthly out) = map count_columns (monthly out').
Proof.
  split; [apply Permutation_rev|]. split; [vm_compute; lia|].
  apply (monthly_counts_row_order (Permutation_rev tied_departments)).
  vm_compute. lia.
Defined.
Definition march_rows : DataFrame :=
  [ {| month := "2025-03"; department := "Eng"; headcount := 120; new_hires := 9;
       terminations := 1; open_positions := 5; time_to_fill_days := 27;
       offer_acceptance_rate := 83; turnover_rate := 2; month_date := 24302 |};
    {| month := "2025-03"; department := "Ops"; headcount := 45; new_hires := 1;
       terminations := 0; open_positions := 2; time_to_fill_days := 24;
       offer_acceptance_rate := 80; turnover_rate := 1.5; month_date := 24302 |} ].

Lemma new_month_extends_history_witness :
  exists out out',
    build_insights two_months = Ok out
    /\ build_insights (two_months ++ march_rows) = Ok out'
    /\ monthly out' = monthly out ++ [latest out']
    /\ prior out' = latest out
    /\ month_of (latest out') = 24302
    /\ Monthly.headcount (Monthly.totals (latest out')) = 165
    /\ Monthly.headcount_mom_pct (latest out') = 50%float.
Proof.
  destruct (build_insights two_months) as [out|e] eqn:E;
    [|vm_compute in E; discriminate].
  assert (Hne : march_rows <> []) by discriminate.
  assert (Hrs : Forall (fun r => month_date r = 24302) march_rows)
    by (repeat constructor).
  assert (Hdf : Forall (fun r => month_date r < 24302) two_months)
    by (repeat constructor).
  destruct (new_month_extends_history E Hne Hrs Hdf)
    as (out' & E' & Hm & Hp & Hl & Hh & Hpct).
  exists out, out'. split; [reflexivity|]. split; [exact E'|].
  split; [exact Hm|]. split; [exact Hp|]. split; [exact Hl|].
  split; [rewrite Hh; reflexivity|].
  rewrite Hpct. vm_compute in E. injection E as <-. reflexivity.
Defined.

End ReportBuilder.

(** ** Python's numeric built-ins, on exact numbers

    The comparisons, [max], [min] and [round] below are Python's, the
    arithmetic is without rounding error and never fails.  They serve the
    structure of the mock data generator's output; the values it writes are
    computed in binary64, with [Py64] below. *)

Module Py.
Open Scope Q_scope.

(** [max(a, b)]: the first argument unless the second is strictly greater. *)
Definition max (a b : Q) : Q :=
  match Qcompare a b with
  | Lt => b
  | _ => a
  end.

(** [min(a, b)]: the first argument unless the second is strictly smaller. *)
Definition min (a b : Q) : Q :=
  match Qcompare b a with
  | Lt => b
  | _ => a
  end.

(** [round(x)]: to the nearest integer, ties to the even one. *)
Definition round (x : Q) : Z :=
  let f := Qfloor x in
  match Qcompare (x - inject_Z f) (1 # 2) with
  | Lt => f
  | Gt => (f + 1)%Z
  | Eq => if Z.even f then f else (f + 1)%Z
  end.

(** [round(x, ndigits)] *)
Definition round_to (x : Q) (ndigits : nat) : Q :=
  let scale := inject_Z (10 ^ Z.of_nat ndigits) in
  inject_Z (round (x * scale)) / scale.

(** [x in xs] for integers. *)
Definition mem (x : Z) (xs : list Z) : bool := existsb (Z.eqb x) xs.

(** [d[k]] on a dict literal. *)
Fixpoint getitem {V} (d : list (string * V)) (k : string) : result V :=
  match d with
  | [] => Raise KeyError
  | (k', v) :: d' => if String.eqb k k' then Ok v else getitem d' k
  end.

Example round_ties_to_even :
  round 0.5 = 0%Z /\ round 1.5 = 2%Z /\ round 2.5 = 2%Z /\ round (-0.5) = 0%Z
  /\ round 2.6 = 3%Z /\ round (-2.6) = (-3)%Z.
Proof. repeat split. Qed.

Lemma max_ge_l a b : a <= max a b.
Proof.
  unfold max. destruct (Qcompare a b) eqn:E; try apply Qle_refl.
  apply Qlt_le_weak. exact E.
Qed.

Lemma max_ge_r a b : b <= max a b.
Proof.
  unfold max. destruct (Qcompare a b) eqn:E; try apply Qle_refl.
  - apply Qeq_alt in E. rewrite E. apply Qle_refl.
  - apply Qgt_alt in E. now apply Qlt_le_weak.
Qed.

Lemma min_le_l a b : min a b <= a.
Proof.
  unfold min. destruct (Qcompare b a) eqn:E; try apply Qle_refl.
  apply Qlt_le_weak. exact E.
Qed.

Lemma round_ge_floor x : (Qfloor x <= round x)%Z.
Proof.
  unfold round. destruct (Qcompare _ _); try destruct (Z.even _); lia.
Qed.

Lemma round_ge (n : Z) x : inject_Z n <= x -> (n <= round x)%Z.
Proof.
  intros H. pose proof (round_ge_floor x) as Hf.
  assert (n <= Qfloor x)%Z; [|lia].
  rewrite <- (Qfloor_Z n). now apply Qfloor_resp_le.
Qed.

Lemma round_le (n : Z) x : x <= inject_Z n -> (round x <= n)%Z.
Proof.
  intros H.
  assert (Hf : (Qfloor x <= n)%Z).
  { rewrite <- (Qfloor_Z n). now apply Qfloor_resp_le. }
  destruct (Z.eq_dec (Qfloor x) n) as [E|NE].
  - unfold round. rewrite E.
    assert (Hx : x - inject_Z n <= 0).
    { apply Qle_minus_iff. setoid_replace (0 + - (x - inject_Z n)) with (inject_Z n + - x) by ring.
      now apply Qle_minus_iff in H. }
    assert (Hlt : x - inject_Z n < 1 # 2).
    { eapply Qle_lt_trans; [exact Hx|reflexivity]. }
    destruct (Qcompare (x - inject_Z n) (1 # 2)) eqn:C; [|lia|].
    + exfalso. assert (C' : x - inject_Z n == 1 # 2) by now apply Qeq_alt.
      rewrite C' in Hlt. now apply Qlt_irrefl in Hlt.
    + exfalso. assert (C' : 1 # 2 < x - inject_Z n) by now apply Qgt_alt.
      apply (Qlt_irrefl (1 # 2)). now apply Qlt_trans with (x - inject_Z n).
  - unfold round. destruct (Qcompare _ _); try destruct (Z.even _); lia.
Qed.
End Py.

(** ** Python's numeric built-ins on binary64 floats

    What the mock data generator computes with: Python's [float] is a
    binary64 number, its [int] an unbounded integer. *)

Module Py64.
Open Scope Z_scope.

(** *** Rounding a product to binary64 *)

Lemma digits2_pos_bounds m :
  2 ^ (Z.pos (digits2_pos m) - 1) <= Z.pos m < 2 ^ Z.pos (digits2_pos m).
Proof.
  induction m as [p IH|p IH|]; cbn [digits2_pos]; rewrite ?Pos2Z.inj_succ.
  - replace (Z.succ (Z.pos (digits2_pos p)) - 1) with (Z.succ (Z.pos (digits2_pos p) - 1)) by lia.
    rewrite !Z.pow_succ_r by lia. lia.
  - replace (Z.succ (Z.pos (digits2_pos p)) - 1) with (Z.succ (Z.pos (digits2_pos p) - 1)) by lia.
    rewrite !Z.pow_succ_r by lia. lia.
  - simpl. lia.
Qed.

Lemma digits2_pos_unique m k :
  2 ^ (k - 1) <= Z.pos m < 2 ^ k -> Z.pos (digits2_pos m) = k.
Proof.
  intros [H1 H2]. pose proof (digits2_pos_bounds m) as [B1 B2].
  set (d := Z.pos (digits2_pos m)) in *.
  assert (Hd : 0 < d) by (unfold d; lia).
  assert (Hk : 0 < k).
  { destruct (Z.lt_ge_cases 0 k) as [H|H]; [exact H|].
    exfalso. destruct (Z.eq_dec k 0) as [->|Hn].
    - simpl in H2. lia.
    - rewrite (Z.pow_neg_r 2 k) in H2 by lia. lia. }
  destruct (Z.lt_trichotomy d k) as [H|[H|H]]; [exfalso|exact H|exfalso].
  - assert (2 ^ d <= 2 ^ (k - 1)) by (apply Z.pow_le_mono_r; lia). lia.
  - assert (2 ^ k <= 2 ^ (d - 1)) by (apply Z.pow_le_mono_r; lia). lia.
Qed.

(** The state of a right shift of [m0] by [k] bits: the quotient, whether
    the remainder reaches one half, and whether anything is left beyond. *)
Definition shifted (m0 k : Z) (mrs : shr_record) : Prop :=
  shr_m mrs = m0 / 2 ^ k
  /\ (k = 0 -> shr_r mrs = false /\ shr_s mrs = false)
  /\ (0 < k ->
      let rem := m0 mod 2 ^ k in
      let half := 2 ^ (k - 1) in
      shr_r mrs = (half <=? rem)
      /\ shr_s mrs = negb ((if half <=? rem then rem - half else rem) =? 0)).

Lemma shr_1_div2 m r s : 0 <= m ->
  shr_m (shr_1 {| shr_m := m; shr_r := r; shr_s := s |}) = m / 2
  /\ shr_r (shr_1 {| shr_m := m; shr_r := r; shr_s := s |}) = Z.odd m
  /\ shr_s (shr_1 {| shr_m := m; shr_r := r; shr_s := s |}) = r || s.
Proof.
  intros H. destruct m as [|[p|p|]|p]; try lia; cbn [shr_1 shr_m shr_r shr_s].
  - repeat split.
  - repeat split. rewrite Pos2Z.inj_xI. symmetry.
    replace (2 * Z.pos p + 1) with (1 + Z.pos p * 2) by lia.
    rewrite Z.div_add by lia. reflexivity.
  - repeat split. rewrite Pos2Z.inj_xO. symmetry.
    rewrite Z.mul_comm. apply Z.div_mul. lia.
  - repeat split.
Qed.

Lemma shifted_step m0 k mrs :
  0 <= m0 -> 0 <= k -> shifted m0 k mrs -> shifted m0 (k + 1) (shr_1 mrs).
Proof.
  intros Hm Hk (Em & H0 & Hpos). destruct mrs as [m r s].
  cbn [shr_m shr_r shr_s] in *.
  assert (Hp : 0 < 2 ^ k) by (apply Z.pow_pos_nonneg; lia).
  assert (Hm' : 0 <= m) by (rewrite Em; apply Z.div_pos; lia).
  destruct (shr_1_div2 r s Hm') as (E1 & E2 & E3).
  assert (Erem : m0 mod 2 ^ (k + 1) = m0 mod 2 ^ k + 2 ^ k * (m mod 2)).
  { rewrite Z.pow_add_r, Z.pow_1_r by lia. rewrite Z.rem_mul_r by lia.
    now rewrite Em. }
  assert (Hlt : 0 <= m0 mod 2 ^ k < 2 ^ k) by (apply Z.mod_pos_bound; lia).
  assert (Hodd : m mod 2 = if Z.odd m then 1 else 0).
  { rewrite Zmod_odd. reflexivity. }
  split; [|split].
  - rewrite E1, Em, Z.pow_add_r, Z.pow_1_r by lia. now rewrite Z.div_div by lia.
  - intros C. lia.
  - intros _. cbv zeta. replace (k + 1 - 1) with k by lia.
    rewrite E2, E3, Erem, Hodd.
    destruct (Z.eq_dec k 0) as [->|Hk0].
    + destruct (H0 eq_refl) as [-> ->]. simpl in *.
      assert (m0 mod 1 = 0) by (apply Z.mod_1_r).
      destruct (Z.odd m); simpl; split; try reflexivity; rewrite H; reflexivity.
    + destruct (Hpos ltac:(lia)) as [Er Es]. cbv zeta in Er, Es.
      assert (Hh : 2 ^ k = 2 * 2 ^ (k - 1)).
      { replace k with (Z.succ (k - 1)) at 1 by lia. apply Z.pow_succ_r. lia. }
      set (rem := m0 mod 2 ^ k) in *. set (half := 2 ^ (k - 1)) in *.
      destruct (Z.odd m).
      * replace (2 ^ k <=? rem + 2 ^ k * 1) with true by (symmetry; apply Z.leb_le; lia).
        split; [reflexivity|].
        replace (rem + 2 ^ k * 1 - 2 ^ k) with rem by lia.
        rewrite Er, Es. destruct (half <=? rem) eqn:C.
        -- apply Z.leb_le in C. simpl.
           symmetry. apply negb_true_iff, Z.eqb_neq. lia.
        -- simpl. reflexivity.
      * replace (2 ^ k <=? rem + 2 ^ k * 0) with false by (symmetry; apply Z.leb_gt; lia).
        split; [reflexivity|].
        replace (rem + 2 ^ k * 0) with rem by lia.
        rewrite Er, Es. destruct (half <=? rem) eqn:C.
        -- apply Z.leb_le in C. simpl.
           symmetry. apply negb_true_iff, Z.eqb_neq. lia.
        -- simpl. reflexivity.
Qed.

Lemma iter_pos_count {A} (P : Z -> A -> Prop) (f : A -> A) :
  (forall k x, 0 <= k -> P k x -> P (k + 1) (f x)) ->
  forall p k x, 0 <= k -> P k x -> P (k + Z.pos p) (SpecFloat.iter_pos f p x).
Proof.
  intros Hf. induction p as [p IH|p IH|]; intros k x Hk Hx; cbn [SpecFloat.iter_pos].
  - replace (k + Z.pos p~1) with ((k + 1 + Z.pos p) + Z.pos p) by lia.
    apply IH; [lia|]. apply IH; [lia|]. now apply Hf.
  - replace (k + Z.pos p~0) with ((k + Z.pos p) + Z.pos p) by lia.
    apply IH; [lia|]. now apply IH.
  - now apply Hf.
Qed.

Lemma shr_shifted m0 e n :
  0 <= m0 -> 0 < n ->
  shifted m0 n (fst (shr (shr_record_of_loc m0 loc_Exact) e n))
  /\ snd (shr (shr_record_of_loc m0 loc_Exact) e n) = e + n.
Proof.
  intros Hm Hn. destruct n as [|p|p]; try lia. cbn [shr fst snd].
  split; [|reflexivity].
  apply (@iter_pos_count _ (shifted m0) shr_1 (fun k x Hk => @shifted_step m0 k x Hm Hk) p 0).
  - lia.
  - cbn [shr_record_of_loc]. split; [|split].
    + cbn [shr_m]. now rewrite Z.pow_0_r, Z.div_1_r.
    + intros _. split; reflexivity.
    + intros C. lia.
Qed.

(** Shifting right by [n] bits with rounding to nearest, ties to even. *)
Definition rne (m n : Z) : Z :=
  let q := m / 2 ^ n in
  match Z.compare (m mod 2 ^ n) (2 ^ (n - 1)) with
  | Lt => q
  | Eq => if Z.even q then q else q + 1
  | Gt => q + 1
  end.

Lemma shifted_rne m0 n mrs :
  0 < n -> shifted m0 n mrs ->
  round_nearest_even (shr_m mrs) (loc_of_shr_record mrs) = rne m0 n.
Proof.
  intros Hn (Em & _ & H). destruct (H Hn) as [Er Es]. cbv zeta in Er, Es.
  destruct mrs as [m r s]. cbn [shr_m shr_r shr_s] in *. unfold rne.
  rewrite <- Em. subst r s.
  set (rem := m0 mod 2 ^ n). set (half := 2 ^ (n - 1)).
  destruct (Z.compare_spec rem half) as [C|C|C].
  - replace (half <=? rem) with true by (symmetry; apply Z.leb_le; lia).
    replace (rem - half =? 0) with true by (symmetry; apply Z.eqb_eq; lia).
    reflexivity.
  - replace (half <=? rem) with false by (symmetry; apply Z.leb_gt; lia).
    cbn [loc_of_shr_record]. destruct (negb (rem =? 0)); reflexivity.
  - replace (half <=? rem) with true by (symmetry; apply Z.leb_le; lia).
    replace (rem - half =? 0) with false by (symmetry; apply Z.eqb_neq; lia).
    reflexivity.
Qed.

Lemma rne_mono m m' n : 0 < n -> 0 <= m -> m <= m' -> rne m n <= rne m' n.
Proof.
  intros Hn Hm Hle. unfold rne.
  assert (Hp : 0 < 2 ^ n) by (apply Z.pow_pos_nonneg; lia).
  assert (Hh : 2 ^ n = 2 * 2 ^ (n - 1)).
  { replace n with (Z.succ (n - 1)) at 1 by lia. apply Z.pow_succ_r. lia. }
  pose proof (Z.div_mod m (2 ^ n) ltac:(lia)) as D.
  pose proof (Z.div_mod m' (2 ^ n) ltac:(lia)) as D'.
  pose proof (Z.mod_pos_bound m (2 ^ n) Hp) as B.
  pose proof (Z.mod_pos_bound m' (2 ^ n) Hp) as B'.
  assert (Hq : m / 2 ^ n <= m' / 2 ^ n) by (apply Z.div_le_mono; lia).
  set (q := m / 2 ^ n) in *. set (q' := m' / 2 ^ n) in *.
  set (r := m mod 2 ^ n) in *. set (r' := m' mod 2 ^ n) in *.
  set (h := 2 ^ (n - 1)) in *.
  destruct (Z.eq_dec q q') as [E|NE].
  - assert (r <= r') by nia.
    rewrite <- E.
    destruct (Z.compare_spec r h), (Z.compare_spec r' h);
      try destruct (Z.even q); lia.
  - assert (q + 1 <= q') by lia.
    destruct (Z.compare_spec r h), (Z.compare_spec r' h);
      try destruct (Z.even q); try destruct (Z.even q'); lia.
Qed.

Lemma rne_bounds m n d :
  0 < n -> 2 ^ (d - 1) <= m < 2 ^ d -> d = n + 53 ->
  2 ^ 52 <= rne m n <= 2 ^ 53.
Proof.
  intros Hn [H1 H2] ->. unfold rne.
  assert (Hp : 0 < 2 ^ n) by (apply Z.pow_pos_nonneg; lia).
  replace (n + 53 - 1) with (52 + n) in H1 by lia.
  rewrite Z.pow_add_r in H1, H2 by lia.
  assert (Hq1 : 2 ^ 52 <= m / 2 ^ n).
  { apply Z.div_le_lower_bound; lia. }
  assert (Hq2 : m / 2 ^ n < 2 ^ 53).
  { apply Z.div_lt_upper_bound; lia. }
  destruct (Z.compare _ _); try destruct (Z.even _); lia.
Qed.

(** The nearest binary64 number to [M * 2^E], for a mantissa [M] of more
    than 53 bits whose rounding neither underflows nor overflows. *)
Lemma binary_round_aux_normal s M E n :
  0 < n -> Z.pos (digits2_pos M) = n + 53 -> -1074 <= E + n -> E + n + 1 <= 971 ->
  binary_round_aux prec emax s (Z.pos M) E loc_Exact
  = if rne (Z.pos M) n <? 2 ^ 53
    then S754_finite s (Z.to_pos (rne (Z.pos M) n)) (E + n)
    else S754_finite s (Z.to_pos (2 ^ 52)) (E + n + 1).
Proof.
  intros Hn Hd Hlo Hhi.
  pose proof (digits2_pos_bounds M) as HM. rewrite Hd in HM.
  pose proof (@rne_bounds (Z.pos M) n (n + 53) Hn HM eq_refl) as Hr.
  unfold binary_round_aux, shr_fexp, fexp, FloatOps.prec, FloatOps.emax.
  change (SpecFloat.emin 53 1024) with (-1074).
  cbn [Zdigits2]. rewrite Hd.
  replace (Z.max (n + 53 + E - 53) (-1074) - E) with n by lia.
  destruct (@shr_shifted (Z.pos M) E n ltac:(lia) Hn) as [Hs He].
  destruct (shr (shr_record_of_loc (Z.pos M) loc_Exact) E n) as [mrs' e'].
  cbn [fst snd] in Hs, He. subst e'.
  rewrite (shifted_rne Hn Hs).
  set (m1 := rne (Z.pos M) n) in *.
  destruct (m1 <? 2 ^ 53) eqn:C.
  - apply Z.ltb_lt in C.
    destruct m1 as [|p|p] eqn:Em; try lia.
    cbn [Zdigits2].
    rewrite (@digits2_pos_unique p 53) by (simpl; lia).
    replace (Z.max (53 + (E + n) - 53) (-1074) - (E + n)) with 0 by lia.
    cbn [shr shr_record_of_loc shr_m].
    replace (E + n <=? 1024 - 53) with true by (symmetry; apply Z.leb_le; lia).
    reflexivity.
  - apply Z.ltb_ge in C. assert (Em : m1 = 2 ^ 53) by lia. rewrite Em.
    change (Zdigits2 (2 ^ 53)) with 54.
    replace (Z.max (54 + (E + n) - 53) (-1074) - (E + n)) with 1 by lia.
    cbn [shr SpecFloat.iter_pos shr_record_of_loc]. simpl shr_1. cbn [shr_m].
    replace (E + n + 1 <=? 1024 - 53) with true by (symmetry; apply Z.leb_le; lia).
    reflexivity.
Qed.


(** A Python number: an [int] or a [float]. *)
Inductive number : Type :=
| Int (z : Z)
| Float (x : float).

(** An [int] operand of a float operation is converted to the nearest
    float; the conversion raises [OverflowError] when the integer is too
    large for a float. *)
Definition to_float (z : Z) : result float :=
  let f := SF2Prim (binary_normalize prec emax z 0 false) in
  if is_infinity f then Raise OverflowError else Ok f.

(** [max(c, x)] for an [int] literal [c] and a float [x]: the first argument
    unless the second is greater (a NaN is not).  Python compares an [int]
    with a [float] exactly; the script's literals 0, 8 and 15 are floats. *)
Definition max_int (c : Z) (x : float) : number :=
  if (F64.of_int64 c <? x)%float then Float x else Int c.

(** [min(a, b)] and [max(a, b)] on floats: the first argument unless the
    second is smaller, respectively greater. *)
Definition min (a b : float) : float := if (b <? a)%float then b else a.
Definition max (a b : float) : float := if (a <? b)%float then b else a.

(** The integer nearest to [m * 2^e], ties to the even one ([0 <= m]). *)
Definition round_half_even (m e : Z) : Z :=
  if 0 <=? e then m * 2 ^ e else rne m (- e).

(** [round(x)]: an [int] is returned as it is, a float is rounded to the
    nearest integer, ties to even; an infinity raises [OverflowError], a
    NaN [ValueError]. *)
Definition round (x : number) : result Z :=
  match x with
  | Int z => Ok z
  | Float f =>
      match Prim2SF f with
      | S754_zero _ => Ok 0
      | S754_finite s m e => Ok (cond_Zopp s (round_half_even (Z.pos m) e))
      | S754_infinity _ => Raise OverflowError
      | S754_nan => Raise ValueError
      end
  end.

(** The float nearest to the fraction [k / d], with sign [s]
    ([0 <= k], [0 < d]). *)
Definition nearest (s : bool) (k d : Z) : float :=
  match k with
  | Z.pos p =>
      SF2Prim (SFdiv prec emax (S754_finite s p 0) (S754_finite false (Z.to_pos d) 0))
  | _ => if s then (-0)%float else 0%float
  end.

(** [round(x, ndigits)] for [0 <= ndigits]: the exact value of [x] is
    rounded to [ndigits] decimal places, ties to even, and the float nearest
    to that decimal is returned. *)
Definition round_to (x : float) (ndigits : Z) : float :=
  match Prim2SF x with
  | S754_finite s m e =>
      nearest s (round_half_even (Z.pos m * 10 ^ ndigits) e) (10 ^ ndigits)
  | _ => x
  end.

(** 4.025, 2.675 and 0.125 to two places: the first two are not ties in
    binary64 (4.03 and 2.67), the third is (0.12). *)
Example round_to_examples :
  round_to 0x1.019999999999ap+2 2 = 0x1.01eb851eb851fp+2%float
  /\ round_to 0x1.5666666666666p+1 2 = 0x1.55c28f5c28f5cp+1%float
  /\ round_to 0.125 2 = 0x1.eb851eb851eb8p-4%float
  /\ round_to 62 1 = 62%float /\ round_to infinity 1 = infinity.
Proof. repeat split. Qed.

Example round_examples :
  round (Float 0.5) = Ok 0 /\ round (Float 1.5) = Ok 2 /\ round (Float 2.5) = Ok 2
  /\ round (Float (-0.5)) = Ok 0 /\ round (Float (-2.5)) = Ok (-2)
  /\ round (Float 0x1.4cccccccccccdp+1) = Ok 3 /\ round (Float 0x1p+60) = Ok (2 ^ 60)
  /\ round (Int 7) = Ok 7
  /\ round (Float infinity) = Raise OverflowError
  /\ round (Float nan) = Raise ValueError.
Proof. repeat split. Qed.

(** *** Order and value of valid floats *)

Lemma finite_valid x s m e :
  Prim2SF x = S754_finite s m e ->
  -1074 <= e <= 971 /\ (e = -1074 \/ Z.pos (digits2_pos m) = 53).
Proof.
  intros E. pose proof (Prim2SF_valid x) as V. rewrite E in V.
  unfold valid_binary, bounded, canonical_mantissa, fexp, FloatOps.prec,
    FloatOps.emax in V.
  change (SpecFloat.emin 53 1024) with (-1074) in V.
  apply andb_prop in V as [Hc He]. apply Z.eqb_eq in Hc. apply Z.leb_le in He.
  lia.
Qed.

Lemma SFleb_pos m1 e1 m2 e2 :
  e1 < e2 \/ (e1 = e2 /\ Z.pos m1 <= Z.pos m2) ->
  SFleb (S754_finite false m1 e1) (S754_finite false m2 e2) = true.
Proof.
  intros H. unfold SFleb, SFcompare.
  destruct (Z.compare_spec e1 e2); try reflexivity; try lia.
  change (Pos.compare_cont Eq m1 m2) with (Pos.compare m1 m2).
  destruct (Pos.compare_spec m1 m2); try reflexivity. lia.
Qed.

(** A float between two positive numbers is a positive number whose
    exponent and mantissa lie between theirs. *)
Lemma SFleb_between mlo elo mhi ehi B :
  SFleb (S754_finite false mlo elo) B = true ->
  SFleb B (S754_finite false mhi ehi) = true ->
  exists m e, B = S754_finite false m e
    /\ (elo < e \/ (elo = e /\ Z.pos mlo <= Z.pos m))
    /\ (e < ehi \/ (e = ehi /\ Z.pos m <= Z.pos mhi)).
Proof.
  unfold SFleb, SFcompare. destruct B as [s|s| |s m e]; try destruct s;
    try discriminate.
  intros H1 H2. exists m, e. split; [reflexivity|]. split.
  - destruct (Z.compare_spec elo e); try discriminate; [|lia].
    change (Pos.compare_cont Eq mlo m) with (Pos.compare mlo m) in H1.
    destruct (Pos.compare_spec mlo m); try discriminate; lia.
  - destruct (Z.compare_spec e ehi); try discriminate; [|lia].
    change (Pos.compare_cont Eq m mhi) with (Pos.compare m mhi) in H2.
    destruct (Pos.compare_spec m mhi); try discriminate; lia.
Qed.

Lemma ltb_leb a b : (a <? b)%float = true -> (a <=? b)%float = true.
Proof.
  rewrite ltb_spec, leb_spec. unfold SFltb, SFleb.
  destruct (SFcompare _ _) as [[]|]; congruence.
Qed.

Lemma ltb_leb_refl a b :
  (a <? b)%float = true -> (a <=? a)%float = true /\ (b <=? b)%float = true.
Proof.
  intros H. apply ltb_leb in H. destruct (F64.leb_not_nan H) as [Ha Hb].
  split; [now destruct (@F64.leb_total a a Ha Ha)|now destruct (@F64.leb_total b b Hb Hb)].
Qed.

Lemma rne_ge_quotient m n : m / 2 ^ n <= rne m n.
Proof. unfold rne. destruct (Z.compare _ _); try destruct (Z.even _); lia. Qed.

Lemma round_half_even_ge c m e :
  0 <= m -> (0 <= e -> c <= m * 2 ^ e) -> (e < 0 -> c * 2 ^ (- e) <= m) ->
  c <= round_half_even m e.
Proof.
  intros Hm H1 H2. unfold round_half_even.
  destruct (Z.leb_spec 0 e) as [He|He]; [now apply H1|].
  assert (Hp : 0 < 2 ^ (- e)) by (apply Z.pow_pos_nonneg; lia).
  pose proof (rne_ge_quotient m (- e)).
  assert (c <= m / 2 ^ (- e)); [|lia].
  apply Z.div_le_lower_bound; [exact Hp|]. specialize (H2 He). lia.
Qed.

(** [round(max(c, x))] is at least [c], for the three literals of the
    script; it raises only on an infinite [x]. *)
Lemma round_above (c : Z) (mc : positive) (x : float) :
  Prim2SF (F64.of_int64 c) = S754_finite false mc (-49) ->
  Z.pos mc = c * 2 ^ 49 -> 0 < c <= 16 ->
  match round (max_int c x) with
  | Ok z => c <= z
  | Raise e => e = OverflowError
  end.
Proof.
  intros Ec Em Hc. unfold max_int.
  destruct (F64.of_int64 c <? x)%float eqn:E; [|simpl; lia].
  rewrite ltb_spec, Ec in E. unfold round.
  destruct (Prim2SF x) as [s|s| |s m e] eqn:Ex; try destruct s; try discriminate;
    try reflexivity.
  cbn [cond_Zopp].
  destruct (finite_valid _ Ex) as [[He1 He2] Hd].
  unfold SFltb, SFcompare in E.
  apply round_half_even_ge; [lia| |].
  - intros He.
    assert (Hm : 2 ^ 52 <= Z.pos m).
    { destruct Hd as [->|Hd]; [lia|].
      pose proof (digits2_pos_bounds m) as B. rewrite Hd in B. exact (proj1 B). }
    assert (1 <= 2 ^ e) by (apply (Z.pow_le_mono_r 2 0 e); lia).
    change (2 ^ 52) with 4503599627370496 in Hm. nia.
  - intros He.
    destruct (Z.compare_spec (-49) e) as [C|C|C]; try discriminate.
    + subst e. change (Pos.compare_cont Eq mc m) with (Pos.compare mc m) in E.
      destruct (Pos.compare_spec mc m); try discriminate.
      change (- -49) with 49. lia.
    + assert (Hm : 2 ^ 52 <= Z.pos m).
      { destruct Hd as [->|Hd]; [lia|].
        pose proof (digits2_pos_bounds m) as B. rewrite Hd in B. exact (proj1 B). }
      assert (2 ^ (- e) <= 2 ^ 48) by (apply Z.pow_le_mono_r; lia).
      change (2 ^ 52) with 4503599627370496 in Hm.
      change (2 ^ 48) with 281474976710656 in H.
      assert (0 < 2 ^ (- e)) by (apply Z.pow_pos_nonneg; lia). nia.
Qed.

Lemma round_above_zero (x : float) :
  match round (max_int 0 x) with
  | Ok z => 0 <= z
  | Raise e => e = OverflowError
  end.
Proof.
  unfold max_int. change (F64.of_int64 0) with 0%float.
  destruct (0 <? x)%float eqn:E; [|simpl; lia].
  rewrite ltb_spec in E. change (Prim2SF 0) with (S754_zero false) in E.
  unfold round.
  destruct (Prim2SF x) as [s|s| |s m e] eqn:Ex; try destruct s; try discriminate;
    try reflexivity.
  cbn [cond_Zopp]. unfold round_half_even.
  destruct (Z.leb_spec 0 e) as [He|He].
  - assert (0 <= 2 ^ e) by (apply Z.pow_nonneg; lia). nia.
  - pose proof (rne_ge_quotient (Z.pos m) (- e)).
    assert (0 <= Z.pos m / 2 ^ (- e)); [|lia].
    apply Z.div_pos; [lia|]. apply Z.pow_pos_nonneg; lia.
Qed.


(** *** Percentages: a positive float times 100 *)

Lemma mul_100 x mx ex :
  Prim2SF x = S754_finite false mx ex -> Z.pos (digits2_pos mx) = 53 ->
  -1000 <= ex <= 900 ->
  Prim2SF (x * 100)
  = let M := Z.pos mx * 7036874417766400 in
    if M <? 2 ^ 105
    then if rne M 52 <? 2 ^ 53
         then S754_finite false (Z.to_pos (rne M 52)) (ex + 6)
         else S754_finite false (Z.to_pos (2 ^ 52)) (ex + 7)
    else if rne M 53 <? 2 ^ 53
         then S754_finite false (Z.to_pos (rne M 53)) (ex + 7)
         else S754_finite false (Z.to_pos (2 ^ 52)) (ex + 8).
Proof.
  intros Ex Hd He. rewrite mul_spec, Ex.
  change (Prim2SF 100) with (S754_finite false 7036874417766400 (-46)).
  unfold SF64mul, SFmul. cbn [xorb]. cbv zeta.
  pose proof (digits2_pos_bounds mx) as B. rewrite Hd in B.
  change (2 ^ (53 - 1)) with 4503599627370496 in B.
  change (2 ^ 53) with 9007199254740992 in B.
  rewrite <- Pos2Z.inj_mul.
  set (P := (mx * 7036874417766400)%positive).
  assert (HP : Z.pos P = Z.pos mx * 7036874417766400) by (unfold P; lia).
  destruct (Z.ltb_spec (Z.pos P) (2 ^ 105)) as [C|C].
  - rewrite (@binary_round_aux_normal false P (ex + -46) 52); try lia.
    + replace (ex + -46 + 52) with (ex + 6) by lia.
      replace (ex + 6 + 1) with (ex + 7) by lia. reflexivity.
    + apply digits2_pos_unique. split; [|exact C].
      change (2 ^ (52 + 53 - 1)) with 20282409603651670423947251286016. lia.
  - rewrite (@binary_round_aux_normal false P (ex + -46) 53); try lia.
    + replace (ex + -46 + 53) with (ex + 7) by lia.
      replace (ex + 7 + 1) with (ex + 8) by lia. reflexivity.
    + apply digits2_pos_unique. split; [exact C|].
      change (2 ^ (53 + 53)) with 81129638414606681695789005144064. lia.
Qed.


(** A positive normal float: its mantissa has 53 bits. *)
Definition normal_pos (x : float) (m : positive) (e : Z) : Prop :=
  Prim2SF x = S754_finite false m e /\ Z.pos (digits2_pos m) = 53
  /\ -1000 <= e <= 900.

Lemma product_facts m :
  2 ^ 52 <= m < 2 ^ 53 ->
  let M := m * 7036874417766400 in
  (M < 2 ^ 105 -> 2 ^ 52 <= rne M 52 <= 2 ^ 53 /\ 7036874417766400 <= rne M 52)
  /\ (2 ^ 105 <= M -> 2 ^ 52 <= rne M 53 <= 7036874417766400).
Proof.
  intros [H1 H2]. cbv zeta.
  change (2 ^ 52) with 4503599627370496 in *.
  change (2 ^ 53) with 9007199254740992 in *.
  change (2 ^ 105) with 40564819207303340847894502572032.
  split; intros C.
  - split.
    + apply (@rne_bounds _ 52 105); [lia| |reflexivity].
      change (2 ^ (105 - 1)) with 20282409603651670423947251286016.
      change (2 ^ 105) with 40564819207303340847894502572032. lia.
    + change 7036874417766400
        with (rne (4503599627370496 * 7036874417766400) 52) at 1.
      apply rne_mono; lia.
  - split.
    + apply (@rne_bounds _ 53 106); [lia| |reflexivity].
      change (2 ^ (106 - 1)) with 40564819207303340847894502572032.
      change (2 ^ 106) with 81129638414606681695789005144064. lia.
    + change 7036874417766400
        with (rne (9007199254740992 * 7036874417766400) 53) at 2.
      apply rne_mono; lia.
Qed.

(** Multiplying by 100 keeps the order of positive floats. *)
Lemma mul_100_mono x y mx ex my ey :
  normal_pos x mx ex -> normal_pos y my ey -> (x <=? y)%float = true ->
  (x * 100 <=? y * 100)%float = true.
Proof.
  intros (Ex & Dx & Rx) (Ey & Dy & Ry) H.
  rewrite leb_spec, Ex, Ey in H. rewrite leb_spec.
  rewrite (mul_100 _ Ex Dx Rx), (mul_100 _ Ey Dy Ry). cbv zeta.
  pose proof (digits2_pos_bounds mx) as Bx. rewrite Dx in Bx.
  pose proof (digits2_pos_bounds my) as By. rewrite Dy in By.
  change (53 - 1) with 52 in Bx, By.
  destruct (product_facts Bx) as [Lx Hx]. destruct (product_facts By) as [Ly Hy].
  cbv zeta in Lx, Hx, Ly, Hy.
  assert (Hord : ex < ey \/ (ex = ey /\ Z.pos mx <= Z.pos my)).
  { unfold SFleb, SFcompare in H.
    destruct (Z.compare_spec ex ey); try discriminate; [|lia].
    change (Pos.compare_cont Eq mx my) with (Pos.compare mx my) in H.
    destruct (Pos.compare_spec mx my); try discriminate; lia. }
  set (Mx := Z.pos mx * 7036874417766400) in *.
  set (My := Z.pos my * 7036874417766400) in *.
  assert (Hmono52 : ex = ey -> rne Mx 52 <= rne My 52).
  { intros Ee. destruct Hord as [?|[_ Hm]]; [lia|]. apply rne_mono; unfold Mx, My; lia. }
  assert (Hmono53 : ex = ey -> rne Mx 53 <= rne My 53).
  { intros Ee. destruct Hord as [?|[_ Hm]]; [lia|]. apply rne_mono; unfold Mx, My; lia. }
  assert (HM : ex = ey -> Mx <= My).
  { intros Ee. destruct Hord as [?|[_ Hm]]; [lia|]. unfold Mx, My. lia. }
  change (2 ^ 52) with 4503599627370496 in *.
  change (2 ^ 53) with 9007199254740992 in *.
  destruct (Z.ltb_spec Mx (2 ^ 105)) as [Cx|Cx];
    destruct (Z.ltb_spec My (2 ^ 105)) as [Cy|Cy];
    try specialize (Lx Cx); try specialize (Hx Cx);
    try specialize (Ly Cy); try specialize (Hy Cy);
    repeat match goal with
    | |- context [?a <? ?b] => destruct (Z.ltb_spec a b)
    end;
    apply SFleb_pos;
    repeat match goal with
    | |- context [Z.pos (Z.to_pos ?a)] => rewrite (Z2Pos.id a) by lia
    end; lia.
Qed.


Lemma between_normal lo hi b mlo elo mhi ehi :
  normal_pos lo mlo elo -> normal_pos hi mhi ehi ->
  (lo <=? b)%float = true -> (b <=? hi)%float = true ->
  exists m e, normal_pos b m e
    /\ (elo < e \/ (elo = e /\ Z.pos mlo <= Z.pos m))
    /\ (e < ehi \/ (e = ehi /\ Z.pos m <= Z.pos mhi)).
Proof.
  intros (El & Dl & Rl) (Eh & Dh & Rh) H1 H2.
  rewrite leb_spec, El in H1. rewrite leb_spec, Eh in H2.
  destruct (@SFleb_between _ _ _ _ _ H1 H2) as (m & e & Eb & Hlo & Hhi).
  exists m, e. split; [|now split].
  destruct (@finite_valid _ _ _ _ Eb) as [_ Hd].
  split; [exact Eb|]. split; [|lia].
  destruct Hd as [->|Hd]; [lia|exact Hd].
Qed.

(** The percentage of a rate that lies between two positive bounds lies
    between the percentages of the bounds. *)
Lemma percent_between lo hi b mlo elo mhi ehi :
  normal_pos lo mlo elo -> normal_pos hi mhi ehi ->
  (lo <=? b)%float = true -> (b <=? hi)%float = true ->
  (lo * 100 <=? b * 100)%float = true /\ (b * 100 <=? hi * 100)%float = true.
Proof.
  intros Nl Nh H1 H2.
  destruct (@between_normal _ _ _ _ _ _ _ Nl Nh H1 H2) as (m & e & Nb & _).
  split; [exact (@mul_100_mono _ _ _ _ _ _ Nl Nb H1)|exact (@mul_100_mono _ _ _ _ _ _ Nb Nh H2)].
Qed.

Lemma check_range (P : Z -> bool) (a n : nat) :
  forallb P (map Z.of_nat (seq a n)) = true ->
  forall k, Z.of_nat a <= k < Z.of_nat (a + n) -> P k = true.
Proof.
  intros H k Hk. rewrite forallb_forall in H. apply H.
  apply in_map_iff. exists (Z.to_nat k). split; [lia|].
  apply in_seq. lia.
Qed.

(** [round(p, 1)] of a percentage between 62 and 95. *)
Lemma round_to_offer p :
  (62 <=? p)%float = true -> (p <=? 95)%float = true ->
  (62 <=? round_to p 1)%float = true /\ (round_to p 1 <=? 95)%float = true.
Proof.
  intros H1 H2.
  assert (N62 : normal_pos 62 8725724278030336 (-47)) by (repeat split; lia).
  assert (N95 : normal_pos 95 6685030696878080 (-46)) by (repeat split; lia).
  destruct (@between_normal _ _ _ _ _ _ _ N62 N95 H1 H2) as (m & e & (Ep & Dp & _) & Hlo & Hhi).
  pose proof (digits2_pos_bounds m) as B. rewrite Dp in B.
  change (2 ^ (53 - 1)) with 4503599627370496 in B.
  change (2 ^ 53) with 9007199254740992 in B.
  unfold round_to. rewrite Ep. change (10 ^ 1) with 10.
  set (k := round_half_even (Z.pos m * 10) e).
  assert (Hk : 620 <= k <= 950).
  { unfold k, round_half_even.
    assert (He : e = -47 \/ e = -46) by lia.
    destruct He as [-> | ->]; cbn [Z.leb Z.compare Z.opp].
    - split.
      + change 620 with (rne (8725724278030336 * 10) 47). apply rne_mono; lia.
      + etransitivity; [apply (@rne_mono _ (9007199254740992 * 10) 47); lia|].
        vm_compute. discriminate.
    - split.
      + etransitivity; [|apply (@rne_mono (4503599627370496 * 10) _ 46); lia].
        vm_compute. discriminate.
      + change 950 with (rne (6685030696878080 * 10) 46). apply rne_mono; lia. }
  clearbody k.
  assert (C : forallb (fun k => (62 <=? nearest false k 10)%float
                                && (nearest false k 10 <=? 95)%float)
                (map Z.of_nat (seq 620 331)) = true) by (vm_compute; reflexivity).
  pose proof (@check_range _ _ _ C k ltac:(lia)) as R. cbv beta in R.
  now apply andb_prop in R.
Qed.

(** [round(p, 2)] of a percentage between 0.4 and 5. *)
Lemma round_to_turnover p :
  (0x1.999999999999ap-2 <=? p)%float = true -> (p <=? 5)%float = true ->
  (0x1.999999999999ap-2 <=? round_to p 2)%float = true
  /\ (round_to p 2 <=? 5)%float = true.
Proof.
  intros H1 H2.
  assert (Nlo : normal_pos 0x1.999999999999ap-2 7205759403792794 (-54))
    by (repeat split; lia).
  assert (Nhi : normal_pos 5 5629499534213120 (-50)) by (repeat split; lia).
  destruct (@between_normal _ _ _ _ _ _ _ Nlo Nhi H1 H2) as (m & e & (Ep & Dp & _) & Hlo & Hhi).
  pose proof (digits2_pos_bounds m) as B. rewrite Dp in B.
  change (2 ^ (53 - 1)) with 4503599627370496 in B.
  change (2 ^ 53) with 9007199254740992 in B.
  unfold round_to. rewrite Ep. change (10 ^ 2) with 100.
  set (k := round_half_even (Z.pos m * 100) e).
  assert (Hk : 40 <= k <= 500).
  { unfold k, round_half_even.
    assert (He : e = -54 \/ e = -53 \/ e = -52 \/ e = -51 \/ e = -50) by lia.
    destruct He as [-> | [-> | [-> | [-> | ->]]]]; cbn [Z.leb Z.compare Z.opp].
    - split.
      + change 40 with (rne (7205759403792794 * 100) 54). apply rne_mono; lia.
      + etransitivity; [apply (@rne_mono _ (9007199254740992 * 100) 54); lia|].
        vm_compute. discriminate.
    - split.
      + etransitivity; [|apply (@rne_mono (4503599627370496 * 100) _ 53); lia].
        vm_compute. discriminate.
      + etransitivity; [apply (@rne_mono _ (9007199254740992 * 100) 53); lia|].
        vm_compute. discriminate.
    - split.
      + etransitivity; [|apply (@rne_mono (4503599627370496 * 100) _ 52); lia].
        vm_compute. discriminate.
      + etransitivity; [apply (@rne_mono _ (9007199254740992 * 100) 52); lia|].
        vm_compute. discriminate.
    - split.
      + etransitivity; [|apply (@rne_mono (4503599627370496 * 100) _ 51); lia].
        vm_compute. discriminate.
      + etransitivity; [apply (@rne_mono _ (9007199254740992 * 100) 51); lia|].
        vm_compute. discriminate.
    - split.
      + etransitivity; [|apply (@rne_mono (4503599627370496 * 100) _ 50); lia].
        vm_compute. discriminate.
      + change 500 with (rne (5629499534213120 * 100) 50). apply rne_mono; lia. }
  clearbody k.
  assert (C : forallb (fun k => (0x1.999999999999ap-2 <=? nearest false k 100)%float
                                && (nearest false k 100 <=? 5)%float)
                (map Z.of_nat (seq 40 461)) = true) by (vm_compute; reflexivity).
  pose proof (@check_range _ _ _ C k ltac:(lia)) as R. cbv beta in R.
  now apply andb_prop in R.
Qed.

(** The clamp of [bounded]: [max(low, min(high, value))] lies between the
    bounds, whatever the value (a NaN gives [high]). *)
Lemma clamp_range value low high :
  (low <? high)%float = true ->
  (low <=? max low (min high value))%float = true
  /\ (max low (min high value) <=? high)%float = true.
Proof.
  intros H. destruct (@ltb_leb_refl _ _ H) as [Rl Rh]. pose proof (@ltb_leb _ _ H) as Hle.
  unfold max, min.
  destruct (value <? high)%float eqn:E1.
  - destruct (low <? value)%float eqn:E2.
    + split; now apply ltb_leb.
    + now split.
  - rewrite H. now split.
Qed.

End Py64.

(** ** The mock data generator ([generate_mock_data.py])

    First the run as a whole, with the arithmetic of the loop body on exact
    numbers: which rows are written, where, and what a run leaves behind.
    Then, in [Binary64], the loop body as the script computes it, for the
    values of the rows. *)

Module MockData.
Open Scope Q_scope.
Open Scope st_scope.

Definition bounded (value low high : Q) : Q := Py.max low (Py.min high value).

(** A [month] of the date range: the first day of a calendar month. *)
Record Timestamp : Type := {
  year : Z;
  month : Z
}.

Definition next_month (t : Timestamp) : Timestamp :=
  if (month t =? 12)%Z then {| year := year t + 1; month := 1 |}
  else {| year := year t; month := month t + 1 |}.

Definition month_ordinal (t : Timestamp) : Z := (year t * 12 + (month t - 1))%Z.

Fixpoint month_starts (n : nat) (t : Timestamp) : list Timestamp :=
  match n with
  | O => []
  | S n' => t :: month_starts n' (next_month t)
  end.

(** [pd.date_range(start, end, freq="MS")] between two month starts, both
    included. *)
Definition date_range (start stop : Timestamp) : list Timestamp :=
  month_starts (Z.to_nat (month_ordinal stop - month_ordinal start + 1)) start.

Definition digit (n : Z) : ascii := ascii_of_nat (48 + Z.to_nat (n mod 10)).

(** [month.strftime("%Y-%m")] *)
Definition strftime (t : Timestamp) : string :=
  String (digit (year t / 1000)) (String (digit (year t / 100))
    (String (digit (year t / 10)) (String (digit (year t))
      (String "-" (String (digit (month t / 10)) (String (digit (month t))
        EmptyString)))))).

(** [enumerate(xs)] *)
Fixpoint enumerate_from {X} (i : Z) (xs : list X) : list (Z * X) :=
  match xs with
  | [] => []
  | x :: xs' => (i, x) :: enumerate_from (i + 1) xs'
  end.

Definition enumerate {X} (xs : list X) : list (Z * X) := enumerate_from 0 xs.

(** One row of the generated dataset, its fields in the order of the dict
    that [rows.append] receives. *)
Record Row : Type := {
  row_month : string;
  department : string;
  headcount : Z;
  new_hires : Z;
  terminations : Z;
  open_positions : Z;
  time_to_fill_days : Z;
  offer_acceptance_rate : Q;
  turnover_rate : Q
}.

(** The keys of that dict: the header [to_csv] writes. *)
Definition columns : list string :=
  ["month"; "department"; "headcount"; "new_hires"; "terminations";
   "open_positions"; "time_to_fill_days"; "offer_acceptance_rate";
   "turnover_rate"]%string.

Definition months : list Timestamp :=
  date_range {| year := 2025; month := 2 |} {| year := 2026; month := 1 |}.

Example months_labels :
  map strftime months
  = ["2025-02"; "2025-03"; "2025-04"; "2025-05"; "2025-06"; "2025-07"; "2025-08";
     "2025-09"; "2025-10"; "2025-11"; "2025-12"; "2026-01"]%string.
Proof. reflexivity. Qed.

Definition departments : list string :=
  ["Engineering"; "Sales"; "Operations"; "HR"; "Finance"; "Customer Success"]%string.

Definition baseline : list (string * Q) :=
  [("Engineering", 95); ("Sales", 62); ("Operations", 54); ("HR", 18);
   ("Finance", 21); ("Customer Success", 37)]%string.

Definition trends : list (string * Q) :=
  [("Engineering", 1.6); ("Sales", 1.0); ("Operations", 0.7); ("HR", 0.2);
   ("Finance", 0.15); ("Customer Success", 0.8)]%string.

Definition turnover_bases : list (string * Q) :=
  [("Engineering", 0.011); ("Sales", 0.019); ("Operations", 0.015);
   ("HR", 0.010); ("Finance", 0.009); ("Customer Success", 0.017)]%string.

Definition ttf_bases : list (string * Q) :=
  [("Engineering", 47); ("Sales", 34); ("Operations", 31); ("HR", 29);
   ("Finance", 36); ("Customer Success", 26)]%string.

Definition offer_bases : list (string * Q) :=
  [("Engineering", 0.82); ("Sales", 0.79); ("Operations", 0.84); ("HR", 0.86);
   ("Finance", 0.81); ("Customer Success", 0.83)]%string.

Definition OUT_DIR : string := "data".
Definition OUT_PATH : string := FS.joinpath OUT_DIR "hr_metrics_monthly.csv".

(** *** The clamp *)

(** X4. [bounded] clamps: with [low <= high], a value at or below [low]
    gives [low], a value at or above [high] gives [high], and a value between
    the two is returned as it is. *)
Theorem bounded_clamps (value low high : Q) :
  low <= high ->
  (value <= low -> bounded value low high == low)
  /\ (high <= value -> bounded value low high == high)
  /\ (low <= value -> value <= high -> bounded value low high == value).
Proof.
  intros H. unfold bounded, Py.max, Py.min.
  destruct (Qcompare value high) eqn:C1.
  - apply Qeq_alt in C1.
    destruct (Qcompare low high) eqn:C2;
      [apply Qeq_alt in C2|apply Qlt_alt in C2|apply Qgt_alt in C2];
      repeat split; intros; lra.
  - apply Qlt_alt in C1.
    destruct (Qcompare low value) eqn:C2;
      [apply Qeq_alt in C2|apply Qlt_alt in C2|apply Qgt_alt in C2];
      repeat split; intros; lra.
  - apply Qgt_alt in C1.
    destruct (Qcompare low high) eqn:C2;
      [apply Qeq_alt in C2|apply Qlt_alt in C2|apply Qgt_alt in C2];
      repeat split; intros; lra.
Qed.

Lemma bounded_clamps_witness :
  0.004 <= 0.05
  /\ bounded 0.001 0.004 0.05 == 0.004
  /\ bounded 0.07 0.004 0.05 == 0.05
  /\ bounded 0.011 0.004 0.05 == 0.011.
Proof.
  assert (H : 0.004 <= 0.05) by (vm_compute; discriminate).
  split; [exact H|].
  split; [apply (bounded_clamps 0.001 H); vm_compute; discriminate|].
  split; [apply (bounded_clamps 0.07 H); vm_compute; discriminate|].
  apply (bounded_clamps 0.011 H); vm_compute; discriminate.
Defined.

(** X5. With the bounds crossed ([high < low]) [bounded] returns [low]
    whatever the value is: the result is then above [high], so the call
    never fails on bad bounds and does not keep the value within them. *)
Theorem bounded_crossed_bounds (value low high : Q) :
  high < low -> bounded value low high = low /\ high < bounded value low high.
Proof.
  intros H.
  assert (E : bounded value low high = low).
  { unfold bounded, Py.max, Py.min.
    destruct (Qcompare value high) eqn:C1.
    - destruct (Qcompare low high) eqn:C2; try reflexivity.
      apply Qlt_alt in C2. lra.
    - apply Qlt_alt in C1.
      destruct (Qcompare low value) eqn:C2; try reflexivity.
      apply Qlt_alt in C2. lra.
    - destruct (Qcompare low high) eqn:C2; try reflexivity.
      apply Qlt_alt in C2. lra. }
  rewrite E. split; [reflexivity|exact H].
Qed.

Lemma bounded_crossed_bounds_witness :
  0.05 < 0.5 /\ bounded 0.01 0.5 0.05 = 0.5 /\ bounded 0.9 0.5 0.05 = 0.5.
Proof.
  assert (H : 0.05 < 0.5) by (vm_compute; reflexivity).
  split; [exact H|].
  split; [apply (bounded_crossed_bounds 0.01 H)|apply (bounded_crossed_bounds 0.9 H)].
Defined.


Section Generator.
(** numpy's global random state and its samplers, pandas' CSV writer and the
    formatting of the two printed lines. *)
Variable rng : Type.
Variable np_seed : Z -> rng.
Variable np_normal : Q -> Q -> rng -> Q * rng.
Variable np_uniform : Q -> Q -> rng -> Q * rng.
Variable to_csv : list string -> list Row -> string.
Variable report_lines : list Row -> list string.

(** Code that only draws samples. *)
Definition gen (A : Type) : Type := st rng A.

Definition normal (loc scale : Q) : gen Q :=
  fun s => let p := np_normal loc scale s in (snd p, Ok (fst p)).

Definition uniform (low high : Q) : gen Q :=
  fun s => let p := np_uniform low high s in (snd p, Ok (fst p)).

(** Lines 41-102: the body of the loop over the departments. *)
Definition append_row (month_idx : Z) (m : Timestamp) (seasonal_hiring_boost : Q)
    (dept : string) (rows : list Row) : gen (list Row) :=
  b <-- lift (Py.getitem baseline dept) ;;
  t <-- lift (Py.getitem trends dept) ;;
  n1 <-- normal 0 1.2 ;;
  let base_hc := b + t * inject_Z month_idx + n1 in
  let headcount := Py.round (Py.max 8 base_hc) in
  let hire_rate := 0.035 * seasonal_hiring_boost in
  n2 <-- normal 0 1.0 ;;
  let new_hires := Py.round (Py.max 0 (inject_Z headcount * hire_rate + n2)) in
  turnover_base <-- lift (Py.getitem turnover_bases dept) ;;
  n3 <-- normal 0 0.0035 ;;
  let turnover_rate :=
    bounded (turnover_base + n3 + (if Py.mem (month m) [7; 8]%Z then 0.002 else 0))
      0.004 0.05 in
  n4 <-- normal 0 0.6 ;;
  let terminations := Py.round (Py.max 0 (inject_Z headcount * turnover_rate + n4)) in
  u <-- uniform 1.1 2.2 ;;
  n5 <-- normal 0 1.2 ;;
  let open_positions := Py.round (Py.max 0 (inject_Z new_hires * u + n5)) in
  ttf_base <-- lift (Py.getitem ttf_bases dept) ;;
  n6 <-- normal 0 4 ;;
  let time_to_fill :=
    Py.round (Py.max 15 (ttf_base + n6 - (if Py.mem (month m) [10; 11]%Z then 1 else 0))) in
  offer_base <-- lift (Py.getitem offer_bases dept) ;;
  n7 <-- normal 0 0.03 ;;
  let offer_acceptance_rate :=
    bounded (offer_base + n7 - (if Py.mem (month m) [6; 7]%Z then 0.015 else 0))
      0.62 0.95 in
  st_ret (rows ++ [ {| row_month := strftime m;
                       department := dept;
                       headcount := headcount;
                       new_hires := new_hires;
                       terminations := terminations;
                       open_positions := open_positions;
                       time_to_fill_days := time_to_fill;
                       offer_acceptance_rate := Py.round_to (offer_acceptance_rate * 100) 1;
                       turnover_rate := Py.round_to (turnover_rate * 100) 2 |} ]).

(** Lines 37-40: the body of the loop over the months. *)
Definition append_month (im : Z * Timestamp) (rows : list Row) : gen (list Row) :=
  let month_idx := fst im in
  let m := snd im in
  let seasonal_hiring_boost := if Py.mem (month m) [3; 4; 9; 10]%Z then 1.2 else 0.8 in
  for_each departments (append_row month_idx m seasonal_hiring_boost) rows.

(** Lines 36-102: [rows = []] and the two nested loops. *)
Definition build_rows : gen (list Row) :=
  for_each (enumerate months) append_month [].

(** *** What the loops build *)

Definition key (r : Row) : string * string := (row_month r, department r).

(** One pass through the loop body appends one row, for the month and the
    department at hand; no dict lookup fails. *)
Lemma append_row_spec month_idx m boost dept rows s :
  In dept departments ->
  exists row, snd (append_row month_idx m boost dept rows s) = Ok (rows ++ [row])
    /\ key row = (strftime m, dept).
Proof.
  intros Hin. unfold departments in Hin. simpl in Hin.
  destruct Hin as [<-|[<-|[<-|[<-|[<-|[<-|[]]]]]]];
    cbv beta iota zeta delta
      [append_row st_bind lift normal uniform st_ret fst snd Py.getitem baseline
       trends turnover_bases ttf_bases offer_bases String.eqb Ascii.eqb Bool.eqb];
    (eexists; split; reflexivity).
Qed.

Lemma append_month_spec im rows s :
  exists rs, snd (append_month im rows s) = Ok (rows ++ rs)
    /\ map key rs = map (pair (strftime (snd im))) departments.
Proof.
  unfold append_month.
  set (boost := if Py.mem (month (snd im)) [3; 4; 9; 10]%Z then 1.2 else 0.8).
  destruct (for_each_invariant
              (fun visited acc => exists rs, acc = rows ++ rs
                 /\ map key rs = map (pair (strftime (snd im))) visited)
              (append_row (fst im) (snd im) boost) departments) with (acc := rows) (s := s)
    as (acc & E & rs & -> & Hk).
  - intros visited dept acc s0 Hin (rs & -> & Hk).
    destruct (append_row_spec (fst im) (snd im) boost (rows ++ rs) s0 Hin)
      as (row & E & Hkey).
    exists ((rows ++ rs) ++ [row]). split; [exact E|].
    exists (rs ++ [row]). split; [now rewrite app_assoc|].
    rewrite !map_app, Hk. simpl. now rewrite Hkey.
  - exists []. rewrite app_nil_r. split; reflexivity.
  - exists rs. auto.
Qed.

Definition expected_keys : list (string * string) :=
  list_prod (map strftime months) departments.

(** The two loops never raise, and they build one row for every month and
    department, month by month. *)
Lemma build_rows_spec s :
  exists rows, snd (build_rows s) = Ok rows /\ map key rows = expected_keys.
Proof.
  unfold build_rows.
  destruct (for_each_invariant
              (fun visited acc =>
                 map key acc
                 = flat_map (fun im => map (pair (strftime (snd im))) departments) visited)
              append_month (enumerate months)) with (acc := @nil Row) (s := s)
    as (rows & E & Hk).
  - intros visited im acc s0 _ Hk.
    destruct (append_month_spec im acc s0) as (rs & E & Hk').
    exists (acc ++ rs). split; [exact E|].
    rewrite map_app, flat_map_app, Hk, Hk'. f_equal.
  - reflexivity.
  - exists rows. split; [exact E|].
    rewrite Hk. vm_compute. reflexivity.
Qed.

Record World : Type := {
  np_random : rng;
  files : FS.t;
  stdout : list string
}.

Definition io (A : Type) : Type := st World A.

Definition seed (n : Z) : io unit :=
  fun w => ({| np_random := np_seed n; files := files w; stdout := stdout w |}, Ok tt).

(** Sampling code run on the process's global random state. *)
Definition sampling {A} (m : gen A) : io A :=
  fun w =>
    let r := m (np_random w) in
    ({| np_random := fst r; files := files w; stdout := stdout w |}, snd r).

Definition mkdir (p : string) : io unit :=
  fun w =>
    match FS.mkdir (files w) p with
    | Ok fs => ({| np_random := np_random w; files := fs; stdout := stdout w |}, Ok tt)
    | Raise e => (w, Raise e)
    end.

Definition write_file (p bytes : string) : io unit :=
  fun w =>
    match FS.write (files w) p bytes with
    | Ok fs => ({| np_random := np_random w; files := fs; stdout := stdout w |}, Ok tt)
    | Raise e => (w, Raise e)
    end.

Definition print (lines : list string) : io unit :=
  fun w => ({| np_random := np_random w; files := files w;
               stdout := stdout w ++ lines |}, Ok tt).

Definition main : io unit :=
  _ <-- seed 42 ;;
  rows <-- sampling build_rows ;;
  _ <-- mkdir OUT_DIR ;;
  _ <-- write_file OUT_PATH (to_csv columns rows) ;;
  print (report_lines rows).

(** *** The claims about the generator *)

(** The run can write its file: the data directory's path is not taken by a
    regular file, and the file's path is not a directory. *)
Definition writable (fs : FS.t) : Prop :=
  (forall bytes, fs OUT_DIR <> Some (FS.File bytes)) /\ fs OUT_PATH <> Some FS.Dir.

(** The rows drawn after [np.random.seed(42)]. *)
Definition seeded_rows : list Row :=
  match snd (build_rows (np_seed 42)) with
  | Ok rows => rows
  | Raise _ => []
  end.

(** [main] with its two loops abstracted to an arbitrary sampling command. *)
Definition main_around (loops : gen (list Row)) : io unit :=
  _ <-- seed 42 ;;
  rows <-- sampling loops ;;
  _ <-- mkdir OUT_DIR ;;
  _ <-- write_file OUT_PATH (to_csv columns rows) ;;
  print (report_lines rows).

Lemma main_around_spec loops rows w :
  snd (loops (np_seed 42)) = Ok rows ->
  writable (files w) ->
  snd (main_around loops w) = Ok tt
  /\ files (fst (main_around loops w)) OUT_PATH = Some (FS.File (to_csv columns rows))
  /\ np_random (fst (main_around loops w)) = fst (loops (np_seed 42))
  /\ stdout (fst (main_around loops w)) = (stdout w ++ report_lines rows)%list
  /\ writable (files (fst (main_around loops w))).
Proof.
  intros E [Hd Hp]. unfold writable.
  unfold main_around, st_bind, seed, sampling, mkdir, write_file, print,
    FS.mkdir, FS.write.
  cbn [fst snd np_random files stdout].
  generalize dependent (loops (np_seed 42)). intros r E. rewrite !E.
  destruct (files w OUT_DIR) as [[b|]|] eqn:Eo.
  - exfalso. exact (Hd b eq_refl).
  - cbn [fst snd np_random files stdout].
    destruct (files w OUT_PATH) as [[b|]|] eqn:Ep; [|exfalso; now apply Hp|];
      cbn [fst snd np_random files stdout]; unfold FS.update;
      change (String.eqb OUT_PATH OUT_PATH) with true;
      change (String.eqb OUT_DIR OUT_PATH) with false; cbv iota;
      rewrite ?Eo; repeat split; try reflexivity; intros; discriminate.
  - cbn [fst snd np_random files stdout]. unfold FS.update.
    change (String.eqb OUT_PATH OUT_DIR) with false. cbv beta iota.
    destruct (files w OUT_PATH) as [[b|]|] eqn:Ep; [|exfalso; now apply Hp|];
      cbn [fst snd np_random files stdout];
      change (String.eqb OUT_PATH OUT_PATH) with true;
      change (String.eqb OUT_DIR OUT_PATH) with false;
      change (String.eqb OUT_DIR OUT_DIR) with true; cbv beta iota;
      repeat split; try reflexivity; intros; discriminate.
Qed.

Lemma main_around_loops : main = main_around build_rows.
Proof. unfold main, main_around. reflexivity. Qed.

Lemma main_spec w :
  writable (files w) ->
  snd (main w) = Ok tt
  /\ files (fst (main w)) OUT_PATH = Some (FS.File (to_csv columns seeded_rows))
  /\ np_random (fst (main w)) = fst (build_rows (np_seed 42))
  /\ stdout (fst (main w)) = (stdout w ++ report_lines seeded_rows)%list
  /\ writable (files (fst (main w))).
Proof.
  intros H. unfold seeded_rows.
  destruct (build_rows_spec (np_seed 42)) as (rows & E & _). rewrite E.
  rewrite main_around_loops.
  exact (@main_around_spec build_rows rows w E H).
Qed.

(** C8. Two runs of the generator write the same bytes: [main] seeds
    numpy's generator with 42 before it draws, so what it writes depends
    neither on the random state it finds nor on the files already there; a
    second run over the first run's output reproduces it. *)
Theorem seeded_runs_identical (w1 w2 : World) :
  writable (files w1) -> writable (files w2) ->
  snd (main w1) = Ok tt /\ snd (main w2) = Ok tt
  /\ exists bytes,
       files (fst (main w1)) OUT_PATH = Some (FS.File bytes)
       /\ files (fst (main w2)) OUT_PATH = Some (FS.File bytes)
       /\ files (fst (main (fst (main w1)))) OUT_PATH = Some (FS.File bytes).
Proof.
  intros H1 H2.
  destruct (main_spec w1 H1) as (R1 & F1 & _ & _ & W1).
  destruct (main_spec w2 H2) as (R2 & F2 & _).
  destruct (main_spec _ W1) as (_ & F3 & _).
  split; [exact R1|]. split; [exact R2|].
  exists (to_csv columns seeded_rows). auto.
Qed.

Definition key_eq_dec (a b : string * string) : {a = b} + {a <> b}.
Proof. decide equality; apply string_dec. Defined.

Lemma expected_keys_NoDup : NoDup expected_keys.
Proof.
  assert (E : nodup key_eq_dec expected_keys = expected_keys)
    by (vm_compute; reflexivity).
  rewrite <- E. apply NoDup_nodup.
Qed.

(** C9. The file the generator writes holds 72 data rows, one for every
    pair of the 12 consecutive months from 2025-02 to 2026-01 and the 6
    departments, no pair twice, under the header of the report builder's
    input file. *)
Theorem dataset_shape (w : World) :
  writable (files w) ->
  exists rows, files (fst (main w)) OUT_PATH = Some (FS.File (to_csv columns rows))
    /\ List.length rows = 72%nat
    /\ map key rows = list_prod (map strftime months) departments
    /\ NoDup (map key rows)
    /\ map month_ordinal months
       = map (fun i => (month_ordinal {| year := 2025; month := 2 |} + Z.of_nat i)%Z)
           (seq 0 12)
    /\ List.length departments = 6%nat
    /\ columns = ReportBuilder.input_columns.
Proof.
  intros H. destruct (main_spec w H) as (_ & F & _).
  exists seeded_rows. split; [exact F|].
  unfold seeded_rows.
  destruct (build_rows_spec (np_seed 42)) as (rows & E & Hk). rewrite E.
  split.
  { rewrite <- (length_map key), Hk. vm_compute. reflexivity. }
  split; [exact Hk|].
  split; [rewrite Hk; apply expected_keys_NoDup|].
  repeat split.
Qed.

(** *** What a run leaves behind *)

Lemma main_around_frame loops w p :
  p <> OUT_DIR -> p <> OUT_PATH ->
  files (fst (main_around loops w)) p = files w p.
Proof.
  intros Hd Hp. apply String.eqb_neq in Hd, Hp.
  unfold main_around, st_bind, seed, sampling, mkdir, write_file, print,
    FS.mkdir, FS.write.
  cbn [fst snd np_random files stdout].
  generalize (loops (np_seed 42)). intros [s [rows|e]];
    cbn [fst snd np_random files stdout]; [|reflexivity].
  destruct (files w OUT_DIR) as [[b|]|] eqn:Eo;
    cbn [fst snd np_random files stdout]; [reflexivity| |].
  - destruct (files w OUT_PATH) as [[b|]|] eqn:Ep;
      cbn [fst snd np_random files stdout]; unfold FS.update;
      rewrite ?Hp; reflexivity.
  - unfold FS.update.
    change (String.eqb OUT_PATH OUT_DIR) with false. cbv beta iota.
    destruct (files w OUT_PATH) as [[b|]|] eqn:Ep;
      cbn [fst snd np_random files stdout];
      rewrite ?Hp, ?Hd; reflexivity.
Qed.

Lemma main_around_keeps_dir loops w n :
  files w OUT_DIR = Some n -> files (fst (main_around loops w)) OUT_DIR = Some n.
Proof.
  intros Hn.
  unfold main_around, st_bind, seed, sampling, mkdir, write_file, print,
    FS.mkdir, FS.write.
  cbn [fst snd np_random files stdout].
  generalize (loops (np_seed 42)). intros [s [rows|e]];
    cbn [fst snd np_random files stdout]; [|exact Hn].
  rewrite Hn. destruct n as [b|]; cbn [fst snd np_random files stdout]; [exact Hn|].
  destruct (files w OUT_PATH) as [[b|]|] eqn:Ep;
    cbn [fst snd np_random files stdout]; unfold FS.update;
    change (String.eqb OUT_DIR OUT_PATH) with false; cbv beta iota; exact Hn.
Qed.

Lemma main_around_unwritable loops rows w :
  snd (loops (np_seed 42)) = Ok rows ->
  (exists b, files w OUT_DIR = Some (FS.File b)) \/ files w OUT_PATH = Some FS.Dir ->
  snd (main_around loops w)
  = match files w OUT_DIR with
    | Some (FS.File _) => Raise FileExistsError
    | _ => Raise IsADirectoryError
    end
  /\ stdout (fst (main_around loops w)) = stdout w
  /\ files (fst (main_around loops w)) OUT_PATH = files w OUT_PATH
  /\ np_random (fst (main_around loops w)) = fst (loops (np_seed 42)).
Proof.
  intros E H.
  unfold main_around, st_bind, seed, sampling, mkdir, write_file, print,
    FS.mkdir, FS.write.
  cbn [fst snd np_random files stdout].
  generalize dependent (loops (np_seed 42)). intros r E. rewrite !E.
  destruct (files w OUT_DIR) as [[b|]|] eqn:Eo;
    cbn [fst snd np_random files stdout].
  - repeat split.
  - destruct H as [(b & H)|H]; [discriminate|]. rewrite H.
    cbn [fst snd np_random files stdout]. repeat split. exact H.
  - destruct H as [(b & H)|H]; [discriminate|].
    unfold FS.update.
    change (String.eqb OUT_PATH OUT_DIR) with false. cbv beta iota.
    rewrite H. cbn [fst snd np_random files stdout].
    change (String.eqb OUT_PATH OUT_DIR) with false. cbv beta iota.
    repeat split; first [reflexivity | exact H | symmetry; exact H].
Qed.

(** X6. A run of the generator touches nothing but its output: whatever the
    starting state and whether or not the run succeeds, every path other
    than the data directory and the CSV file holds afterwards what it held
    before, and whatever was at the data directory's path is still there. *)
Theorem generator_touches_only_its_output (w : World) (p : string) :
  p <> OUT_DIR -> p <> OUT_PATH ->
  files (fst (main w)) p = files w p
  /\ forall n, files w OUT_DIR = Some n -> files (fst (main w)) OUT_DIR = Some n.
Proof.
  intros Hd Hp. rewrite main_around_loops. split.
  - now apply main_around_frame.
  - intros n. apply main_around_keeps_dir.
Qed.

(** X7. When the output cannot be written the generator raises after it has
    drawn all its samples: [FileExistsError] if the data directory's path is
    a regular file, [IsADirectoryError] if the CSV path is a directory.
    Nothing is printed and the CSV path is left as it was, but numpy's
    global random state has been reseeded and advanced as in a successful
    run. *)
Theorem unwritable_output_raises (w : World) :
  (exists b, files w OUT_DIR = Some (FS.File b)) \/ files w OUT_PATH = Some FS.Dir ->
  snd (main w)
  = match files w OUT_DIR with
    | Some (FS.File _) => Raise FileExistsError
    | _ => Raise IsADirectoryError
    end
  /\ stdout (fst (main w)) = stdout w
  /\ files (fst (main w)) OUT_PATH = files w OUT_PATH
  /\ np_random (fst (main w)) = fst (build_rows (np_seed 42)).
Proof.
  intros H. destruct (build_rows_spec (np_seed 42)) as (rows & E & _).
  rewrite main_around_loops.
  exact (@main_around_unwritable build_rows rows w E H).
Qed.


End Generator.

(** A stand-in for numpy's generator: the state counts the draws, a normal
    draw returns its mean and a uniform draw its lower end. *)
Definition counting_normal (loc scale : Q) (s : nat) : Q * nat := (loc, S s).
Definition counting_uniform (low high : Q) (s : nat) : Q * nat := (low, S s).
Definition counting_seed (n : Z) : nat := Z.to_nat n.
Definition row_count_csv (header : list string) (rows : list Row) : string :=
  String.concat "," header.

Definition run (w : World nat) : World nat * result unit :=
  main counting_seed counting_normal counting_uniform row_count_csv (fun _ => []) w.

Definition empty_world : World nat :=
  {| np_random := 0%nat; files := FS.empty; stdout := [] |}.

Definition used_world : World nat :=
  {| np_random := 7%nat;
     files := FS.update (FS.update FS.empty OUT_DIR FS.Dir) OUT_PATH (FS.File "stale");
     stdout := ["earlier output"%string] |}.

Lemma empty_world_writable : writable (files empty_world).
Proof. split; [intros bytes|]; discriminate. Qed.

Lemma used_world_writable : writable (files used_world).
Proof. split; [intros bytes|]; discriminate. Qed.

Lemma seeded_runs_identical_witness :
  snd (run empty_world) = Ok tt /\ snd (run used_world) = Ok tt
  /\ exists bytes,
       files (fst (run empty_world)) OUT_PATH = Some (FS.File bytes)
       /\ files (fst (run used_world)) OUT_PATH = Some (FS.File bytes)
       /\ files (fst (run (fst (run empty_world)))) OUT_PATH = Some (FS.File bytes).
Proof.
  exact (@seeded_runs_identical nat counting_seed counting_normal counting_uniform
           row_count_csv (fun _ => []) empty_world used_world
           empty_world_writable used_world_writable).
Defined.

Lemma dataset_shape_witness :
  exists rows,
    files (fst (run empty_world)) OUT_PATH = Some (FS.File (row_count_csv columns rows))
    /\ List.length rows = 72%nat
    /\ map key rows = list_prod (map strftime months) departments
    /\ NoDup (map key rows)
    /\ map month_ordinal months
       = map (fun i => (month_ordinal {| year := 2025; month := 2 |} + Z.of_nat i)%Z)
           (seq 0 12)
    /\ List.length departments = 6%nat
    /\ columns = ReportBuilder.input_columns.
Proof.
  exact (@dataset_shape nat counting_seed counting_normal counting_uniform
           row_count_csv (fun _ => []) empty_world empty_world_writable).
Defined.

(** A checkout in which a regular file sits where the data directory should
    be, and one in which the CSV path is a directory. *)
Definition blocked_dir_world : World nat :=
  {| np_random := 3%nat;
     files := FS.update (FS.update FS.empty OUT_DIR (FS.File "not a directory"))
                "README.md" (FS.File "readme");
     stdout := [] |}.

Definition blocked_file_world : World nat :=
  {| np_random := 3%nat;
     files := FS.update (FS.update FS.empty OUT_DIR FS.Dir) OUT_PATH FS.Dir;
     stdout := [] |}.

Lemma generator_touches_only_its_output_witness :
  "README.md"%string <> OUT_DIR /\ "README.md"%string <> OUT_PATH
  /\ files (fst (run blocked_dir_world)) "README.md"%string = Some (FS.File "readme")
  /\ files (fst (run used_world)) "README.md"%string = None
  /\ files (fst (run used_world)) OUT_DIR = Some FS.Dir.
Proof.
  assert (Hd : "README.md"%string <> OUT_DIR) by discriminate.
  assert (Hp : "README.md"%string <> OUT_PATH) by discriminate.
  split; [exact Hd|]. split; [exact Hp|].
  split; [|split].
  - exact (proj1 (@generator_touches_only_its_output nat counting_seed counting_normal
                    counting_uniform row_count_csv (fun _ => []) blocked_dir_world
                    "README.md"%string Hd Hp)).
  - exact (proj1 (@generator_touches_only_its_output nat counting_seed counting_normal
                    counting_uniform row_count_csv (fun _ => []) used_world
                    "README.md"%string Hd Hp)).
  - exact (proj2 (@generator_touches_only_its_output nat counting_seed counting_normal
                    counting_uniform row_count_csv (fun _ => []) used_world
                    "README.md"%string Hd Hp) FS.Dir eq_refl).
Defined.

Lemma unwritable_output_raises_witness :
  snd (run blocked_dir_world) = Raise FileExistsError
  /\ stdout (fst (run blocked_dir_world)) = []
  /\ files (fst (run blocked_dir_world)) OUT_PATH = None
  /\ snd (run blocked_file_world) = Raise IsADirectoryError
  /\ files (fst (run blocked_file_world)) OUT_PATH = Some FS.Dir.
Proof.
  destruct (@unwritable_output_raises nat counting_seed counting_normal
              counting_uniform row_count_csv (fun _ => []) blocked_dir_world
              (or_introl (ex_intro _ "not a directory"%string eq_refl)))
    as (R1 & S1 & F1 & _).
  destruct (@unwritable_output_raises nat counting_seed counting_normal
              counting_uniform row_count_csv (fun _ => []) blocked_file_world
              (or_intror eq_refl))
    as (R2 & _ & F2 & _).
  repeat split; assumption.
Defined.


(** *** The values of a row

    The structure of the output (which rows, in which order, under which
    header) does not depend on the arithmetic, and is established above on
    exact numbers.  The values of a row do: the script computes them in
    binary64, and [round] raises on an infinite value. *)

Module Binary64.
Open Scope float_scope.

Record Row : Type := {
  row_month : string;
  department : string;
  headcount : Z;
  new_hires : Z;
  terminations : Z;
  open_positions : Z;
  time_to_fill_days : Z;
  offer_acceptance_rate : float;
  turnover_rate : float
}.

Definition bounded (value low high : float) : float :=
  Py64.max low (Py64.min high value).

Definition baseline : list (string * Z) :=
  [("Engineering", 95); ("Sales", 62); ("Operations", 54); ("HR", 18);
   ("Finance", 21); ("Customer Success", 37)]%Z%string.

#[warnings="-inexact-float"]
Definition trends : list (string * float) :=
  [("Engineering", 1.6); ("Sales", 1.0); ("Operations", 0.7); ("HR", 0.2);
   ("Finance", 0.15); ("Customer Success", 0.8)]%string.

#[warnings="-inexact-float"]
Definition turnover_bases : list (string * float) :=
  [("Engineering", 0.011); ("Sales", 0.019); ("Operations", 0.015);
   ("HR", 0.010); ("Finance", 0.009); ("Customer Success", 0.017)]%string.

Definition ttf_bases : list (string * Z) :=
  [("Engineering", 47); ("Sales", 34); ("Operations", 31); ("HR", 29);
   ("Finance", 36); ("Customer Success", 26)]%Z%string.

#[warnings="-inexact-float"]
Definition offer_bases : list (string * float) :=
  [("Engineering", 0.82); ("Sales", 0.79); ("Operations", 0.84); ("HR", 0.86);
   ("Finance", 0.81); ("Customer Success", 0.83)]%string.

Section Generator.
(** numpy's global random state and its two samplers.  Called with scalar
    arguments and no [size] they return a Python [float], so the arithmetic,
    [max], [min] and [round] that follow are Python's. *)
Variable rng : Type.
Variable np_normal : float -> float -> rng -> float * rng.
Variable np_uniform : float -> float -> rng -> float * rng.

Definition gen (A : Type) : Type := st rng A.

Definition normal (loc scale : float) : gen float :=
  fun s => let p := np_normal loc scale s in (snd p, Ok (fst p)).

Definition uniform (low high : float) : gen float :=
  fun s => let p := np_uniform low high s in (snd p, Ok (fst p)).

(** Lines 41-102: the body of the loop over the departments.  An [int]
    operand of a float operation is converted where the operation is
    evaluated. *)
#[warnings="-inexact-float"]
Definition append_row (month_idx : Z) (m : Timestamp) (seasonal_hiring_boost : float)
    (dept : string) (rows : list Row) : gen (list Row) :=
  b <-- lift (Py.getitem baseline dept) ;;
  t <-- lift (Py.getitem trends dept) ;;
  idx <-- lift (Py64.to_float month_idx) ;;
  b' <-- lift (Py64.to_float b) ;;
  n1 <-- normal 0 1.2 ;;
  let base_hc := b' + t * idx + n1 in
  headcount <-- lift (Py64.round (Py64.max_int 8 base_hc)) ;;
  let hire_rate := 0.035 * seasonal_hiring_boost in
  hc <-- lift (Py64.to_float headcount) ;;
  n2 <-- normal 0 1.0 ;;
  new_hires <-- lift (Py64.round (Py64.max_int 0 (hc * hire_rate + n2))) ;;
  turnover_base <-- lift (Py.getitem turnover_bases dept) ;;
  n3 <-- normal 0 0.0035 ;;
  let turnover_rate :=
    bounded (turnover_base + n3 + (if Py.mem (month m) [7; 8]%Z then 0.002 else 0))
      0.004 0.05 in
  hc' <-- lift (Py64.to_float headcount) ;;
  n4 <-- normal 0 0.6 ;;
  terminations <-- lift (Py64.round (Py64.max_int 0 (hc' * turnover_rate + n4))) ;;
  u <-- uniform 1.1 2.2 ;;
  nh <-- lift (Py64.to_float new_hires) ;;
  n5 <-- normal 0 1.2 ;;
  open_positions <-- lift (Py64.round (Py64.max_int 0 (nh * u + n5))) ;;
  ttf_base <-- lift (Py.getitem ttf_bases dept) ;;
  n6 <-- normal 0 4 ;;
  ttf' <-- lift (Py64.to_float ttf_base) ;;
  time_to_fill <--
    lift (Py64.round
            (Py64.max_int 15
               (ttf' + n6 - (if Py.mem (month m) [10; 11]%Z then 1 else 0)))) ;;
  offer_base <-- lift (Py.getitem offer_bases dept) ;;
  n7 <-- normal 0 0.03 ;;
  let offer_acceptance_rate :=
    bounded (offer_base + n7 - (if Py.mem (month m) [6; 7]%Z then 0.015 else 0))
      0.62 0.95 in
  st_ret (rows ++ [ {| row_month := strftime m;
                       department := dept;
                       headcount := headcount;
                       new_hires := new_hires;
                       terminations := terminations;
                       open_positions := open_positions;
                       time_to_fill_days := time_to_fill;
                       offer_acceptance_rate :=
                         Py64.round_to (offer_acceptance_rate * 100) 1;
                       turnover_rate := Py64.round_to (turnover_rate * 100) 2 |} ]).

(** Lines 37-40: the body of the loop over the months. *)
#[warnings="-inexact-float"]
Definition append_month (im : Z * Timestamp) (rows : list Row) : gen (list Row) :=
  let month_idx := fst im in
  let m := snd im in
  let seasonal_hiring_boost := if Py.mem (month m) [3; 4; 9; 10]%Z then 1.2 else 0.8 in
  for_each departments (append_row month_idx m seasonal_hiring_boost) rows.

(** Lines 36-102: [rows = []] and the two nested loops. *)
Definition build_rows : gen (list Row) :=
  for_each (enumerate months) append_month [].

(** The ranges of a row's values; in the file the two rates are
    percentages, and 0.4 is the float nearest to it. *)
Record in_range (r : Row) : Prop := {
  headcount_floor : (8 <= headcount r)%Z;
  new_hires_floor : (0 <= new_hires r)%Z;
  terminations_floor : (0 <= terminations r)%Z;
  open_positions_floor : (0 <= open_positions r)%Z;
  time_to_fill_floor : (15 <= time_to_fill_days r)%Z;
  offer_acceptance_range :
    (62 <=? offer_acceptance_rate r) = true /\ (offer_acceptance_rate r <=? 95) = true;
  turnover_range :
    (0x1.999999999999ap-2 <=? turnover_rate r) = true /\ (turnover_rate r <=? 5) = true
}.


(** *** Every row is in range *)

(** A command that returns a value satisfying [Q], or raises
    [OverflowError]. *)
Definition safe {A} (Q : A -> Prop) (c : gen A) : Prop :=
  forall s, match snd (c s) with
            | Ok a => Q a
            | Raise e => e = OverflowError
            end.

Lemma safe_bind {A B} (P : A -> Prop) (Q : B -> Prop) (c : gen A) (k : A -> gen B) :
  safe P c -> (forall a, P a -> safe Q (k a)) -> safe Q (st_bind c k).
Proof.
  intros Hc Hk s. specialize (Hc s). unfold st_bind. cbv zeta.
  destruct (snd (c s)) as [a|e]; cbn [snd].
  - exact (Hk a Hc _).
  - exact Hc.
Qed.

Lemma safe_lift {A} (Q : A -> Prop) (r : result A) :
  match r with
  | Ok a => Q a
  | Raise e => e = OverflowError
  end -> safe Q (lift r).
Proof. intros H s. exact H. Qed.

Lemma safe_ret {A} (Q : A -> Prop) (a : A) : Q a -> safe Q (st_ret a).
Proof. intros H s. exact H. Qed.

Lemma safe_normal loc scale : safe (fun _ => True) (normal loc scale).
Proof. intros s. exact I. Qed.

Lemma safe_uniform low high : safe (fun _ => True) (uniform low high).
Proof. intros s. exact I. Qed.

Lemma safe_to_float z : safe (fun _ => True) (lift (Py64.to_float z)).
Proof.
  apply safe_lift. unfold Py64.to_float. cbv zeta.
  now destruct (is_infinity _).
Qed.

Lemma safe_round_8 x :
  safe (fun z => (8 <= z)%Z) (lift (Py64.round (Py64.max_int 8 x))).
Proof.
  apply safe_lift.
  apply (@Py64.round_above 8 4503599627370496 x); [reflexivity|reflexivity|lia].
Qed.

Lemma safe_round_15 x :
  safe (fun z => (15 <= z)%Z) (lift (Py64.round (Py64.max_int 15 x))).
Proof.
  apply safe_lift.
  apply (@Py64.round_above 15 8444249301319680 x); [reflexivity|reflexivity|lia].
Qed.

Lemma safe_round_0 x :
  safe (fun z => (0 <= z)%Z) (lift (Py64.round (Py64.max_int 0 x))).
Proof. apply safe_lift. apply Py64.round_above_zero. Qed.

(** The offer acceptance rate of a row: the clamped rate, in percent, to
    one decimal place. *)
#[warnings="-inexact-float"]
Lemma offer_percent value :
  (62 <=? Py64.round_to (bounded value 0.62 0.95 * 100) 1) = true
  /\ (Py64.round_to (bounded value 0.62 0.95 * 100) 1 <=? 95) = true.
Proof.
  match goal with
  | |- context [bounded value ?lo ?hi] =>
      destruct (@Py64.clamp_range value lo hi eq_refl) as [H1 H2];
      fold (bounded value lo hi) in H1, H2;
      destruct (@Py64.percent_between lo hi (bounded value lo hi)
                  5584463537939415 (-53) 8556839292003942 (-53)) as [P1 P2];
      try assumption; try (repeat split; lia)
  end.
  now apply Py64.round_to_offer.
Qed.

(** The turnover rate of a row: the clamped rate, in percent, to two
    decimal places. *)
#[warnings="-inexact-float"]
Lemma turnover_percent value :
  (0x1.999999999999ap-2 <=? Py64.round_to (bounded value 0.004 0.05 * 100) 2) = true
  /\ (Py64.round_to (bounded value 0.004 0.05 * 100) 2 <=? 5) = true.
Proof.
  match goal with
  | |- context [bounded value ?lo ?hi] =>
      destruct (@Py64.clamp_range value lo hi eq_refl) as [H1 H2];
      fold (bounded value lo hi) in H1, H2;
      destruct (@Py64.percent_between lo hi (bounded value lo hi)
                  4611686018427388 (-60) 7205759403792794 (-57)) as [P1 P2];
      try assumption; try (repeat split; lia)
  end.
  now apply Py64.round_to_turnover.
Qed.

(** A step that cannot put a value out of range: a lookup in a dict that
    has the key, a conversion, a sample. *)
Ltac pass :=
  eapply (@safe_bind _ _ (fun _ => True));
  [ first [ apply safe_to_float | apply safe_normal | apply safe_uniform
          | apply safe_lift; exact I ]
  | intros ? _ ].

(** One pass through the loop body appends one row with every value in
    range, or raises [OverflowError]. *)
Lemma append_row_range month_idx m boost dept rows :
  In dept departments ->
  safe (fun rows' => exists row, rows' = rows ++ [row] /\ in_range row)
    (append_row month_idx m boost dept rows).
Proof.
  intros Hin. unfold departments in Hin. simpl in Hin.
  destruct Hin as [<-|[<-|[<-|[<-|[<-|[<-|[]]]]]]];
    unfold append_row;
    cbv beta iota delta
      [Py.getitem baseline trends turnover_bases ttf_bases offer_bases
       String.eqb Ascii.eqb Bool.eqb];
    do 5 pass; cbv zeta;
    (eapply safe_bind; [apply safe_round_8|intros headcount' Hhc]);
    do 2 pass;
    (eapply safe_bind; [apply safe_round_0|intros new_hires' Hnh]);
    do 4 pass;
    (eapply safe_bind; [apply safe_round_0|intros terminations' Hte]);
    do 3 pass;
    (eapply safe_bind; [apply safe_round_0|intros open_positions' Hop]);
    do 3 pass;
    (eapply safe_bind; [apply safe_round_15|intros time_to_fill' Htf]);
    do 2 pass;
    apply safe_ret; eexists; (split; [reflexivity|]);
    (split; cbn [headcount new_hires terminations open_positions time_to_fill_days
                 offer_acceptance_rate turnover_rate];
     [ exact Hhc | exact Hnh | exact Hte | exact Hop | exact Htf
     | apply offer_percent | apply turnover_percent ]).
Qed.

(** The loop rule for commands that may raise [OverflowError]. *)
Lemma for_each_safe {X A} (I : A -> Prop) (body : X -> A -> gen A) (xs : list X) :
  (forall x acc, In x xs -> I acc -> safe I (body x acc)) ->
  forall acc, I acc -> safe I (for_each xs body acc).
Proof.
  induction xs as [|x xs IH]; intros Hb acc Hi; simpl.
  - now apply safe_ret.
  - eapply safe_bind.
    + apply Hb; [now left|exact Hi].
    + intros acc' Hi'. apply IH; [|exact Hi'].
      intros y acc0 Hy. apply Hb. now right.
Qed.

Lemma append_month_range im rows :
  Forall in_range rows -> safe (Forall in_range) (append_month im rows).
Proof.
  intros H. unfold append_month. cbv zeta.
  apply for_each_safe; [|exact H].
  intros dept acc Hin Hacc s.
  match goal with
  | |- context [append_row ?i ?t ?boost dept acc s] =>
      pose proof (@append_row_range i t boost dept acc Hin s) as R;
      destruct (snd (append_row i t boost dept acc s)) as [rows'|e]; [|exact R]
  end.
  destruct R as (row & -> & Hrow).
  apply Forall_app. split; [exact Hacc|]. now constructor.
Qed.

(** C10. Whatever values the samplers return, every row the generator
    builds has headcount at least 8, non-negative new hires, terminations
    and open positions, a time-to-fill of at least 15 days, an offer
    acceptance rate between 62.0 and 95.0 and a turnover rate between 0.4
    and 5.0 (both in percent).  The loops return such rows or raise
    [OverflowError], which is what [round] does on an infinite value. *)
Theorem rows_in_range (s : rng) :
  match snd (build_rows s) with
  | Ok rows => Forall in_range rows
  | Raise e => e = OverflowError
  end.
Proof.
  apply (@for_each_safe _ _ (Forall in_range) append_month (enumerate months)).
  - intros im acc _ Hacc. now apply append_month_range.
  - constructor.
Qed.

End Generator.

(** *** Runs of the loops

    A stand-in for numpy's generator that counts its calls and returns
    samples that vary with the count. *)
Definition noise (n : Z) : float := F64.of_int64 ((n * 37) mod 101 - 50) / 16.

Definition stepping_normal (loc scale : float) (n : Z) : float * Z :=
  (loc + scale * noise n, (n + 1)%Z).

Definition stepping_uniform (low high : float) (n : Z) : float * Z :=
  (low + (high - low) * (F64.of_int64 (n mod 8) / 8), (n + 1)%Z).

Definition values (r : Row) : Z * Z * Z * Z * Z * float * float :=
  (headcount r, new_hires r, terminations r, open_positions r,
   time_to_fill_days r, offer_acceptance_rate r, turnover_rate r).

(** The loops return 72 rows; the first two have the rates 83.3 and 1.62,
    79.0 and 2.27. *)
Example stepping_run :
  match snd (build_rows stepping_normal stepping_uniform 0%Z) with
  | Ok rows => (List.length rows, map values (firstn 2 rows))
  | Raise _ => (0%nat, [])
  end
  = (72%nat,
     [ (91%Z, 2%Z, 0%Z, 6%Z, 40%Z, 0x1.4d33333333333p+6, 0x1.9eb851eb851ecp+0);
       (65%Z, 1%Z, 0%Z, 4%Z, 25%Z, 0x1.3cp+6, 0x1.228f5c28f5c29p+1) ]).
Proof. vm_compute. reflexivity. Qed.

(** A sampler that returns an infinity makes the first [round] raise. *)
Example infinite_sample_raises :
  snd (build_rows (fun _ _ (s : unit) => (infinity, s))
         (fun _ _ (s : unit) => (1, s)) tt)
  = Raise OverflowError.
Proof. vm_compute. reflexivity. Qed.

(** A clamped turnover rate of 0.04025 is 4.025000000000000355 percent in
    binary64 and is written as 4.03; in exact arithmetic 4.025 is a tie and
    would be written as 4.02. *)
Example turnover_percent_rounds_up :
  Py64.round_to (bounded 0x1.49ba5e353f7cfp-5 0x1.0624dd2f1a9fcp-8 0x1.999999999999ap-5
                 * 100) 2
  = 0x1.01eb851eb851fp+2
  /\ Qeq (Py.round_to (MockData.bounded 0.04025 0.004 0.05 * 100)%Q 2) 4.02%Q.
Proof. split; vm_compute; reflexivity. Qed.

End Binary64.


End MockData.
